(** * Chronicle: candle aggregation, acquisition and session handling

    A shallow embedding of the market-data engine (lib/utils.js,
    lib/candle-processor.js, lib/db.js, lib/data-fetcher.js and the data,
    cache and replay handlers) together with the properties its
    specification states about it.

    Conventions of the embedding:
    - JavaScript numbers that hold epoch milliseconds, volumes and intervals
      are integers here ([Z]); prices are kept in the vendor's integer
      fixed-point units (only comparisons, [Math.max] and [Math.min] are ever
      applied to them, and these commute with the scaling).
    - A nullable price ([number | null]) is an [option Z].  Where a property
      depends on a value that is not a number ([NaN], [undefined]), the
      function is embedded a second time over a type that has these cases
      ([Db.JsPrice], [ReplayHandlers.Timer.Clock]), and the two embeddings
      are proved to agree on numbers.
    - [Math.floor (a / b)] for a positive [b] is [a / b] on [Z].
    - Timestamps are whole milliseconds.
    - A thrown exception is the [Throw] constructor of [Result]. *)

From Stdlib Require Import ZArith List String Ascii Bool Lia Recdef.
From Stdlib Require Import DecimalString DecimalNat.
From stdpp Require Import base option list gmap strings sorting.
Import ListNotations.

Local Open Scope Z_scope.

(** ** Results of fallible code *)

Inductive Err : Type :=
| ReferenceError (name : string)
| TypeError (what : string)
| Error (message : string).

Inductive Result (A : Type) : Type :=
| Ok (a : A)
| Throw (e : Err).

Arguments Ok {A} a.
Arguments Throw {A} e.

#[global] Instance result_ret : MRet Result := fun _ a => Ok a.

#[global] Instance result_bind : MBind Result := fun _ _ k r =>
  match r with
  | Ok a => k a
  | Throw e => Throw e
  end.

(** ** lib/utils.js *)

Module Utils.

Definition DEFAULT_DATA_RANGE_MINUTES : Z := 86400.
Definition EARLY_CANDLE_CUSHION_MINUTES : Z := 4320.
Definition LATE_CANDLE_CUSHION_MINUTES : Z := 180.

Definition is_digit (c : ascii) : bool :=
  (48 <=? nat_of_ascii c)%nat && (nat_of_ascii c <=? 57)%nat.

(** [parseInt] on a string of decimal digits. *)
Fixpoint digitsValue (acc : Z) (s : list ascii) : option Z :=
  match s with
  | [] => Some acc
  | c :: r =>
      if is_digit c
      then digitsValue (acc * 10 + (Z.of_nat (nat_of_ascii c) - 48)) r
      else None
  end.

Definition unitMultiplier (u : ascii) : option Z :=
  if Ascii.eqb u "m" then Some (60 * 1000)
  else if Ascii.eqb u "h" then Some (60 * 60 * 1000)
  else if Ascii.eqb u "d" then Some (24 * 60 * 60 * 1000)
  else None.

Definition invalidTimeframe : Err := Error "Invalid timeframe format".

(** The match against [/^(\d+)([mhd])$/]: one or more digits followed by
    exactly one unit letter, nothing else. *)
Definition parseTimeframeMs (timeframe : string) : Result Z :=
  match rev (list_ascii_of_string timeframe) with
  | u :: d :: ds =>
      match digitsValue 0 (rev (d :: ds)), unitMultiplier u with
      | Some value, Some multiplier => Ok (value * multiplier)
      | _, _ => Throw invalidTimeframe
      end
  | _ => Throw invalidTimeframe
  end.

End Utils.

(** ** The host runtime: calendar and time zone

    [Date] and [Intl] belong to the JavaScript runtime, not to the
    repository.  They are modelled by the proleptic Gregorian calendar and by
    the America/New_York rules in force since 2007: daylight time from the
    second Sunday of March, 07:00 UTC, to the first Sunday of November,
    06:00 UTC.  The server's own zone is a fixed offset [host] (milliseconds
    east of UTC). *)

Module Platform.

Definition msPerDay : Z := 24 * 60 * 60 * 1000.
Definition msPerHour : Z := 60 * 60 * 1000.

Definition days_from_civil (y m d : Z) : Z :=
  let y' := if m <=? 2 then y - 1 else y in
  let era := y' / 400 in
  let yoe := y' - era * 400 in
  let mp := if 2 <? m then m - 3 else m + 9 in
  let doy := (153 * mp + 2) / 5 + d - 1 in
  let doe := yoe * 365 + yoe / 4 - yoe / 100 + doy in
  era * 146097 + doe - 719468.

(** Returns (year, month, day). *)
Definition civil_from_days (z : Z) : Z * Z * Z :=
  let z' := z + 719468 in
  let era := z' / 146097 in
  let doe := z' - era * 146097 in
  let yoe := (doe - doe / 1460 + doe / 36524 - doe / 146096) / 365 in
  let y := yoe + era * 400 in
  let doy := doe - (365 * yoe + yoe / 4 - yoe / 100) in
  let mp := (5 * doy + 2) / 153 in
  let d := doy - (153 * mp + 2) / 5 + 1 in
  let m := if mp <? 10 then mp + 3 else mp - 9 in
  (if m <=? 2 then y + 1 else y, m, d).

(** Day of the week of a day number, 0 = Sunday. *)
Definition weekday (days : Z) : Z := (days + 4) mod 7.

(** Day of the month of the first Sunday of month [m] of year [y]. *)
Definition firstSunday (y m : Z) : Z :=
  1 + (7 - weekday (days_from_civil y m 1)) mod 7.

Definition dstStartUTC (y : Z) : Z :=
  days_from_civil y 3 (firstSunday y 3 + 7) * msPerDay + 7 * msPerHour.

Definition dstEndUTC (y : Z) : Z :=
  days_from_civil y 11 (firstSunday y 11) * msPerDay + 6 * msPerHour.

(** Offset of America/New_York from UTC at the instant [t]. *)
Definition easternOffsetMs (t : Z) : Z :=
  let '(y, _, _) := civil_from_days (t / msPerDay) in
  if (dstStartUTC y <=? t) && (t <? dstEndUTC y)
  then -4 * msPerHour
  else -5 * msPerHour.

(** [toLocaleDateString("en-US", {timeZone: "America/New_York", ...})]
    followed by the split on '/': (month, day, year). *)
Definition easternDate (t : Z) : Z * Z * Z :=
  let '(y, m, d) := civil_from_days ((t + easternOffsetMs t) / msPerDay) in
  (m, d, y).

(** [new Date(year, month - 1, day, hh, 0, 0)] and
    [new Date("m/d/y hh:00:00")]: a wall-clock time read in the host zone. *)
Definition localTime (host : Z) (y m d hh : Z) : Z :=
  days_from_civil y m d * msPerDay + hh * msPerHour - host.

(** [new Date(x.toLocaleString("en-US", {timeZone: "America/New_York"}))]:
    the Eastern wall clock of [t], to the second, read back in the host
    zone. *)
Definition easternWallAsLocal (host : Z) (t : Z) : Z :=
  (t + easternOffsetMs t) / 1000 * 1000 - host.

End Platform.

(** ** The data model *)

(** Provenance tag of a bar: historical, live 1-minute stream, cache,
    aggregated, built from trades. *)
Inductive Source : Type := SrcH | SrcL | SrcC | SrcA | SrcT.

(** A bar.  The [firstUpdate] flag of an open 1-minute candle only drives a
    log line and is left out. *)
Record Candle : Type := mkCandle {
  timestamp : Z;
  open : option Z;
  high : option Z;
  low : option Z;
  close : option Z;
  volume : Z;
  instrument : string;
  timeframe : string;
  source : Source;
  isClosed : bool
}.

(** A trade; its [timestamp] and [instrument] fields are [tradeTimestamp]
    and [tradeInstrument] here. *)
Record Trade : Type := mkTrade {
  tradeTimestamp : Z;
  price : Z;
  size : Z;
  side : string;
  tradeInstrument : string
}.

(** [ToNumber] on a nullable number: [null] becomes 0. *)
Definition toNumber (v : option Z) : Z := default 0 v.

Definition Math_max (a b : option Z) : option Z :=
  Some (Z.max (toNumber a) (toNumber b)).

Definition Math_min (a b : option Z) : option Z :=
  Some (Z.min (toNumber a) (toNumber b)).

(** [a || b] on a nullable number: [null] and 0 are both falsy. *)
Definition jsOr (a : option Z) (b : option Z) : option Z :=
  match a with
  | Some v => if v =? 0 then b else a
  | None => b
  end.

Definition numeric (c : Candle) : Prop :=
  is_Some (open c) /\ is_Some (high c) /\ is_Some (low c) /\ is_Some (close c).

(** [Math.max(...l.map(c => c.timestamp))]; [None] stands for [-Infinity],
    the value on an empty array. *)
Fixpoint maxTimestamp (l : list Candle) : option Z :=
  match l with
  | [] => None
  | c :: r =>
      match maxTimestamp r with
      | None => Some (timestamp c)
      | Some m => Some (Z.max (timestamp c) m)
      end
  end.

(** [l.sort((a, b) => a.timestamp - b.timestamp)]: the sort is stable, so
    its result is the one of a stable insertion sort. *)
Fixpoint insertByTimestamp (c : Candle) (l : list Candle) : list Candle :=
  match l with
  | [] => [c]
  | x :: r =>
      if timestamp c <=? timestamp x then c :: l
      else x :: insertByTimestamp c r
  end.

Fixpoint sortByTimestamp (l : list Candle) : list Candle :=
  match l with
  | [] => []
  | c :: r => insertByTimestamp c (sortByTimestamp r)
  end.

Definition inRange (start end_ : Z) (c : Candle) : bool :=
  (start <=? timestamp c) && (timestamp c <=? end_).

(** ** lib/candle-processor.js *)

Module CandleProcessor.

(** The module-level [sessionBoundaryCache]: day key to session start. *)
Abbreviation SessionCache := (gmap Z Z).

Section WithHost.

(** Offset of the server's zone from UTC, in milliseconds. *)
Variable host : Z.

Definition getSessionStartUTC (cache : SessionCache) (utcTimestamp : Z)
  : Z * SessionCache :=
  let dayKey := utcTimestamp / (24 * 60 * 60 * 1000) in
  match cache !! dayKey with
  | Some v => (v, cache)
  | None =>
      let '(month, day, year) := Platform.easternDate utcTimestamp in
      let sessionDate := Platform.localTime host year month day 18 in
      let tempUTC := Platform.localTime host year month day 12 in
      let tempETDate := Platform.easternWallAsLocal host tempUTC in
      let offsetMs := tempUTC - tempETDate in
      let sessionStartUTC := sessionDate + offsetMs in
      (sessionStartUTC, <[dayKey := sessionStartUTC]> cache)
  end.

Definition getSessionBasedAlignment (cache : SessionCache)
    (timestamp intervalMs : Z) : Z * SessionCache :=
  let '(sessionStartToday, cache') := getSessionStartUTC cache timestamp in
  let baseSessionStart :=
    if timestamp <? sessionStartToday
    then sessionStartToday - 24 * 60 * 60 * 1000
    else sessionStartToday in
  let intervalsSinceBase := (timestamp - baseSessionStart) / intervalMs in
  (baseSessionStart + intervalsSinceBase * intervalMs, cache').

Definition needsSessionAlignment (timeframe : string) : Result bool :=
  intervalMs ← Utils.parseTimeframeMs timeframe;
  let oneHourMs := 60 * 60 * 1000 in
  let oneDayMs := 24 * 60 * 60 * 1000 in
  mret ((oneHourMs <? intervalMs) && (intervalMs <=? oneDayMs)).

(** The bucket start of a 1-minute timestamp, as the loops compute it. *)
Definition baseTimeOf (useSessionAlignment : bool) (intervalMs : Z)
    (cache : SessionCache) (t : Z) : Z * SessionCache :=
  if useSessionAlignment
  then getSessionBasedAlignment cache t intervalMs
  else (t / intervalMs * intervalMs, cache).

(** State of the aggregation loop. *)
Record AggState : Type := mkAggState {
  aggCache : SessionCache;
  aggResult : list Candle;
  currentCandle : option Candle;
  currentCandleTimestamps : list Z
}.

(** Setting [isClosed] on the open bar just before it is pushed. *)
Definition finishCandle (intervalMs : Z) (maxTs : option Z)
    (cur : Candle) (tss : list Z) : Candle :=
  let lastPossibleTs := timestamp cur + intervalMs - 60000 in
  let hasLastPossible := existsb (Z.eqb lastPossibleTs) tss in
  let hasLaterData :=
    match maxTs with
    | Some m => timestamp cur + intervalMs <=? m
    | None => false
    end in
  mkCandle (timestamp cur) (open cur) (high cur) (low cur) (close cur)
    (volume cur) (instrument cur) (timeframe cur) (source cur)
    (hasLaterData || hasLastPossible).

(** One iteration of [for (const candle1m of candles1m)].  The open bar
    carries [isClosed = false] until it is pushed (the property is
    absent on the JavaScript object until then). *)
Definition aggStep (instr tf : string) (useSessionAlignment : bool)
    (intervalMs : Z) (maxTs : option Z) (st : AggState) (candle1m : Candle)
  : AggState :=
  let '(baseTime, cache') :=
    baseTimeOf useSessionAlignment intervalMs (aggCache st)
      (timestamp candle1m) in
  let fresh :=
    mkCandle baseTime (open candle1m) (high candle1m) (low candle1m)
      (close candle1m) (volume candle1m) instr tf SrcA false in
  match currentCandle st with
  | None =>
      mkAggState cache' (aggResult st) (Some fresh) [timestamp candle1m]
  | Some cur =>
      if negb (baseTime =? timestamp cur)
      then mkAggState cache'
             (aggResult st ++
              [finishCandle intervalMs maxTs cur (currentCandleTimestamps st)])
             (Some fresh) [timestamp candle1m]
      else mkAggState cache' (aggResult st)
             (Some (mkCandle (timestamp cur) (open cur)
                      (Math_max (high cur) (high candle1m))
                      (Math_min (low cur) (low candle1m))
                      (close candle1m)
                      (volume cur + volume candle1m)
                      (instrument cur) (timeframe cur) (source cur) false))
             (currentCandleTimestamps st ++ [timestamp candle1m])
  end.

Definition aggFlush (intervalMs : Z) (maxTs : option Z) (st : AggState)
  : list Candle :=
  match currentCandle st with
  | Some cur =>
      aggResult st ++
      [finishCandle intervalMs maxTs cur (currentCandleTimestamps st)]
  | None => aggResult st
  end.

Definition aggregateCandles (cache : SessionCache) (instr tf : string)
    (start end_ : Z) (candles1m : list Candle)
  : Result (list Candle * SessionCache) :=
  if String.eqb tf "1m"
  then mret (List.filter (inRange start end_) candles1m, cache)
  else
    intervalMs ← Utils.parseTimeframeMs tf;
    useSessionAlignment ← needsSessionAlignment tf;
    let maxTs := maxTimestamp candles1m in
    let st :=
      fold_left (aggStep instr tf useSessionAlignment intervalMs maxTs)
        (sortByTimestamp candles1m)
        (mkAggState cache [] None []) in
    mret (List.filter (inRange start end_) (aggFlush intervalMs maxTs st),
          aggCache st).

End WithHost.

End CandleProcessor.

(** ** lib/db.js: the CANDLES table *)

Module Db.

(** A row of CANDLES without its primary key
    [(instrument, timeframe, timestamp)]; the REAL columns are nullable. *)
Record Row : Type := mkRow {
  rowOpen : option Z;
  rowHigh : option Z;
  rowLow : option Z;
  rowClose : option Z;
  rowVolume : Z
}.

Abbreviation Candles := (gmap (string * string * Z) Row).

Definition isSome {A : Type} (o : option A) : bool :=
  match o with
  | Some _ => true
  | None => false
  end.

(** The predicate of [validCandles], [candle.volume > 0] and no OHLC field
    is [null], on a bar whose prices are numbers or [null].  Bars as
    [batchInsertCandles] may receive them, with prices that are not numbers,
    are those of [isValidBar] below. *)
Definition isValidCandle (candle : Candle) : bool :=
  (0 <? volume candle) && isSome (open candle) && isSome (high candle)
  && isSome (low candle) && isSome (close candle).

Definition keyOf (candle : Candle) : string * string * Z :=
  (instrument candle, timeframe candle, timestamp candle).

Definition rowOf (candle : Candle) : Row :=
  mkRow (open candle) (high candle) (low candle) (close candle) (volume candle).

(** One [stmt.run] of the INSERT OR REPLACE statement. *)
Definition upsert (db : Candles) (candle : Candle) : Candles :=
  <[keyOf candle := rowOf candle]> db.

(** [batchInsertCandles(db, candles, instrument, timeframe)].  The last two
    arguments only appear in log lines.  [finalizeErr] tells whether
    [stmt.finalize] reports an error, in which case the transaction is
    rolled back. *)
Definition batchInsertCandles (db : Candles) (candles : list Candle)
    (instr tf : string) (finalizeErr : bool) : Candles :=
  let validCandles := List.filter isValidCandle candles in
  if (length validCandles =? 0)%nat then db
  else if finalizeErr then db
  else fold_left upsert validCandles db.

(** Whether the promise of [batchInsertCandles] is rejected by an error of
    [stmt.finalize], which can only happen once the transaction has begun,
    that is with a valid bar in the batch.  (A COMMIT that fails rejects the
    promise as well; what SQLite leaves in the table then is not modelled.) *)
Definition batchInsertRejects (candles : list Candle) (finalizeErr : bool)
  : bool :=
  negb (length (List.filter isValidCandle candles) =? 0)%nat && finalizeErr.

(** *** Bars with prices that are not numbers *)

(** An OHLC field of a bar as a caller may pass it: [null], [NaN] (what
    [Number(raw.open) / 1e9] gives for a record without the field) or a
    number. *)
Inductive JsPrice : Type :=
| PriceNull
| PriceNaN
| PriceOf (p : Z).

Record JsBar : Type := mkJsBar {
  barTimestamp : Z;
  barOpen : JsPrice;
  barHigh : JsPrice;
  barLow : JsPrice;
  barClose : JsPrice;
  barVolume : Z;
  barInstrument : string;
  barTimeframe : string
}.

(** [price !== null] *)
Definition notNull (price : JsPrice) : bool :=
  match price with
  | PriceNull => false
  | PriceNaN | PriceOf _ => true
  end.

(** The predicate of [validCandles]. *)
Definition isValidBar (bar : JsBar) : bool :=
  (0 <? barVolume bar) && notNull (barOpen bar) && notNull (barHigh bar)
  && notNull (barLow bar) && notNull (barClose bar).

(** The value SQLite stores for a bound parameter: NULL for [null], and
    NULL for the floating-point value NaN as well. *)
Definition bound (price : JsPrice) : option Z :=
  match price with
  | PriceOf p => Some p
  | PriceNull | PriceNaN => None
  end.

Definition keyOfBar (bar : JsBar) : string * string * Z :=
  (barInstrument bar, barTimeframe bar, barTimestamp bar).

Definition rowOfBar (bar : JsBar) : Row :=
  mkRow (bound (barOpen bar)) (bound (barHigh bar)) (bound (barLow bar))
    (bound (barClose bar)) (barVolume bar).

Definition upsertBar (db : Candles) (bar : JsBar) : Candles :=
  <[keyOfBar bar := rowOfBar bar]> db.

(** [batchInsertCandles(db, candles, instrument, timeframe)] on such bars. *)
Definition batchInsertBars (db : Candles) (bars : list JsBar)
    (instr tf : string) (finalizeErr : bool) : Candles :=
  let validCandles := List.filter isValidBar bars in
  if (length validCandles =? 0)%nat then db
  else if finalizeErr then db
  else fold_left upsertBar validCandles db.

(** A bar whose prices are numbers or [null], as a bar of [batchInsertBars]. *)
Definition priceOf (price : option Z) : JsPrice :=
  match price with
  | Some p => PriceOf p
  | None => PriceNull
  end.

Definition barOfCandle (candle : Candle) : JsBar :=
  mkJsBar (timestamp candle) (priceOf (open candle)) (priceOf (high candle))
    (priceOf (low candle)) (priceOf (close candle)) (volume candle)
    (instrument candle) (timeframe candle).

Definition candleOfRow (entry : string * string * Z * Row) : Candle :=
  let '(instr, tf, ts, row) := entry in
  mkCandle ts (rowOpen row) (rowHigh row) (rowLow row) (rowClose row)
    (rowVolume row) instr tf SrcC true.

Definition selected (symbol : string) (startMs endMs : Z)
    (entry : string * string * Z * Row) : bool :=
  let '(instr, tf, ts, _) := entry in
  String.eqb instr symbol && String.eqb tf "1m"
  && (startMs <=? ts) && (ts <=? endMs).

(** [getCached1mCandles(db, symbol, startMs, endMs)]: the rows of the symbol
    on timeframe 1m between the bounds, ascending; the empty list when the
    query fails. *)
Definition getCached1mCandles (db : Candles) (symbol : string)
    (startMs endMs : Z) (queryErr : bool) : list Candle :=
  if queryErr then []
  else sortByTimestamp
         (map candleOfRow
            (List.filter (selected symbol startMs endMs) (map_to_list db))).

End Db.

(** ** lib/handlers/cache-handlers.js *)

(** The values a request field can hold. *)
Inductive JsValue : Type :=
| JsUndefined
| JsNull
| JsString (s : string)
| JsNumber (n : Z).

Module CacheHandlers.

Record ClearCacheRequest : Type := mkClearCacheRequest {
  reqInstrument : JsValue;
  reqTimeframe : JsValue;
  reqStartTime : JsValue;
  reqEndTime : JsValue
}.

(** A destructuring default applies to an absent ([undefined]) property. *)
Definition withDefault (v d : JsValue) : JsValue :=
  match v with
  | JsUndefined => d
  | _ => v
  end.

(** [v !== 'all'] *)
Definition notAll (v : JsValue) : bool :=
  match v with
  | JsString s => negb (String.eqb s "all")
  | _ => true
  end.

Fixpoint join (sep : string) (l : list string) : string :=
  match l with
  | [] => ""
  | [s] => s
  | s :: r => s +:+ sep +:+ join sep r
  end.

Record Statement : Type := mkStatement {
  query : string;
  conditions : list string;
  params : list JsValue
}.

(** The statement [handleClearCache] builds from a request. *)
Definition clearCacheStatement (request : ClearCacheRequest) : Statement :=
  let instr := withDefault (reqInstrument request) (JsString "all") in
  let tf := withDefault (reqTimeframe request) (JsString "all") in
  let start_time := withDefault (reqStartTime request) (JsString "all") in
  let end_time := withDefault (reqEndTime request) (JsString "all") in
  let c1 := if notAll instr then [("instrument = ?"%string, instr)] else [] in
  let c2 := if notAll tf then [("timeframe = ?"%string, tf)] else [] in
  let c3 :=
    if notAll start_time || notAll end_time
    then (if notAll start_time
          then [("timestamp >= ?"%string, start_time)] else [])
         ++ (if notAll end_time
             then [("timestamp <= ?"%string, end_time)] else [])
    else [] in
  let pushed := c1 ++ c2 ++ c3 in
  let conds := map fst pushed in
  mkStatement
    (if (0 <? length conds)%nat
     then "DELETE FROM CANDLES" +:+ " WHERE " +:+ join " AND " conds
     else "DELETE FROM CANDLES")
    conds (map snd pushed).

Inductive Reply : Type :=
| ClearCacheError
| ClearCacheResponse (changes : nat).

Section Sqlite.

(** SQLite's verdict on one condition of a WHERE clause for one row, its
    placeholder bound to a parameter.  The comparison rules belong to the
    database engine and are left open. *)
Variable holds : string -> JsValue -> string * string * Z -> Db.Row -> bool.

(** A DELETE removes the rows that satisfy every condition of its WHERE
    clause: all rows when there is none. *)
Definition matches (st : Statement) (k : string * string * Z) (row : Db.Row)
  : bool :=
  forallb (fun cp => holds (fst cp) (snd cp) k row)
    (combine (conditions st) (params st)).

Definition runDelete (st : Statement) (db : Db.Candles) : Db.Candles :=
  filter (fun kr => matches st (fst kr) (snd kr) = false) db.

(** [handleClearCache(db, ws, request)]: the table afterwards and the
    message sent to the client.  [runErr] tells whether [db.run] fails. *)
Definition handleClearCache (db : Db.Candles) (request : ClearCacheRequest)
    (runErr : bool) : Db.Candles * Reply :=
  let st := clearCacheStatement request in
  if runErr then (db, ClearCacheError)
  else
    let db' := runDelete st db in
    (db', ClearCacheResponse (base.size db - base.size db')).

End Sqlite.

End CacheHandlers.

(** ** lib/handlers/data-handlers.js: acquisition of the 1-minute series

    The data handlers ([handleGetData], [handleAddTimeframe], ...) follow the
    settings handlers in the file settings-handlers.js of the source tree. *)

Module DataHandlers.

(** The calls to the upstream fetchers, named after the place in
    [handleGetData] that issues them. *)
Inductive Upstream : Type :=
| HistoricalFull (startMs endMs : Z)
| HistoricalEarly (startMs endMs : Z)
| HistoricalLate (startMs endMs : Z)
| LiveTail (startMs endMs : Z).

(** [end_time === undefined || end_time === 'current'] *)
Definition endIsNow (end_time : JsValue) : bool :=
  match end_time with
  | JsUndefined => true
  | JsString s => String.eqb s "current"
  | _ => false
  end.

(** [end_time === 'current'] *)
Definition endIsCurrent (end_time : JsValue) : bool :=
  match end_time with
  | JsString s => String.eqb s "current"
  | _ => false
  end.

(** [Math.min(...)] and [Math.max(...)] of the timestamps of a non-empty
    array. *)
Definition earliestOf (c : Candle) (r : list Candle) : Z :=
  fold_left Z.min (map timestamp r) (timestamp c).

Definition latestOf (c : Candle) (r : list Candle) : Z :=
  fold_left Z.max (map timestamp r) (timestamp c).

Record Acquisition : Type := mkAcquisition {
  acqCandles : list Candle;
  acqDb : Db.Candles;
  acqCalls : list Upstream;
  acqFailed : bool
}.

Section Fetchers.

(** The upstream fetchers of lib/data-fetcher.js, seen from their caller:
    they return bars or throw. *)
Variable fetchHistorical1mCandles : string -> Z -> Z -> Result (list Candle).
Variable fetchLive1mCandles : list string -> Z -> Z -> Result (list Candle).

(** Whether [stmt.finalize] reports an error for the insert of the bars that
    an upstream call has returned. *)
Variable insertFails : Upstream -> bool.

(** [if (save_cache) await batchInsertCandles(db, bars, symbol, '1m')] in
    one of the gap fills.  The bars have been merged into [candles1m] before,
    and the rejection of a failed insert is caught by the [catch] of the fill,
    which goes on with the data it has: only the table tells the two outcomes
    apart. *)
Definition saveIf (save_cache : bool) (db : Db.Candles) (bars : list Candle)
    (symbol : string) (call : Upstream) : Db.Candles :=
  if save_cache
  then Db.batchInsertCandles db bars symbol "1m" (insertFails call)
  else db.

(** The early fill of the cached branch. *)
Definition fillEarlier (symbol : string) (startMs : Z) (save_cache : bool)
    (earliestCached : Z) (st : Acquisition) : Acquisition :=
  if startMs <? earliestCached then
    let cushionMs := Utils.EARLY_CANDLE_CUSHION_MINUTES * 60 * 1000 in
    if earliestCached - startMs <=? cushionMs then st
    else
      let calls := acqCalls st ++ [HistoricalEarly startMs (earliestCached - 60000)] in
      match fetchHistorical1mCandles symbol startMs (earliestCached - 60000) with
      | Ok earlierCandles =>
          if (0 <? length earlierCandles)%nat
          then mkAcquisition (earlierCandles ++ acqCandles st)
                 (saveIf save_cache (acqDb st) earlierCandles symbol
                    (HistoricalEarly startMs (earliestCached - 60000)))
                 calls false
          else mkAcquisition (acqCandles st) (acqDb st) calls false
      | Throw _ => mkAcquisition (acqCandles st) (acqDb st) calls false
      end
  else st.

(** One attempt to fetch the range after the latest cached bar. *)
Definition fetchLater (symbol : string) (endMs : Z) (save_cache : bool)
    (latestCachedForSymbol : Z) (st : Acquisition) : Acquisition :=
  let calls := acqCalls st ++ [HistoricalLate (latestCachedForSymbol + 60000) endMs] in
  match fetchHistorical1mCandles symbol (latestCachedForSymbol + 60000) endMs with
  | Ok laterCandles =>
      if (0 <? length laterCandles)%nat
      then mkAcquisition (acqCandles st ++ laterCandles)
             (saveIf save_cache (acqDb st) laterCandles symbol
                (HistoricalLate (latestCachedForSymbol + 60000) endMs))
             calls false
      else mkAcquisition (acqCandles st) (acqDb st) calls false
  | Throw _ => mkAcquisition (acqCandles st) (acqDb st) calls false
  end.

(** The late fill of the cached branch. *)
Definition fillLater (symbol : string) (endMs : Z) (end_time : JsValue)
    (save_cache : bool) (latestCachedForSymbol : Z) (st : Acquisition)
  : Acquisition :=
  if latestCachedForSymbol <? endMs then
    if endIsNow end_time then
      let cushionMs := Utils.LATE_CANDLE_CUSHION_MINUTES * 60 * 1000 in
      if endMs - latestCachedForSymbol <=? cushionMs then st
      else fetchLater symbol endMs save_cache latestCachedForSymbol st
    else fetchLater symbol endMs save_cache latestCachedForSymbol st
  else st.

(** The live fill of the recent tail. *)
Definition fillLive (symbol : string) (startMs endMs : Z) (end_time : JsValue)
    (save_cache : bool) (st : Acquisition) : Acquisition :=
  let latestCachedForSymbol :=
    match acqCandles st with
    | c :: r => latestOf c r
    | [] => startMs
    end in
  if endIsCurrent end_time || (latestCachedForSymbol <? endMs) then
    let calls := acqCalls st ++ [LiveTail (latestCachedForSymbol + 60000) endMs] in
    match fetchLive1mCandles [symbol] (latestCachedForSymbol + 60000) endMs with
    | Ok liveCandles =>
        if (0 <? length liveCandles)%nat
        then mkAcquisition (sortByTimestamp (acqCandles st ++ liveCandles))
               (saveIf save_cache (acqDb st) liveCandles symbol
                  (LiveTail (latestCachedForSymbol + 60000) endMs))
               calls false
        else mkAcquisition (sortByTimestamp (acqCandles st)) (acqDb st)
               calls false
    | Throw _ =>
        mkAcquisition (sortByTimestamp (acqCandles st)) (acqDb st) calls false
    end
  else st.

(** The body of [for (const symbol in symbolSubscriptions)] up to the point
    where the timeframes are served: the 1-minute series of the symbol, the
    cache afterwards and the upstream calls made.  [acqFailed] is the
    [continue] of the empty-cache branch, where the fetch of the whole range
    and the insert of its bars share one [try]: it is reached when the fetch
    throws and when the insert is rejected, and no series is handed on. *)
Definition acquire1m (db : Db.Candles) (symbol : string) (startMs endMs : Z)
    (end_time : JsValue) (use_cache save_cache : bool) : Acquisition :=
  let cached :=
    if use_cache then Db.getCached1mCandles db symbol startMs endMs false
    else [] in
  match cached with
  | [] =>
      match fetchHistorical1mCandles symbol startMs endMs with
      | Ok candles1m =>
          let insertErr := insertFails (HistoricalFull startMs endMs) in
          if save_cache && (0 <? length candles1m)%nat
             && Db.batchInsertRejects candles1m insertErr
          then mkAcquisition [] db [HistoricalFull startMs endMs] true
          else
            fillLive symbol startMs endMs end_time save_cache
              (mkAcquisition candles1m
                 (if save_cache && (0 <? length candles1m)%nat
                  then Db.batchInsertCandles db candles1m symbol "1m" insertErr
                  else db)
                 [HistoricalFull startMs endMs] false)
      | Throw _ => mkAcquisition [] db [HistoricalFull startMs endMs] true
      end
  | c :: r =>
      let earliestCached := earliestOf c r in
      let latestCachedForSymbol := latestOf c r in
      let st1 :=
        fillEarlier symbol startMs save_cache earliestCached
          (mkAcquisition cached db [] false) in
      let st2 :=
        fillLater symbol endMs end_time save_cache latestCachedForSymbol st1 in
      fillLive symbol startMs endMs end_time save_cache
        (mkAcquisition (sortByTimestamp (acqCandles st2)) (acqDb st2)
           (acqCalls st2) false)
  end.

End Fetchers.

(** *** The live-candle updater *)

(** What a session hands to its output sink. *)
Inductive Emission : Type :=
| EmitBar (candle : Candle)
| EmitCtrl (message : string)
| EmitError (message : string).

(** A JavaScript [Map] or object with string keys, in insertion order. *)
Definition mapGet {V : Type} (m : list (string * V)) (k : string) : option V :=
  match List.find (fun kv => String.eqb (fst kv) k) m with
  | Some kv => Some (snd kv)
  | None => None
  end.

Fixpoint mapSet {V : Type} (m : list (string * V)) (k : string) (v : V)
  : list (string * V) :=
  match m with
  | [] => [(k, v)]
  | (k', v') :: r =>
      if String.eqb k' k then (k, v) :: r else (k', v') :: mapSet r k v
  end.

Definition includes (l : list string) (s : string) : bool :=
  existsb (String.eqb s) l.

(** The fields of the connection object [ws] that the live path uses,
    together with the two pieces of state it shares with the rest of the
    process: the CANDLES table and the session-boundary cache. *)
Record Session : Type := mkSession {
  activeSubscriptions : list (string * list string);
  isLiveActive : bool;
  isProcessingTimeframeChange : bool;
  tradeQueue : list Trade;
  open1mCandles : list (string * Candle);
  openCandles : list (string * list (string * Candle));
  sent : list Emission;
  candlesDb : Db.Candles;
  sessionBoundaryCache : CandleProcessor.SessionCache
}.

Definition withQueue (ws : Session) (q : list Trade) : Session :=
  mkSession (activeSubscriptions ws) (isLiveActive ws)
    (isProcessingTimeframeChange ws) q (open1mCandles ws) (openCandles ws)
    (sent ws) (candlesDb ws) (sessionBoundaryCache ws).

Definition withChangeFlag (ws : Session) (b : bool) : Session :=
  mkSession (activeSubscriptions ws) (isLiveActive ws) b (tradeQueue ws)
    (open1mCandles ws) (openCandles ws) (sent ws) (candlesDb ws)
    (sessionBoundaryCache ws).

(** [ws.outputFunc(candle)]: the bar is serialised as it is at that moment. *)
Definition output (ws : Session) (candle : Candle) : Session :=
  mkSession (activeSubscriptions ws) (isLiveActive ws)
    (isProcessingTimeframeChange ws) (tradeQueue ws) (open1mCandles ws)
    (openCandles ws) (sent ws ++ [EmitBar candle]) (candlesDb ws)
    (sessionBoundaryCache ws).

Definition outputIf (b : bool) (ws : Session) (candle : Candle) : Session :=
  if b then output ws candle else ws.

Definition setClosed (c : Candle) : Candle :=
  mkCandle (timestamp c) (open c) (high c) (low c) (close c) (volume c)
    (instrument c) (timeframe c) (source c) true.

(** The object literal of a candle opened by a trade. *)
Definition seededBy (trade : Trade) (start : Z) (instr tf : string) : Candle :=
  mkCandle start (Some (price trade)) (Some (price trade))
    (Some (price trade)) (Some (price trade)) (size trade) instr tf SrcT false.

(** Folding a trade into an open candle. *)
Definition foldTrade (c : Candle) (trade : Trade) : Candle :=
  let p := Some (price trade) in
  mkCandle (timestamp c)
    (match open c with None => p | Some _ => open c end)
    (Math_max (jsOr (high c) p) p)
    (Math_min (jsOr (low c) p) p)
    p (volume c + size trade)
    (instrument c) (timeframe c) (source c) (isClosed c).

(** The open 1-minute candle [handleGetData] installs for a symbol. *)
Definition emptyCandle (start : Z) (instr tf : string) : Candle :=
  mkCandle start None None None None 0 instr tf SrcT false.

Section Updater.

Variable host : Z.

(** [next1mStarts], the object captured by the closure. *)
Variable next1mStarts : list (string * Z).

(** The 1-minute part of [processTradeForClient]. *)
Definition update1m (ws : Session) (trade : Trade) (instr : string)
    (subs : list string) (open1mCandle : Candle) : Session :=
  if timestamp open1mCandle + 60000 <=? tradeTimestamp trade then
    let closed := setClosed open1mCandle in
    let ws1 := outputIf (includes subs "1m") ws closed in
    let db' := Db.batchInsertCandles (candlesDb ws1) [closed] instr "1m" false in
    let newStart := tradeTimestamp trade / 60000 * 60000 in
    let fresh := seededBy trade newStart instr "1m" in
    let ws2 :=
      mkSession (activeSubscriptions ws1) (isLiveActive ws1)
        (isProcessingTimeframeChange ws1) (tradeQueue ws1)
        (mapSet (open1mCandles ws1) instr fresh) (openCandles ws1)
        (sent ws1) db' (sessionBoundaryCache ws1) in
    outputIf (includes subs "1m") ws2 fresh
  else
    let updated := foldTrade open1mCandle trade in
    let ws1 :=
      mkSession (activeSubscriptions ws) (isLiveActive ws)
        (isProcessingTimeframeChange ws) (tradeQueue ws)
        (mapSet (open1mCandles ws) instr updated) (openCandles ws)
        (sent ws) (candlesDb ws) (sessionBoundaryCache ws) in
    outputIf (includes subs "1m") ws1 updated.

(** State of [for (const [timeframe, openCandle] of openCandlesForSymbol)]:
    the entries already visited, what was sent, the boundary cache. *)
Record HigherLoop : Type := mkHigherLoop {
  visited : list (string * Candle);
  loopSent : list Emission;
  loopCache : CandleProcessor.SessionCache
}.

Fixpoint updateHigher (trade : Trade) (instr : string)
    (entries : list (string * Candle)) (st : HigherLoop)
  : HigherLoop * list (string * Candle) * option Err :=
  match entries with
  | [] => (st, [], None)
  | (tf, openCandle) :: rest =>
      if String.eqb tf "1m"
      then updateHigher trade instr rest
             (mkHigherLoop (visited st ++ [(tf, openCandle)]) (loopSent st)
                (loopCache st))
      else
        match Utils.parseTimeframeMs tf with
        | Throw e => (st, entries, Some e)
        | Ok intervalMs =>
            if timestamp openCandle + intervalMs <=? tradeTimestamp trade then
              let closed := setClosed openCandle in
              match CandleProcessor.needsSessionAlignment tf with
              | Throw e =>
                  (mkHigherLoop (visited st) (loopSent st ++ [EmitBar closed])
                     (loopCache st),
                   (tf, closed) :: rest, Some e)
              | Ok useSessionAlignment =>
                  let '(newStart, cache') :=
                    CandleProcessor.baseTimeOf host useSessionAlignment
                      intervalMs (loopCache st) (tradeTimestamp trade) in
                  let fresh := seededBy trade newStart instr tf in
                  updateHigher trade instr rest
                    (mkHigherLoop (visited st ++ [(tf, fresh)])
                       (loopSent st ++ [EmitBar closed; EmitBar fresh]) cache')
              end
            else
              let updated := foldTrade openCandle trade in
              updateHigher trade instr rest
                (mkHigherLoop (visited st ++ [(tf, updated)])
                   (loopSent st ++ [EmitBar updated]) (loopCache st))
        end
  end.

(** [processTradeForClient(trade)]: the session afterwards and the
    exception, if one is thrown. *)
Definition processTradeForClient (ws : Session) (trade : Trade)
  : Session * option Err :=
  if negb (isLiveActive ws) then (ws, None)
  else if isProcessingTimeframeChange ws
  then (withQueue ws (tradeQueue ws ++ [trade]), None)
  else
    let instr := tradeInstrument trade in
    match mapGet (activeSubscriptions ws) instr with
    | None => (ws, None)
    | Some subs =>
        let late :=
          match mapGet next1mStarts instr with
          | Some next1mStart => tradeTimestamp trade <? next1mStart
          | None => false
          end in
        if late then (ws, None)
        else
          match mapGet (open1mCandles ws) instr with
          | None => (ws, Some (TypeError "open1mCandle is undefined"))
          | Some open1mCandle =>
              let ws1 := update1m ws trade instr subs open1mCandle in
              match mapGet (openCandles ws1) instr with
              | None => (ws1, None)
              | Some openCandlesForSymbol =>
                  let '(st, unvisited, err) :=
                    updateHigher trade instr openCandlesForSymbol
                      (mkHigherLoop [] (sent ws1) (sessionBoundaryCache ws1)) in
                  (mkSession (activeSubscriptions ws1) (isLiveActive ws1)
                     (isProcessingTimeframeChange ws1) (tradeQueue ws1)
                     (open1mCandles ws1)
                     (mapSet (openCandles ws1) instr (visited st ++ unvisited))
                     (loopSent st) (candlesDb ws1) (loopCache st),
                   err)
              end
          end
    end.

(** *** Adding a timeframe while live *)

(** The identifiers [handleAddTimeframe] can see: its own parameters and
    locals, and the top-level bindings of data-handlers.js. *)
Definition handleAddTimeframeScope : list string :=
  ["db"; "ws"; "request"; "instrument"; "timeframe"; "startMs"; "endMs";
   "settings"; "candles1m"; "aggregatedCandles"; "openCandlesForSymbol";
   "lastAggregatedCandle"; "intervalMs"; "currentTime"; "liveCandle";
   "open1mCandle"; "queuedTrade";
   "fs"; "path"; "DEFAULT_DATA_RANGE_MINUTES"; "DEFAULT_TIMEZONE";
   "EARLY_CANDLE_CUSHION_MINUTES"; "LATE_CANDLE_CUSHION_MINUTES";
   "fetchHistorical1mCandles"; "fetchLive1mCandles";
   "startLiveTradesSubscription"; "getCached1mCandles"; "batchInsertCandles";
   "aggregateCandles"; "handleGetData"; "handleAddTimeframe";
   "handleRemoveTimeframe"; "handleStopData"]%string.

(** A call [name(trade)] made inside [handleAddTimeframe]: the name is
    resolved first, and an unresolvable name throws. *)
Definition callInScope (scope : list string) (name : string)
    (f : Session -> Trade -> Session * option Err) (ws : Session)
    (trade : Trade) : Session * option Err :=
  if includes scope name then f ws trade
  else (ws, Some (ReferenceError name)).

(** [while (ws.tradeQueue.length > 0) { const queuedTrade =
    ws.tradeQueue.shift(); processTradeForClient(queuedTrade); }] *)
Fixpoint drainTradeQueue (fuel : nat) (ws : Session) : Session * option Err :=
  match fuel with
  | O => (ws, None)
  | S fuel' =>
      match tradeQueue ws with
      | [] => (ws, None)
      | queuedTrade :: rest =>
          match callInScope handleAddTimeframeScope "processTradeForClient"
                  processTradeForClient (withQueue ws rest) queuedTrade with
          | (ws', None) => drainTradeQueue fuel' ws'
          | thrown => thrown
          end
      end
  end.

(** The flag is raised before the live bars are awaited ... *)
Definition beginTimeframeChange (ws : Session) : Session :=
  withChangeFlag ws true.

(** ... and lowered at the end of [handleAddTimeframe], just before the
    queue is drained.  One iteration takes at least one trade off the
    queue, so its length bounds the number of iterations. *)
Definition finishTimeframeChange (ws : Session) : Session * option Err :=
  let ws1 := withChangeFlag ws false in
  drainTradeQueue (length (tradeQueue ws1)) ws1.

End Updater.

(** *** The subscription table *)

(** The names a plain object inherits from [Object.prototype].  The table
    starts as [{}], so a lookup under one of them finds a function (under
    [__proto__] the prototype itself) where another name finds
    [undefined]. *)
Definition objectPrototypeNames : list string :=
  ["constructor"; "__defineGetter__"; "__defineSetter__"; "hasOwnProperty";
   "__lookupGetter__"; "__lookupSetter__"; "isPrototypeOf";
   "propertyIsEnumerable"; "toString"; "valueOf"; "__proto__";
   "toLocaleString"]%string.

(** What [ws.activeSubscriptions[instrument]] evaluates to. *)
Inductive Property : Type :=
| OwnList (timeframes : list string)
| Inherited
| Undefined.

Definition property (subs : list (string * list string))
    (instrument : string) : Property :=
  match mapGet subs instrument with
  | Some tfs => OwnList tfs
  | None =>
      if includes objectPrototypeNames instrument then Inherited
      else Undefined
  end.

(** The body of [subscriptions.forEach] that fills
    [ws.activeSubscriptions] (and, with the same text in [handleGetReplay],
    [ws.activeReplaySubscriptions]) from one pair of instrument and
    timeframe, both strings.  An inherited property is truthy, so no list is
    created for it, and it has no [includes] method: the call throws. *)
Definition subscribe (subs : list (string * list string))
    (sub : string * string) : Result (list (string * list string)) :=
  let '(instrument, timeframe) := sub in
  let subs1 :=
    match property subs instrument with
    | Undefined => mapSet subs instrument []
    | _ => subs
    end in
  match property subs1 instrument with
  | OwnList tfs =>
      if includes tfs timeframe then Ok subs1
      else Ok (mapSet subs1 instrument (tfs ++ [timeframe]))
  | _ =>
      Throw (TypeError
               "ws.activeSubscriptions[instrument].includes is not a function")
  end.

(** [subscriptions.forEach(sub => ...)] on the table built so far: the
    table when the loop ends, and the exception that ended it early. *)
Fixpoint subscribeAll (subs : list (string * list string))
    (subscriptions : list (string * string))
  : list (string * list string) * option Err :=
  match subscriptions with
  | [] => (subs, None)
  | sub :: rest =>
      match subscribe subs sub with
      | Ok subs1 => subscribeAll subs1 rest
      | Throw e => (subs, Some e)
      end
  end.

(** [ws.activeSubscriptions = {}; subscriptions.forEach(...)] *)
Definition setUpSubscriptions (subscriptions : list (string * string))
  : list (string * list string) * option Err :=
  subscribeAll [] subscriptions.

(** *** Removing a timeframe while live *)

(** [ws.send(JSON.stringify({ mtyp, message }))] *)
Definition send (ws : Session) (e : Emission) : Session :=
  mkSession (activeSubscriptions ws) (isLiveActive ws)
    (isProcessingTimeframeChange ws) (tradeQueue ws) (open1mCandles ws)
    (openCandles ws) (sent ws ++ [e]) (candlesDb ws)
    (sessionBoundaryCache ws).

(** [!v] for a request field that is absent or holds a string. *)
Definition missing (v : option string) : bool :=
  match v with
  | Some s => String.eqb s ""
  | None => true
  end.

(** [l.splice(l.indexOf(s), 1)] when [s] is in [l]. *)
Fixpoint removeFirst (l : list string) (s : string) : list string :=
  match l with
  | [] => []
  | x :: r => if String.eqb x s then r else x :: removeFirst r s
  end.

(** [m.delete(k)] on a [Map]; its keys are unique. *)
Definition mapDelete {V : Type} (m : list (string * V)) (k : string)
  : list (string * V) :=
  List.filter (fun kv => negb (String.eqb (fst kv) k)) m.

(** [handleRemoveTimeframe(ws, request)] for a request whose [instrument]
    and [timeframe] are strings or absent. *)
Definition handleRemoveTimeframe (ws : Session)
    (instrument timeframe : option string) : Session :=
  if negb (isLiveActive ws)
  then send ws (EmitError
                  "Cannot remove timeframe: no active live data subscription")
  else if missing instrument || missing timeframe
  then send ws (EmitError "Missing instrument or timeframe")
  else
    let i := default ""%string instrument in
    let tf := default ""%string timeframe in
    match mapGet (activeSubscriptions ws) i with
    | None => send ws (EmitError ("Instrument " +:+ i +:+ " not subscribed"))
    | Some tfs =>
        if negb (includes tfs tf)
        then send ws (EmitCtrl ("Timeframe " +:+ tf +:+ " for " +:+ i
                                +:+ " not being sent"))
        else
          let subs' := mapSet (activeSubscriptions ws) i (removeFirst tfs tf) in
          let open' :=
            match mapGet (openCandles ws) i with
            | Some openCandlesForSymbol =>
                mapSet (openCandles ws) i (mapDelete openCandlesForSymbol tf)
            | None => openCandles ws
            end in
          send (mkSession subs' (isLiveActive ws)
                  (isProcessingTimeframeChange ws) (tradeQueue ws)
                  (open1mCandles ws) open' (sent ws) (candlesDb ws)
                  (sessionBoundaryCache ws))
            (EmitCtrl ("Stopped streaming " +:+ tf +:+ " for " +:+ i))
    end.

(** *** Stopping the live stream *)



End DataHandlers.

(** ** lib/handlers/replay-handlers.js: the replay tick *)

Module ReplayHandlers.

Import DataHandlers.

(** One entry of [ws.replayData]; the entries are kept in the order the
    [for ... in] loop visits them. *)
Record ReplaySymbol : Type := mkReplaySymbol {
  replayCandles : list Candle;
  currentIndex : nat;
  openAggregateCandles : list (string * option Candle)
}.

(** The replay fields of the connection object in the live phase of a
    replay, the session-boundary cache of the process, and what has been
    sent.  [handleGetReplay] assigns [ws.replayCurrentTime] and
    [ws.replayLiveEndMs] right before it installs its timer, and nothing
    unsets them: on a connection that has been through this they are
    numbers.  A connection where they may still be unset is a
    [Timer.Connection] below.  [replayTimerArmed] tells whether the interval
    behind [ws.replayInterval] is still scheduled. *)
Record Replay : Type := mkReplay {
  activeReplaySubscriptions : list (string * list string);
  replayData : list (string * ReplaySymbol);
  replayCurrentTime : Z;
  replayLiveEndMs : Z;
  replayIsActive : bool;
  replayIsPaused : bool;
  replayTimerArmed : bool;
  replaySent : list Emission;
  replayBoundaryCache : CandleProcessor.SessionCache
}.

Definition MAX_SAFE_INTEGER : Z := 9007199254740991.

(** State of the loop over the symbols. *)
Record TickLoop : Type := mkTickLoop {
  tickData : list (string * ReplaySymbol);
  anyActive : bool;
  nextCandleTime : Z;
  tickSent : list Emission;
  tickCache : CandleProcessor.SessionCache
}.

Section Tick.

Variable host : Z.

(** The loop over the higher timeframes of a symbol for the bar that is
    due: the aggregates afterwards, what was sent, the boundary cache. *)
Fixpoint feedAggregates (symbol : string) (currentCandle : Candle)
    (timeframes : list string) (aggs : list (string * option Candle))
    (out : list Emission) (cache : CandleProcessor.SessionCache)
  : Result (list (string * option Candle) * list Emission
            * CandleProcessor.SessionCache) :=
  match timeframes with
  | [] => Ok (aggs, out, cache)
  | tf :: rest =>
      if String.eqb tf "1m"
      then feedAggregates symbol currentCandle rest aggs out cache
      else
        intervalMs ← Utils.parseTimeframeMs tf;
        useSessionAlignment ← CandleProcessor.needsSessionAlignment tf;
        let '(baseTime, cache') :=
          CandleProcessor.baseTimeOf host useSessionAlignment intervalMs cache
            (timestamp currentCandle) in
        let started :=
          mkCandle baseTime (open currentCandle) (high currentCandle)
            (low currentCandle) (close currentCandle) (volume currentCandle)
            symbol tf SrcT false in
        let openCandle :=
          match mapGet aggs tf with
          | Some (Some oc) =>
              if negb (timestamp oc =? baseTime) then started
              else mkCandle (timestamp oc) (open oc)
                     (Math_max (high oc) (high currentCandle))
                     (Math_min (low oc) (low currentCandle))
                     (close currentCandle)
                     (volume oc + volume currentCandle)
                     (instrument oc) (timeframe oc) (source oc) (isClosed oc)
          | _ => started
          end in
        let isLastCandleInInterval :=
          timestamp currentCandle =? baseTime + intervalMs - 60000 in
        let openCandle' :=
          if isLastCandleInInterval then setClosed openCandle else openCandle in
        let aggs' :=
          mapSet aggs tf (if isClosed openCandle' then None else Some openCandle') in
        feedAggregates symbol currentCandle rest aggs'
          (out ++ [EmitBar openCandle']) cache'
  end.

(** The body of [for (const symbol in ws.replayData)] for one symbol. *)
Definition tickSymbol (subscriptions : list (string * list string)) (T : Z)
    (st : TickLoop) (entry : string * ReplaySymbol) : Result TickLoop :=
  let '(symbol, data) := entry in
  match replayCandles data !! currentIndex data with
  | None =>
      Ok (mkTickLoop (tickData st ++ [entry]) (anyActive st)
            (nextCandleTime st) (tickSent st) (tickCache st))
  | Some currentCandle =>
      if timestamp currentCandle <=? T then
        match mapGet subscriptions symbol with
        | None => Throw (TypeError "activeReplaySubscriptions[symbol] is undefined")
        | Some timeframes =>
            let out1 :=
              if includes timeframes "1m"
              then tickSent st ++
                   [EmitBar (mkCandle (timestamp currentCandle)
                               (open currentCandle) (high currentCandle)
                               (low currentCandle) (close currentCandle)
                               (volume currentCandle) (instrument currentCandle)
                               (timeframe currentCandle) SrcT true)]
              else tickSent st in
            '(aggs, out, cache) ←
              feedAggregates symbol currentCandle timeframes
                (openAggregateCandles data) out1 (tickCache st);
            Ok (mkTickLoop
                  (tickData st ++
                   [(symbol, mkReplaySymbol (replayCandles data)
                               (S (currentIndex data)) aggs)])
                  true (nextCandleTime st) out cache)
        end
      else
        Ok (mkTickLoop (tickData st ++ [entry]) (anyActive st)
              (Z.min (nextCandleTime st) (timestamp currentCandle))
              (tickSent st) (tickCache st))
  end.

Fixpoint tickSymbols (subscriptions : list (string * list string)) (T : Z)
    (entries : list (string * ReplaySymbol)) (st : TickLoop)
  : Result TickLoop :=
  match entries with
  | [] => Ok st
  | entry :: rest =>
      st' ← tickSymbol subscriptions T st entry;
      tickSymbols subscriptions T rest st'
  end.

(** One firing of the interval callback installed by [handleGetReplay] (and,
    with the same body, by [handleModifyReplay]) on a connection in its live
    phase. *)
Definition tick (ws : Replay) : Result Replay :=
  if negb (replayIsActive ws) then
    Ok (mkReplay (activeReplaySubscriptions ws) (replayData ws)
          (replayCurrentTime ws) (replayLiveEndMs ws) (replayIsActive ws)
          (replayIsPaused ws) false (replaySent ws) (replayBoundaryCache ws))
  else if replayIsPaused ws then Ok ws
  else
    st ← tickSymbols (activeReplaySubscriptions ws) (replayCurrentTime ws)
           (replayData ws)
           (mkTickLoop [] false MAX_SAFE_INTEGER (replaySent ws)
              (replayBoundaryCache ws));
    let T' :=
      if negb (anyActive st)
         && (replayCurrentTime ws <? replayLiveEndMs ws)
         && (nextCandleTime st <? MAX_SAFE_INTEGER)
      then nextCandleTime st
      else replayCurrentTime ws + 60000 in
    if replayLiveEndMs ws <? T' then
      Ok (mkReplay (activeReplaySubscriptions ws) (tickData st) T'
            (replayLiveEndMs ws) false (replayIsPaused ws) false
            (tickSent st ++ [EmitCtrl "Replay completed"]) (tickCache st))
    else
      Ok (mkReplay (activeReplaySubscriptions ws) (tickData st) T'
            (replayLiveEndMs ws) (replayIsActive ws) (replayIsPaused ws)
            (replayTimerArmed ws) (tickSent st) (tickCache st)).

End Tick.

(** *** The timer on any connection *)

Module Timer.

(** [ws.replayCurrentTime] and [ws.replayLiveEndMs] as the callback may find
    them.  [handleGetReplay] sets [ws.replayIsActive] before it knows
    whether there is a live phase, and assigns the two only when there is
    one; the timer [handleModifyReplay] installs on an active replay can
    therefore run while they are [undefined], and [undefined + 60000] is
    NaN. *)
Inductive Clock : Type :=
| ClockUndefined
| ClockNaN
| ClockAt (t : Z).

(** [timestamp <= clock]: false unless the clock is a number. *)
Definition notAfter (timestamp : Z) (clock : Clock) : bool :=
  match clock with
  | ClockAt t => timestamp <=? t
  | _ => false
  end.

(** [a < b] (and [b > a]): false unless both are numbers. *)
Definition before (a b : Clock) : bool :=
  match a, b with
  | ClockAt x, ClockAt y => x <? y
  | _, _ => false
  end.

(** [clock += 60000] *)
Definition plusMinute (clock : Clock) : Clock :=
  match clock with
  | ClockAt t => ClockAt (t + 60000)
  | _ => ClockNaN
  end.

Record Connection : Type := mkConnection {
  activeReplaySubscriptions : list (string * list string);
  replayData : list (string * ReplaySymbol);
  replayCurrentTime : Clock;
  replayLiveEndMs : Clock;
  replayIsActive : bool;
  replayIsPaused : bool;
  replayTimerArmed : bool;
  replaySent : list Emission;
  replayBoundaryCache : CandleProcessor.SessionCache
}.

Section Callback.

Variable host : Z.

(** The body of [for (const symbol in ws.replayData)] for one symbol. *)
Definition tickSymbol (subscriptions : list (string * list string))
    (clock : Clock) (st : TickLoop) (entry : string * ReplaySymbol)
  : Result TickLoop :=
  let '(symbol, data) := entry in
  match replayCandles data !! currentIndex data with
  | None =>
      Ok (mkTickLoop (tickData st ++ [entry]) (anyActive st)
            (nextCandleTime st) (tickSent st) (tickCache st))
  | Some currentCandle =>
      if notAfter (timestamp currentCandle) clock then
        match mapGet subscriptions symbol with
        | None => Throw (TypeError "activeReplaySubscriptions[symbol] is undefined")
        | Some timeframes =>
            let out1 :=
              if includes timeframes "1m"
              then tickSent st ++
                   [EmitBar (mkCandle (timestamp currentCandle)
                               (open currentCandle) (high currentCandle)
                               (low currentCandle) (close currentCandle)
                               (volume currentCandle) (instrument currentCandle)
                               (timeframe currentCandle) SrcT true)]
              else tickSent st in
            '(aggs, out, cache) ←
              feedAggregates host symbol currentCandle timeframes
                (openAggregateCandles data) out1 (tickCache st);
            Ok (mkTickLoop
                  (tickData st ++
                   [(symbol, mkReplaySymbol (replayCandles data)
                               (S (currentIndex data)) aggs)])
                  true (nextCandleTime st) out cache)
        end
      else
        Ok (mkTickLoop (tickData st ++ [entry]) (anyActive st)
              (Z.min (nextCandleTime st) (timestamp currentCandle))
              (tickSent st) (tickCache st))
  end.

Fixpoint tickSymbols (subscriptions : list (string * list string))
    (clock : Clock) (entries : list (string * ReplaySymbol)) (st : TickLoop)
  : Result TickLoop :=
  match entries with
  | [] => Ok st
  | entry :: rest =>
      st' ← tickSymbol subscriptions clock st entry;
      tickSymbols subscriptions clock rest st'
  end.

(** One firing of the interval callback, as installed by [handleGetReplay]
    and, with the same body, by [handleModifyReplay]. *)
Definition tick (ws : Connection) : Result Connection :=
  if negb (replayIsActive ws) then
    Ok (mkConnection (activeReplaySubscriptions ws) (replayData ws)
          (replayCurrentTime ws) (replayLiveEndMs ws) (replayIsActive ws)
          (replayIsPaused ws) false (replaySent ws) (replayBoundaryCache ws))
  else if replayIsPaused ws then Ok ws
  else
    st ← tickSymbols (activeReplaySubscriptions ws) (replayCurrentTime ws)
           (replayData ws)
           (mkTickLoop [] false MAX_SAFE_INTEGER (replaySent ws)
              (replayBoundaryCache ws));
    let clock' :=
      if negb (anyActive st)
         && before (replayCurrentTime ws) (replayLiveEndMs ws)
         && (nextCandleTime st <? MAX_SAFE_INTEGER)
      then ClockAt (nextCandleTime st)
      else plusMinute (replayCurrentTime ws) in
    if before (replayLiveEndMs ws) clock' then
      Ok (mkConnection (activeReplaySubscriptions ws) (tickData st) clock'
            (replayLiveEndMs ws) false (replayIsPaused ws) false
            (tickSent st ++ [EmitCtrl "Replay completed"]) (tickCache st))
    else
      Ok (mkConnection (activeReplaySubscriptions ws) (tickData st) clock'
            (replayLiveEndMs ws) (replayIsActive ws) (replayIsPaused ws)
            (replayTimerArmed ws) (tickSent st) (tickCache st)).

End Callback.

End Timer.

(** A connection in its live phase, as a connection of the timer. *)
Definition liveConnection (ws : Replay) : Timer.Connection :=
  Timer.mkConnection (activeReplaySubscriptions ws) (replayData ws)
    (Timer.ClockAt (replayCurrentTime ws)) (Timer.ClockAt (replayLiveEndMs ws))
    (replayIsActive ws) (replayIsPaused ws) (replayTimerArmed ws)
    (replaySent ws) (replayBoundaryCache ws).

(** *** The history sent before the replay starts *)

Section History.

Variable host : Z.

(** State of the loop of [aggregateReplayCandles]. *)
Record ReplayAggState : Type := mkReplayAggState {
  replayAggCache : CandleProcessor.SessionCache;
  replayAggResult : list Candle;
  replayAggCurrent : option Candle
}.

(** One iteration of [for (const candle1m of candles1m)].  The bars carry
    no [source] here; the field holds the tag ['A'] that [handleGetReplay],
    the only caller, sets when it sends them. *)
Definition replayAggStep (instr tf : string) (useSessionAlignment : bool)
    (intervalMs start end_ : Z) (st : ReplayAggState) (candle1m : Candle)
  : ReplayAggState :=
  if (timestamp candle1m <? start) || (end_ <? timestamp candle1m) then st
  else
    let '(baseTime, cache') :=
      CandleProcessor.baseTimeOf host useSessionAlignment intervalMs
        (replayAggCache st) (timestamp candle1m) in
    let fresh :=
      mkCandle baseTime (open candle1m) (high candle1m) (low candle1m)
        (close candle1m) (volume candle1m) instr tf SrcA false in
    match replayAggCurrent st with
    | None => mkReplayAggState cache' (replayAggResult st) (Some fresh)
    | Some cur =>
        if negb (baseTime =? timestamp cur)
        then mkReplayAggState cache' (replayAggResult st ++ [setClosed cur])
               (Some fresh)
        else mkReplayAggState cache' (replayAggResult st)
               (Some (mkCandle (timestamp cur) (open cur)
                        (Math_max (high cur) (high candle1m))
                        (Math_min (low cur) (low candle1m))
                        (close candle1m)
                        (volume cur + volume candle1m)
                        (instrument cur) (timeframe cur) (source cur)
                        (isClosed cur)))
    end.

Definition aggregateReplayCandles (cache : CandleProcessor.SessionCache)
    (instr tf : string) (start end_ : Z) (candles1m : list Candle)
  : Result (list Candle * CandleProcessor.SessionCache) :=
  if String.eqb tf "1m"
  then mret (List.filter (inRange start end_) candles1m, cache)
  else
    intervalMs ← Utils.parseTimeframeMs tf;
    useSessionAlignment ← CandleProcessor.needsSessionAlignment tf;
    let st :=
      fold_left (replayAggStep instr tf useSessionAlignment intervalMs
                   start end_)
        (sortByTimestamp candles1m)
        (mkReplayAggState cache [] None) in
    mret (match replayAggCurrent st with
          | Some cur => replayAggResult st ++ [setClosed cur]
          | None => replayAggResult st
          end,
          replayAggCache st).

(** [candles1m.filter(c => c.timestamp < liveStartMs)]: the bars sent as
    history. *)
Definition historyCandles (candles1m : list Candle) (liveStartMs : Z)
  : list Candle :=
  List.filter (fun c => timestamp c <? liveStartMs) candles1m.

(** [candles1m.findIndex(c => c.timestamp >= liveStartMs)], and the length
    of the array when there is no such bar: where the replay starts. *)
Fixpoint liveStartIndex (candles1m : list Candle) (liveStartMs : Z) : nat :=
  match candles1m with
  | [] => O
  | c :: r =>
      if liveStartMs <=? timestamp c then O
      else S (liveStartIndex r liveStartMs)
  end.

End History.

(** *** Stopping and modifying a replay *)

(** [ws.send(JSON.stringify({ mtyp, message }))] on a replay. *)
Definition replaySend (ws : Replay) (e : Emission) : Replay :=
  mkReplay (activeReplaySubscriptions ws) (replayData ws)
    (replayCurrentTime ws) (replayLiveEndMs ws) (replayIsActive ws)
    (replayIsPaused ws) (replayTimerArmed ws) (replaySent ws ++ [e])
    (replayBoundaryCache ws).

Definition withPaused (ws : Replay) (b : bool) : Replay :=
  mkReplay (activeReplaySubscriptions ws) (replayData ws)
    (replayCurrentTime ws) (replayLiveEndMs ws) (replayIsActive ws) b
    (replayTimerArmed ws) (replaySent ws) (replayBoundaryCache ws).

(** [handleStopReplay(ws)]; the log stream of the replay is left out. *)
Definition handleStopReplay (ws : Replay) : Replay :=
  if negb (replayIsActive ws)
  then replaySend ws (EmitCtrl "No active replay to stop")
  else
    replaySend
      (mkReplay (activeReplaySubscriptions ws) (replayData ws)
         (replayCurrentTime ws) (replayLiveEndMs ws) false (replayIsPaused ws)
         false (replaySent ws) (replayBoundaryCache ws))
      (EmitCtrl "Replay stopped").

(** The text of a whole number of milliseconds in a template literal. *)
Definition showMs (ms : Z) : string :=
  NilEmpty.string_of_uint (Nat.to_uint (Z.to_nat ms)).

(** [handleModifyReplay(ws, request)] for a request whose [pause] is absent
    or a boolean and whose [replay_interval] is absent or a whole number.
    [replayIntervalMs] is [ws.replayIntervalMs]; its value afterwards is the
    second component.  The connection is in its live phase; the callback of
    the new interval has the body of [tick] (of [Timer.tick] on any
    connection). *)
Definition handleModifyReplay (ws : Replay) (replayIntervalMs : Z)
    (pause : option bool) (replay_interval : option Z) : Replay * Z :=
  if negb (replayIsActive ws)
  then (replaySend ws (EmitError "No active replay to modify"),
        replayIntervalMs)
  else
    let ws1 :=
      match pause with
      | None => ws
      | Some true =>
          if negb (replayIsPaused ws)
          then replaySend (withPaused ws true) (EmitCtrl "Replay paused")
          else replaySend ws (EmitCtrl "Replay already paused")
      | Some false =>
          if replayIsPaused ws
          then replaySend (withPaused ws false) (EmitCtrl "Replay resumed")
          else replaySend ws (EmitCtrl "Replay already running")
      end in
    match replay_interval with
    | None => (ws1, replayIntervalMs)
    | Some ms =>
        if 0 <? ms then
          if negb (ms =? replayIntervalMs) then
            (replaySend
               (mkReplay (activeReplaySubscriptions ws1) (replayData ws1)
                  (replayCurrentTime ws1) (replayLiveEndMs ws1)
                  (replayIsActive ws1) (replayIsPaused ws1) true
                  (replaySent ws1) (replayBoundaryCache ws1))
               (EmitCtrl ("Replay interval changed to " +:+ showMs ms
                          +:+ "ms")),
             ms)
          else
            (replaySend ws1
               (EmitCtrl ("Replay interval already set to " +:+ showMs ms
                          +:+ "ms")),
             replayIntervalMs)
        else (ws1, replayIntervalMs)
    end.

End ReplayHandlers.

(** ** lib/data-fetcher.js: the live channel and its start-time correction *)

Module DataFetcher.

(** A record of the live stream once the handshake has succeeded, as the
    data handler classifies it.  [InvalidStartTime mustBe] is an error
    record (rtype 21) whose text starts with "Invalid start time.";
    [mustBe] is the time read from "Must be X or later", when the text has
    that form. *)
Inductive VendorMessage : Type :=
| InvalidStartTime (mustBe : option Z)
| OhlcvBar (candle : Candle)
| TradeRecord (trade : Trade)
| Heartbeat
| OtherControl.

(** How a connection ends when the vendor has sent all its records. *)
Inductive StreamEnd : Type :=
| GoesIdle
| ClosesChannel
| SocketError.

Record VendorSession : Type := mkVendorSession {
  messages : list VendorMessage;
  ending : StreamEnd
}.

(** The vendor: what it sends on the connection opened by the call with a
    given retry count and start time. *)
Abbreviation Vendor := (nat -> Z -> VendorSession).

(** State of the promise a fetcher returns. *)
Inductive Settled (A : Type) : Type :=
| Resolved (a : A)
| Rejected (e : Err)
| Pending.

Arguments Resolved {A} a.
Arguments Rejected {A} e.
Arguments Pending {A}.

(** What happens on the network, in order. *)
Inductive NetEvent : Type :=
| Connected (start : Z)
| Destroyed
| Delivered (trade : Trade).

(** The variables the data handler of [fetchLive1mCandles] can see, and
    those the data handler of [startLiveTradesSubscription] can see. *)
Definition fetchLive1mCandlesScope : list string :=
  ["settings"; "instruments"; "startMs"; "endMs"; "retryCount";
   "updateClientRef"; "liveHost"; "livePort"; "livePortNum"; "resolve";
   "reject"; "liveClient"; "buffer"; "versionReceived"; "cramReceived";
   "subscribed"; "liveCandles"; "inactivityTimer"; "isHandlingError";
   "data"; "lines"; "line"; "msg"; "match"; "suggestedStartTime";
   "newStartMs"; "axios"; "net"; "crypto"; "fetchHistorical1mCandles";
   "startLiveTradesSubscription"; "fetchLive1mCandles"]%string.

Definition startLiveTradesSubscriptionScope : list string :=
  ["settings"; "instruments"; "startTs"; "onTrade"; "retryCount";
   "updateClientRef"; "liveHost"; "livePort"; "livePortNum"; "liveClient";
   "buffer"; "versionReceived"; "cramReceived"; "subscribed";
   "instrumentIdToSymbol"; "resolve"; "reject"; "isHandlingError";
   "data"; "lines"; "line"; "msg"; "match"; "suggestedStartTime";
   "newStartMs"; "axios"; "net"; "crypto"; "fetchHistorical1mCandles";
   "startLiveTradesSubscription"; "fetchLive1mCandles"]%string.

Inductive Reaction : Type :=
| DestroyAndRetry (newStartMs : Z)
| RejectWith (e : Err)
| StuckHandlingError (logged : Err).

(** The handler of an "Invalid start time." record; its text is the same in
    both functions.  After setting [isHandlingError] it reads
    [inactivityTimer]; a [ReferenceError] there is caught by the enclosing
    [try] and logged, which leaves [isHandlingError] set: every later
    record, error and close event is then skipped. *)
Definition onInvalidStartTime (scope : list string) (mustBe : option Z)
  : Reaction :=
  match mustBe with
  | Some newStartMs =>
      if DataHandlers.includes scope "inactivityTimer"
      then DestroyAndRetry newStartMs
      else StuckHandlingError (ReferenceError "inactivityTimer")
  | None => RejectWith (Error "Could not extract suggested start time")
  end.

(** What one connection comes to. *)
Inductive Attempt (A : Type) : Type :=
| EndOfStream (collected : A)
| Reacts (r : Reaction).

Arguments EndOfStream {A} collected.
Arguments Reacts {A} r.

(** The live-bar data handler over the records of one connection, for a
    vendor that sends each record in a chunk of its own.  Within one chunk
    the handler goes on with the records after an error record, returns at
    the first bar out of range, and leaves the promise to whichever of the
    inactivity timer and the retry settles it first; chunks of several
    records are not modelled. *)
Fixpoint collectBars (startMs endMs : Z) (msgs : list VendorMessage)
    (liveCandles : list Candle) : Attempt (list Candle) :=
  match msgs with
  | [] => EndOfStream liveCandles
  | InvalidStartTime mustBe :: _ =>
      Reacts (onInvalidStartTime fetchLive1mCandlesScope mustBe)
  | OhlcvBar candle :: rest =>
      if (timestamp candle <? startMs) || (endMs <? timestamp candle)
      then collectBars startMs endMs rest liveCandles
      else collectBars startMs endMs rest (liveCandles ++ [candle])
  | _ :: rest => collectBars startMs endMs rest liveCandles
  end.

(** The live-trade data handler over the records of one connection. *)
Fixpoint relayTrades (msgs : list VendorMessage) (delivered : list NetEvent)
  : Attempt unit * list NetEvent :=
  match msgs with
  | [] => (EndOfStream tt, delivered)
  | InvalidStartTime mustBe :: _ =>
      (Reacts (onInvalidStartTime startLiveTradesSubscriptionScope mustBe),
       delivered)
  | TradeRecord trade :: rest => relayTrades rest (delivered ++ [Delivered trade])
  | _ :: rest => relayTrades rest delivered
  end.

Definition tooManyCandleRetries : Err :=
  Error "Exceeded maximum retry attempts for fetching live candles".

Definition tooManyTradeRetries : Err :=
  Error "Exceeded maximum retry attempts for live trades subscription".

(** [fetchLive1mCandles(settings, instruments, startMs, endMs, retryCount)]:
    the promise and the network events, appended to [log]. *)
Function fetchLive1mCandles (vendor : Vendor) (startMs endMs : Z)
    (retryCount : nat) (log : list NetEvent)
    {measure (fun r => (4 - r)%nat) retryCount}
  : Settled (list Candle) * list NetEvent :=
  match (3 <? retryCount)%nat with
  | true => (Rejected tooManyCandleRetries, log)
  | false =>
      let session := vendor retryCount startMs in
      let log1 := log ++ [Connected startMs] in
      match collectBars startMs endMs (messages session) [] with
      | Reacts (DestroyAndRetry newStartMs) =>
          fetchLive1mCandles vendor newStartMs endMs (S retryCount)
            (log1 ++ [Destroyed])
      | Reacts (RejectWith e) => (Rejected e, log1)
      | Reacts (StuckHandlingError _) => (Pending, log1)
      | EndOfStream liveCandles =>
          match ending session with
          | GoesIdle => (Resolved liveCandles, log1 ++ [Destroyed])
          | ClosesChannel => (Resolved liveCandles, log1)
          | SocketError => (Rejected (Error "socket error"), log1)
          end
      end
  end.
Proof.
  intros. apply Nat.ltb_ge in teq. lia.
Defined.

(** [startLiveTradesSubscription(settings, instruments, startTs, onTrade,
    retryCount)].  The promise is settled by the close or the error of the
    channel only. *)
Function startLiveTradesSubscription (vendor : Vendor) (startTs : Z)
    (retryCount : nat) (log : list NetEvent)
    {measure (fun r => (4 - r)%nat) retryCount}
  : Settled unit * list NetEvent :=
  match (3 <? retryCount)%nat with
  | true => (Rejected tooManyTradeRetries, log)
  | false =>
      let session := vendor retryCount startTs in
      let log1 := log ++ [Connected startTs] in
      match relayTrades (messages session) log1 with
      | (Reacts (DestroyAndRetry newStartMs), log2) =>
          startLiveTradesSubscription vendor newStartMs (S retryCount)
            (log2 ++ [Destroyed])
      | (Reacts (RejectWith e), log2) => (Rejected e, log2)
      | (Reacts (StuckHandlingError _), log2) => (Pending, log2)
      | (EndOfStream _, log2) =>
          match ending session with
          | GoesIdle => (Pending, log2)
          | ClosesChannel => (Resolved tt, log2)
          | SocketError => (Rejected (Error "socket error"), log2)
          end
      end
  end.
Proof.
  intros. apply Nat.ltb_ge in teq. lia.
Defined.

(** *** The historical endpoint *)

(** One line of the body of a successful answer, after [JSON.parse]:
    [hd.ts_event] in nanoseconds, the prices in the vendor's units, and
    [volume], which may be absent. *)
Record RawBar : Type := mkRawBar {
  ts_event : Z;
  rawOpen : Z;
  rawHigh : Z;
  rawLow : Z;
  rawClose : Z;
  rawVolume : option Z
}.

(** The [end] parameter of a request: the requested end, cut to the minute,
    or the [available_end] the vendor named. *)
Inductive EndParam : Type :=
| EndOfRange (endMs : Z)
| AvailableEnd (available_end : string).

(** What [axios.post] comes to: a body of lines, one record each (no line
    when it is empty or blank), status 422 with
    [detail.payload.available_end] when the answer has one, or any other
    failure. *)
Inductive HttpAnswer : Type :=
| Body (lines : list RawBar)
| Unprocessable (available_end : option string)
| Failure (e : Err).

(** The vendor's historical endpoint: the answer to the request number
    [attempt] for a symbol, a start and an end. *)
Abbreviation Endpoint := (nat -> string -> Z -> EndParam -> HttpAnswer).

Definition status422 : Err := Error "Request failed with status code 422".

Definition failedAfterRetrying : Err :=
  Error "Failed to fetch historical data after retrying".

(** The object literal built from a line. *)
Definition candleOfRaw (instrument : string) (raw : RawBar) : Candle :=
  mkCandle (ts_event raw / 1000000) (Some (rawOpen raw)) (Some (rawHigh raw))
    (Some (rawLow raw)) (Some (rawClose raw)) (default 0 (rawVolume raw))
    instrument "1m" SrcH true.

Definition trimIsNotAFunction : Err :=
  TypeError "response.data.trim is not a function".

(** What the [try] block makes of [response.data].  axios hands a body on
    as a string unless it parses as one JSON text, which a body of exactly
    one record does: [response.data] is then an object, and
    [response.data.trim()] throws a TypeError, which the [catch] rethrows
    as it has no [response]. *)
Definition candlesOfBody (instrument : string) (lines : list RawBar)
  : Result (list Candle) :=
  match lines with
  | [] => Ok []
  | [_] => Throw trimIsNotAFunction
  | _ => Ok (map (candleOfRaw instrument) lines)
  end.

(** The loop [while (attempt < 2)] of [fetchHistorical1mCandles]: the result
    and the [end] parameters of the requests posted, appended to [posts]. *)
Function historicalLoop (endpoint : Endpoint) (instrument : string)
    (startMs : Z) (end_ : EndParam) (attempt : nat) (posts : list EndParam)
    {measure (fun a => (2 - a)%nat) attempt}
  : Result (list Candle) * list EndParam :=
  match (attempt <? 2)%nat with
  | false => (Throw failedAfterRetrying, posts)
  | true =>
      let posts1 := posts ++ [end_] in
      match endpoint attempt instrument startMs end_ with
      | Body lines => (candlesOfBody instrument lines, posts1)
      | Unprocessable available_end =>
          match (attempt =? 0)%nat with
          | true =>
              match available_end with
              | Some availableEnd =>
                  historicalLoop endpoint instrument startMs
                    (AvailableEnd availableEnd) (S attempt) posts1
              | None => (Throw status422, posts1)
              end
          | false => (Throw status422, posts1)
          end
      | Failure e => (Throw e, posts1)
      end
  end.
Proof.
  intros. apply Nat.ltb_lt in teq. lia.
Defined.

(** [fetchHistorical1mCandles(settings, instrument, startMs, endMs)] *)
Definition fetchHistorical1mCandles (endpoint : Endpoint)
    (instrument : string) (startMs endMs : Z)
  : Result (list Candle) * list EndParam :=
  historicalLoop endpoint instrument startMs (EndOfRange endMs) 0 [].

End DataFetcher.

(** * Vocabulary of the properties *)

Import CandleProcessor.
Import CacheHandlers.
Import DataHandlers.
Import ReplayHandlers.
Import DataFetcher.

(** ** Aggregation *)

(** The input bars of the bucket [[B, B + I)]. *)
Definition inBucket (I B : Z) (c : Candle) : bool :=
  (B <=? timestamp c) && (timestamp c <? B + I).

Definition bucket (I B : Z) (l : list Candle) : list Candle :=
  List.filter (inBucket I B) l.

Definition sumZ (l : list Z) : Z := fold_right Z.add 0 l.

(** The object literal that opens a bar, and the update of an open bar. *)
Definition freshBar (instr tf : string) (B : Z) (x : Candle) : Candle :=
  mkCandle B (open x) (high x) (low x) (close x) (volume x) instr tf SrcA false.

Definition foldBar (cur x : Candle) : Candle :=
  mkCandle (timestamp cur) (open cur)
    (Math_max (high cur) (high x)) (Math_min (low cur) (low x))
    (close x) (volume cur + volume x)
    (instrument cur) (timeframe cur) (source cur) false.

Definition barOf (instr tf : string) (B : Z) (b : list Candle) : option Candle :=
  match b with
  | [] => None
  | x :: xs => Some (fold_left foldBar xs (freshBar instr tf B x))
  end.

Definition sortedTs (l : list Candle) : Prop :=
  StronglySorted (fun a b => timestamp a <= timestamp b) l.

(** A 1-minute series without gaps from [a] on: bar [i] is at
    [a + i * 60000]. *)
Definition gapFree (a : Z) (l : list Candle) : Prop :=
  forall i c, l !! i = Some c -> timestamp c = a + 60000 * Z.of_nat i.

(** [r] is the pushed form of the bar that summarises one whole bucket of
    the bars [p] read so far. *)
Definition closedOut (I : Z) (maxTs : option Z) (instr tf : string)
    (p : list Candle) (r : Candle) : Prop :=
  exists B raw,
    B mod I = 0 /\
    barOf instr tf B (bucket I B p) = Some raw /\
    r = finishCandle I maxTs raw (map timestamp (bucket I B p)).

(** Loop invariant of the clock-aligned aggregation after the bars [p]. *)
Definition aggInv (I : Z) (maxTs : option Z) (instr tf : string)
    (cache0 : SessionCache) (p : list Candle) (st : AggState) : Prop :=
  aggCache st = cache0 /\
  match currentCandle st with
  | None => p = [] /\ aggResult st = []
  | Some cur =>
      timestamp cur mod I = 0 /\
      barOf instr tf (timestamp cur) (bucket I (timestamp cur) p) = Some cur /\
      currentCandleTimestamps st = map timestamp (bucket I (timestamp cur) p) /\
      Forall (fun c => timestamp c < timestamp cur + I) p /\
      Forall (fun r => closedOut I maxTs instr tf p r /\
                       timestamp r + I <= timestamp cur)
        (aggResult st)
  end.

Definition clockAligned (I : Z) : Prop := I <= 3600000 \/ 86400000 < I.

(** Bar number [i] of a gap-free series that starts at [a]; prices drift
    with [i] so that bars can be told apart. *)
Definition sampleBar (a : Z) (i : nat) : Candle :=
  let k := Z.of_nat i in
  mkCandle (a + 60000 * k) (Some (1000 + k)) (Some (1010 + k))
    (Some (990 + k)) (Some (1005 + k)) 1 "ES" "1m" SrcH true.

Definition sampleSeries (a : Z) (n : nat) : list Candle :=
  map (sampleBar a) (seq 0 n).

Definition resultBars (r : Result (list Candle * SessionCache))
  : option (list Candle) :=
  match r with
  | Ok (bars, _) => Some bars
  | Throw _ => None
  end.

(** 2024-06-09 09:00 UTC, a 5-minute boundary. *)
Definition t0900 : Z := 1717923600000.

(** 18:00 America/New_York on 2024-06-09, i.e. 22:00 UTC. *)
Definition session0609 : Z := 1717970400000.

Definition fiveMinuteBar : Candle :=
  mkCandle t0900 (Some 1000) (Some 1013) (Some 990) (Some 1008) 4
    "ES" "5m" SrcA false.

(** Five hours of bars from 14:00 ET on 2024-06-10 (20 hours into the
    session), aggregated to 5h: the bucket that starts there ends at the
    session boundary, four hours later. *)
Definition lateSession : Z := session0609 + 20 * 3600000.

Definition cutBar : Candle :=
  mkCandle lateSession (Some 1000) (Some 1249) (Some 990) (Some 1244) 240
    "ES" "5h" SrcA false.

Definition nextSessionBar : Candle :=
  mkCandle (session0609 + 24 * 3600000) (Some 1240) (Some 1309) (Some 1230)
    (Some 1304) 60 "ES" "5h" SrcA false.

(** ** Session alignment *)

(** The specification's words: the instant of 18:00 America/New_York on an
    Eastern calendar day, and the most recent such instant at or before
    [t].  The zone changes its offset at 06:00 or 07:00 UTC, so the offset in
    force at 18:00 local is the one in force at 23:00 UTC of that day. *)
Definition eastern1800 (day : Z) : Z :=
  let naive := day * Platform.msPerDay + 18 * Platform.msPerHour in
  naive - Platform.easternOffsetMs (naive + 5 * Platform.msPerHour).

Definition specSessionStart (t : Z) : Z :=
  let day := (t + Platform.easternOffsetMs t) / Platform.msPerDay in
  if eastern1800 day <=? t then eastern1800 day else eastern1800 (day - 1).

Definition specBucket (t I : Z) : Z :=
  let S := specSessionStart t in S + (t - S) / I * I.

(** 2024-06-10 02:00 UTC (22:00 ET on June 9) and 2024-06-10 23:00 UTC
    (19:00 ET on June 10): one UTC day, two Eastern days. *)
Definition lateEvening0609 : Z := 1717984800000.
Definition evening0610 : Z := 1718060400000.

(** 2024-03-10 16:00 UTC, noon ET on the day daylight time begins. *)
Definition noonSpringForward : Z := 1710086400000.

(** ** The bar cache *)

(** A bar that is not a null bar. *)
Definition nonNull (c : Candle) : Prop := 0 < volume c /\ numeric c.

Definition nonNullRow (row : Db.Row) : Prop :=
  0 < Db.rowVolume row /\ is_Some (Db.rowOpen row) /\ is_Some (Db.rowHigh row)
  /\ is_Some (Db.rowLow row) /\ is_Some (Db.rowClose row).

(** The two operations of the engine that change the CANDLES table. *)
Inductive CacheOp : Type :=
| OpInsert (candles : list Candle) (instr tf : string) (finalizeErr : bool)
| OpClear (request : ClearCacheRequest) (runErr : bool).

Abbreviation SqlVerdict :=
  (string -> JsValue -> string * string * Z -> Db.Row -> bool).

Definition applyOp (holds : SqlVerdict) (db : Db.Candles) (op : CacheOp)
  : Db.Candles :=
  match op with
  | OpInsert candles instr tf e => Db.batchInsertCandles db candles instr tf e
  | OpClear request e => fst (handleClearCache holds db request e)
  end.

(** A null bar, as the open 1-minute candle is before its first trade. *)
(** A bar of ES at 09:00 with one contract traded and no usable open: the
    vendor's record had no [open] field, and [Number(undefined) / 1e9] is
    NaN. *)
Definition nanBar : Db.JsBar :=
  Db.mkJsBar t0900 Db.PriceNaN (Db.PriceOf 1010) (Db.PriceOf 990)
    (Db.PriceOf 1005) 1 "ES" "1m".

Definition nullBar : Candle :=
  mkCandle (t0900 + 120000) None None None None 0 "ES" "1m" SrcT true.

Definition absentOrAll (v : JsValue) : Prop :=
  v = JsUndefined \/ v = JsString "all".

Definition noCondition (c : string) (p : JsValue) (k : string * string * Z)
    (row : Db.Row) : bool := false.

Definition twoBars : Db.Candles :=
  Db.batchInsertCandles ∅ [sampleBar t0900 0; sampleBar t0900 1] "ES" "1m" false.

(** ** Acquisition *)

Definition isEarliest (l : list Candle) (t : Z) : Prop :=
  (exists c, c ∈ l /\ timestamp c = t) /\ forall c, c ∈ l -> t <= timestamp c.

Definition isLatest (l : list Candle) (t : Z) : Prop :=
  (exists c, c ∈ l /\ timestamp c = t) /\ forall c, c ∈ l -> timestamp c <= t.

Definition threeDaysMs : Z := 3 * 24 * 60 * 60 * 1000.
Definition threeHoursMs : Z := 3 * 60 * 60 * 1000.

Definition earlyCalls (startMs earliest : Z) : list Upstream :=
  if (startMs <? earliest) && negb (earliest - startMs <=? threeDaysMs)
  then [HistoricalEarly startMs (earliest - 60000)] else [].

Definition lateCalls (endMs : Z) (end_time : JsValue) (latest : Z)
  : list Upstream :=
  if (latest <? endMs)
     && (negb (endIsNow end_time) || negb (endMs - latest <=? threeHoursMs))
  then [HistoricalLate (latest + 60000) endMs] else [].

(** Fetchers of a vendor that has nothing to deliver. *)
Definition noHistory (symbol : string) (startMs endMs : Z)
  : Result (list Candle) := Ok [].

Definition noLiveBars (symbols : list string) (startMs endMs : Z)
  : Result (list Candle) := Ok [].

(** A database whose inserts never fail. *)
Definition insertsSucceed (call : Upstream) : bool := false.

Definition cachedBar (i : nat) : Candle :=
  let b := sampleBar t0900 i in
  mkCandle (timestamp b) (open b) (high b) (low b) (close b) (volume b)
    "ES" "1m" SrcC true.

(** ** The live session *)

(** A live session on ES, 1-minute bars only, whose first open candle
    starts at 09:00. *)
Definition liveSession : Session :=
  mkSession [("ES", ["1m"])]%string true false []
    [("ES"%string, emptyCandle t0900 "ES" "1m")]
    [("ES"%string, [("1m"%string, emptyCandle t0900 "ES" "1m")])]
    [] ∅ ∅.

Definition liveStarts : list (string * Z) := [("ES"%string, t0900)].

Definition tradeAt (offsetMs p s : Z) : Trade :=
  mkTrade (t0900 + offsetMs) p s "B" "ES".

(** The vendor stream delivering trades one after the other. *)
Fixpoint deliver (host : Z) (next1mStarts : list (string * Z)) (ws : Session)
    (trades : list Trade) : Session * option Err :=
  match trades with
  | [] => (ws, None)
  | t :: rest =>
      match processTradeForClient host next1mStarts ws t with
      | (ws', None) => deliver host next1mStarts ws' rest
      | thrown => thrown
      end
  end.

(** ** Replay *)

(** The next unsent bar of an instrument and the bars it has left. *)
Definition nextBar (d : ReplaySymbol) : option Candle :=
  replayCandles d !! currentIndex d.

Definition remaining (d : ReplaySymbol) : list Candle :=
  drop (currentIndex d) (replayCandles d).

(** Some instrument has a bar due at the virtual time. *)
Definition dueBar (ws : Replay) : Prop :=
  exists sym d c,
    (sym, d) ∈ replayData ws /\ nextBar d = Some c /\
    timestamp c <= replayCurrentTime ws.

(** [c] is an unsent bar after the virtual time and not after live_end. *)
Definition futureBar (ws : Replay) (c : Candle) : Prop :=
  exists sym d,
    (sym, d) ∈ replayData ws /\ c ∈ remaining d /\
    replayCurrentTime ws < timestamp c /\ timestamp c <= replayLiveEndMs ws.

Definition earliestFutureBar (ws : Replay) (t : Z) : Prop :=
  (exists c, futureBar ws c /\ timestamp c = t) /\
  forall c, futureBar ws c -> t <= timestamp c.

Definition parses (tf : string) : Prop :=
  exists I, Utils.parseTimeframeMs tf = Ok I.

(** The replay data as [handleGetReplay] prepares it: every instrument has
    its subscription list, with timeframes that parse, and a sorted series
    acquired over a range that ends at live_end. *)
Definition replayReady (ws : Replay) : Prop :=
  replayLiveEndMs ws < MAX_SAFE_INTEGER /\
  forall sym d, (sym, d) ∈ replayData ws ->
    sortedTs (replayCandles d) /\
    Forall (fun c => timestamp c <= replayLiveEndMs ws) (replayCandles d) /\
    exists tfs, mapGet (activeReplaySubscriptions ws) sym = Some tfs /\
                Forall parses tfs.

Definition dueNow (T : Z) (d : ReplaySymbol) : bool :=
  match nextBar d with
  | Some c => timestamp c <=? T
  | None => false
  end.

Definition stepNext (T : Z) (acc : Z) (d : ReplaySymbol) : Z :=
  match nextBar d with
  | Some c => if timestamp c <=? T then acc else Z.min acc (timestamp c)
  | None => acc
  end.

(** A replay of ES on 1m and 5m: bars at 09:00, 09:01 and, after a gap, at
    09:10; the first two are sent, the virtual time is 09:02 and live_end
    is 09:15. *)
Definition gapSeries : list Candle :=
  [sampleBar t0900 0; sampleBar t0900 1; sampleBar t0900 10].

Definition gapAggregate : Candle :=
  mkCandle t0900 (Some 1000) (Some 1011) (Some 990) (Some 1006) 2
    "ES" "5m" SrcT false.

Definition gapReplay : Replay :=
  mkReplay [("ES", ["1m"; "5m"])]%string
    [("ES"%string,
      mkReplaySymbol gapSeries 2 [("5m"%string, Some gapAggregate)])]
    (t0900 + 120000) (t0900 + 900000) true false true [] ∅.

(** ** The live channel *)

(** 2024-06-10 12:00 UTC, the start the vendor asks for, and a vendor that
    rejects any other start and otherwise sends one bar, or one trade. *)
Definition correctedStart : Z := 1718020800000.

Definition correctedBar : Candle :=
  mkCandle correctedStart (Some 1000) (Some 1010) (Some 990) (Some 1005) 7
    "ES" "1m" SrcL true.

Definition strictVendor : Vendor := fun _ start =>
  if start =? correctedStart
  then mkVendorSession
         [OhlcvBar correctedBar; TradeRecord (mkTrade correctedStart 1000 1 "B" "ES")]
         GoesIdle
  else mkVendorSession [InvalidStartTime (Some correctedStart)] GoesIdle.

(** ** Timeframe strings and the session memo *)

(** [String(n)] for a natural number: its decimal digits. *)
Definition decimal (n : nat) : string :=
  NilEmpty.string_of_uint (Nat.to_uint n).

(** The boundary cache after the calls [getSessionStartUTC(t)] for the [t] of
    [calls], in order. *)
Definition afterCalls (host : Z) (cache : SessionCache) (calls : list Z)
  : SessionCache :=
  fold_left (fun c t => snd (getSessionStartUTC host c t)) calls cache.

(** ** The aggregation loops *)

(** After the bars [p]: the volumes of the pushed bars and of the open one
    add up to those read, and every bar made so far starts within
    [[start, end_]]. *)
Definition volumeInv (start end_ : Z) (p : list Candle) (st : AggState)
  : Prop :=
  sumZ (map volume (aggResult st))
  + match currentCandle st with Some cur => volume cur | None => 0 end
  = sumZ (map volume p) /\
  Forall (fun r => inRange start end_ r = true) (aggResult st) /\
  match currentCandle st with
  | Some cur => inRange start end_ cur = true
  | None => True
  end.

(** Bucket starts that are multiples of [I], each at least [I] after the
    one before. *)
Definition spaced (I : Z) (starts : list Z) : Prop :=
  StronglySorted (fun a b => a + I <= b) starts /\
  Forall (fun a => a mod I = 0) starts.

(** Loop invariant of the clock-aligned aggregation, on the bucket starts. *)
Definition spacedInv (I : Z) (cache0 : SessionCache) (p : list Candle)
    (st : AggState) : Prop :=
  aggCache st = cache0 /\
  match currentCandle st with
  | None => aggResult st = []
  | Some cur =>
      (exists y, y ∈ p /\ timestamp cur <= timestamp y) /\
      spaced I (map timestamp (aggResult st) ++ [timestamp cur])
  end.

(** The two aggregation loops in step: same cache, same open bar, and the
    replay has pushed the bars the live path pushed, each marked closed. *)
Definition inStep (a : AggState) (r : ReplayAggState) : Prop :=
  replayAggCache r = aggCache a /\
  replayAggResult r = map setClosed (aggResult a) /\
  replayAggCurrent r = currentCandle a /\
  match currentCandle a with
  | Some cur => isClosed cur = false
  | None => True
  end.

(** ** The bar cache, key by key *)

(** What a run of upserts leaves under the key [k], given what was there. *)
Definition written (k : string * string * Z) (acc : option Db.Row)
    (c : Candle) : option Db.Row :=
  if bool_decide (Db.keyOf c = k) then Some (Db.rowOf c) else acc.

(** ** Subscriptions and runs of trades *)

(** What [subscribe] keeps true of the table built so far from the pairs
    [seen]. *)
Definition subscriptionsOf (seen : list (string * string))
    (subs : list (string * list string)) : Prop :=
  forall instrument,
    match mapGet subs instrument with
    | Some tfs =>
        NoDup tfs /\ tfs <> [] /\
        forall tf, tf ∈ tfs <-> (instrument, tf) ∈ seen
    | None => forall tf, (instrument, tf) ∉ seen
    end.

(** A pair of a request whose instrument is not named like a property of
    [Object.prototype]. *)
Definition plainName (sub : string * string) : Prop :=
  includes objectPrototypeNames (fst sub) = false.

(** The session after the trades of [trades] have been handed to
    [processTradeForClient] one by one; an exception thrown for one trade is
    caught by the caller and does not stop the later ones. *)
Definition afterTrades (host : Z) (next1mStarts : list (string * Z))
    (ws : Session) (trades : list Trade) : Session :=
  fold_left (fun w t => fst (processTradeForClient host next1mStarts w t))
    trades ws.


(** The trade [x] arrives in order after the trades of [run]: no earlier
    trade of its instrument is stamped later.  Trade timestamps do not
    decrease within a session. *)
Definition inOrder (run : list Trade) (x : Trade) : Prop :=
  Forall (fun t => tradeInstrument t = tradeInstrument x ->
                   tradeTimestamp t <= tradeTimestamp x) run.

(** A stream of trades whose timestamps do not decrease. *)
Definition nonDecreasing (trades : list Trade) : Prop :=
  StronglySorted (fun t t' => tradeTimestamp t <= tradeTimestamp t') trades.

(** Every open candle is filed under its own instrument and timeframe. *)
Definition labelled (ws : Session) : Prop :=
  (forall j c, mapGet (open1mCandles ws) j = Some c ->
     instrument c = j /\ timeframe c = "1m"%string) /\
  (forall j ocs, mapGet (openCandles ws) j = Some ocs ->
     Forall (fun kc => instrument (snd kc) = j /\ timeframe (snd kc) = fst kc)
       ocs).

(** Nothing of the session still refers to timeframe [tf] of instrument
    [i]. *)
Definition unsubscribed (i tf : string) (ws : Session) : Prop :=
  (forall tfs, mapGet (activeSubscriptions ws) i = Some tfs -> tf ∉ tfs) /\
  (forall ocs, mapGet (openCandles ws) i = Some ocs -> tf ∉ map fst ocs).

(** A bar of instrument [i] on timeframe [tf], as sent to the client. *)
Definition barOfPair (i tf : string) (e : Emission) : Prop :=
  exists c, e = EmitBar c /\ instrument c = i /\ timeframe c = tf.

Definition filedUnder (j : string) (kc : string * Candle) : Prop :=
  instrument (snd kc) = j /\ timeframe (snd kc) = fst kc.

(** A live session on ES with 1-minute and 5-minute bars, both open
    candles starting at 09:00. *)
Definition liveSession5m : Session :=
  mkSession [("ES", ["1m"; "5m"])]%string true false []
    [("ES"%string, emptyCandle t0900 "ES" "1m")]
    [("ES"%string, [("1m"%string, emptyCandle t0900 "ES" "1m");
                    ("5m"%string, emptyCandle t0900 "ES" "5m")])]
    [] ∅ ∅.

(** Trades at 09:00:05, 09:01:05 and 09:05:10. *)
Definition threeTrades : list Trade :=
  [tradeAt 5000 1000 2; tradeAt 65000 1001 1; tradeAt 310000 1002 3].

(** An open candle of a higher timeframe before and after a trade: it keeps
    its key, and either keeps its start or is the candle the trade opens,
    in a later bucket that holds the trade. *)
Definition rolledBy (trade : Trade) (instr : string)
    (e e' : string * Candle) : Prop :=
  fst e' = fst e /\
  (timestamp (snd e') = timestamp (snd e) \/
   exists I,
     Utils.parseTimeframeMs (fst e) = Ok I /\
     timestamp (snd e) + I <= tradeTimestamp trade /\
     snd e' = seededBy trade (timestamp (snd e')) instr (fst e) /\
     (0 < I ->
      timestamp (snd e) < timestamp (snd e') /\
      timestamp (snd e') <= tradeTimestamp trade < timestamp (snd e') + I)).

(** The open 1-minute candle of every instrument starts at or after the
    instrument's [next1mStart]. *)
Definition guarded (next1mStarts : list (string * Z)) (ws : Session) : Prop :=
  forall j n c,
    mapGet next1mStarts j = Some n ->
    mapGet (open1mCandles ws) j = Some c ->
    n <= timestamp c.

(** ** Runs of ticks *)

(** [n] firings of the interval callback in a row. *)
Fixpoint ticks (host : Z) (n : nat) (ws : Replay) : Result Replay :=
  match n with
  | O => Ok ws
  | S n' => ws' ← tick host ws; ticks host n' ws'
  end.

(** An entry of the replay data after a tick at virtual time [T]: the same
    instrument and series, the index one further when its bar was due. *)
Definition advanced (T : Z) (e e' : string * ReplaySymbol) : Prop :=
  fst e' = fst e /\
  replayCandles (snd e') = replayCandles (snd e) /\
  currentIndex (snd e') =
    (if dueNow T (snd e) then S (currentIndex (snd e))
     else currentIndex (snd e)).

(** ** The replay timer on any connection *)

(** The next unsent bar of some instrument is due at [T]. *)
Definition due (T : Z) (data : list (string * ReplaySymbol)) : Prop :=
  exists sym d c, (sym, d) ∈ data /\ nextBar d = Some c /\ timestamp c <= T.

(** [c] is the next unsent bar of some instrument, and later than [T]. *)
Definition waiting (T : Z) (data : list (string * ReplaySymbol))
    (c : Candle) : Prop :=
  exists sym d, (sym, d) ∈ data /\ nextBar d = Some c /\ T < timestamp c.

Definition earliestWaiting (T : Z) (data : list (string * ReplaySymbol))
    (t : Z) : Prop :=
  (exists c, waiting T data c /\ timestamp c = t) /\
  forall c, waiting T data c -> t <= timestamp c.

(** When the clock jumps: no bar is due, the clock is before live_end, and
    some instrument's next unsent bar is later than the clock (and stamped
    below [Number.MAX_SAFE_INTEGER], the start value of the search). *)
Definition jumps (T E : Z) (data : list (string * ReplaySymbol)) : Prop :=
  ~ due T data /\ T < E /\
  exists c, waiting T data c /\ timestamp c < MAX_SAFE_INTEGER.

(** Every instrument of the replay has its subscription list, with
    timeframes that parse. *)
Definition subscribedReplay (ws : Timer.Connection) : Prop :=
  forall sym d, (sym, d) ∈ Timer.replayData ws ->
    exists tfs,
      mapGet (Timer.activeReplaySubscriptions ws) sym = Some tfs /\
      Forall parses tfs.

(** [c] is an unsent bar of some instrument. *)
Definition unsent (data : list (string * ReplaySymbol)) (c : Candle) : Prop :=
  exists sym d, (sym, d) ∈ data /\ c ∈ remaining d.

(** [gapReplay] with live_end at 09:10, the time of its last bar, and with
    live_end at 09:05, before it. *)
Definition edgeReplay : Replay :=
  mkReplay (activeReplaySubscriptions gapReplay) (replayData gapReplay)
    (t0900 + 120000) (t0900 + 600000) true false true [] ∅.

Definition beyondReplay : Replay :=
  mkReplay (activeReplaySubscriptions gapReplay) (replayData gapReplay)
    (t0900 + 120000) (t0900 + 300000) true false true [] ∅.

(** A clock that is not a number. *)
Definition unset (clock : Timer.Clock) : Prop :=
  clock = Timer.ClockUndefined \/ clock = Timer.ClockNaN.

(** [n] firings of the timer. *)
Fixpoint timerTicks (host : Z) (n : nat) (ws : Timer.Connection)
  : Result Timer.Connection :=
  match n with
  | O => Ok ws
  | S k => ws' ← Timer.tick host ws; timerTicks host k ws'
  end.

(** [gapReplay] one tick later: nothing was due at 09:02, so the clock
    has jumped to the bar at 09:10 and nothing else has changed. *)
Definition gapReplayNext : Replay :=
  mkReplay [("ES", ["1m"; "5m"])]%string
    [("ES"%string,
      mkReplaySymbol gapSeries 2 [("5m"%string, Some gapAggregate)])]
    (t0900 + 600000) (t0900 + 900000) true false true [] ∅.

(** * Properties *)

(** ** Aggregation into clock-aligned buckets *)

Lemma align_iff I B t :
  0 < I -> B mod I = 0 -> (t / I * I = B <-> B <= t < B + I).
Proof.
  intros HI HB.
  pose proof (Z.div_mod t I ltac:(lia)) as Ht.
  pose proof (Z.mod_pos_bound t I HI) as Hr.
  pose proof (Z.div_mod B I ltac:(lia)) as HBd.
  rewrite HB in HBd.
  split; intros H; [lia|].
  assert (t / I = B / I) as -> by nia. lia.
Qed.

Lemma align_mod I t : 0 < I -> (t / I * I) mod I = 0.
Proof. intros HI. apply Z.mod_mul. lia. Qed.

Lemma inBucket_true I B c :
  inBucket I B c = true <-> B <= timestamp c < B + I.
Proof. unfold inBucket. rewrite andb_true_iff, Z.leb_le, Z.ltb_lt. tauto. Qed.

Lemma bucket_app I B l1 l2 : bucket I B (l1 ++ l2) = bucket I B l1 ++ bucket I B l2.
Proof. apply List.filter_app. Qed.

Lemma bucket_elem I B l c :
  c ∈ bucket I B l <-> c ∈ l /\ B <= timestamp c < B + I.
Proof.
  unfold bucket. rewrite !list_elem_of_In, List.filter_In, inBucket_true. tauto.
Qed.

Lemma bucket_nil_of_bound I B l :
  Forall (fun c => timestamp c < B) l -> bucket I B l = [].
Proof.
  induction 1 as [|c l Hc _ IH]; [reflexivity|].
  unfold bucket in *. simpl. rewrite IH.
  destruct (inBucket I B c) eqn:E; [|reflexivity].
  apply inBucket_true in E. lia.
Qed.

Lemma bucket_snoc_out I B l x :
  ~ (B <= timestamp x < B + I) -> bucket I B (l ++ [x]) = bucket I B l.
Proof.
  intros H. rewrite bucket_app. unfold bucket at 2. simpl.
  destruct (inBucket I B x) eqn:E.
  - apply inBucket_true in E. contradiction.
  - apply app_nil_r.
Qed.

Lemma bucket_snoc_in I B l x :
  B <= timestamp x < B + I -> bucket I B (l ++ [x]) = bucket I B l ++ [x].
Proof.
  intros H. rewrite bucket_app. unfold bucket at 2. simpl.
  apply inBucket_true in H. rewrite H. reflexivity.
Qed.

Lemma foldBar_timestamp xs : forall cur,
  timestamp (fold_left foldBar xs cur) = timestamp cur.
Proof. induction xs as [|x xs IH]; intros cur; simpl; [|rewrite IH]; reflexivity. Qed.

Lemma barOf_timestamp instr tf B b raw :
  barOf instr tf B b = Some raw -> timestamp raw = B.
Proof.
  destruct b as [|x xs]; simpl; [discriminate|].
  intros [= <-]. apply foldBar_timestamp.
Qed.

Lemma barOf_snoc instr tf B b x cur :
  barOf instr tf B b = Some cur ->
  barOf instr tf B (b ++ [x]) = Some (foldBar cur x).
Proof.
  destruct b as [|y ys]; simpl; [discriminate|].
  intros [= <-]. rewrite fold_left_app. reflexivity.
Qed.

Section AggregationLoop.

Variables (host I : Z) (maxTs : option Z) (instr tf : string).
Variable cache0 : SessionCache.
Hypothesis I_pos : 0 < I.

Local Abbreviation closedOutHere := (closedOut I maxTs instr tf).
Local Abbreviation aggInvHere := (aggInv I maxTs instr tf cache0).

Lemma closedOut_timestamp p r B raw :
  barOf instr tf B (bucket I B p) = Some raw ->
  r = finishCandle I maxTs raw (map timestamp (bucket I B p)) ->
  timestamp r = B.
Proof. intros Hb ->. simpl. eapply barOf_timestamp, Hb. Qed.

Lemma closedOut_snoc p x r bound :
  closedOutHere p r -> timestamp r + I <= bound -> bound <= timestamp x ->
  closedOutHere (p ++ [x]) r.
Proof.
  intros (B & raw & HB & Hbar & Hr) Hle Hx.
  pose proof (closedOut_timestamp _ _ _ _ Hbar Hr) as Ht.
  exists B, raw. rewrite bucket_snoc_out by lia. auto.
Qed.

Lemma aggInv_init : aggInvHere [] (mkAggState cache0 [] None []).
Proof. repeat split. Qed.

Lemma aggInv_step p x st :
  aggInvHere p st ->
  Forall (fun c => timestamp c <= timestamp x) p ->
  aggInvHere (p ++ [x]) (aggStep host instr tf false I maxTs st x).
Proof.
  intros [Hc Hinv] Hsorted.
  unfold aggStep, baseTimeOf.
  set (B := timestamp x / I * I).
  assert (HBmod : B mod I = 0) by (apply align_mod; exact I_pos).
  assert (HBx : B <= timestamp x < B + I)
    by (apply (align_iff I B (timestamp x) I_pos HBmod); reflexivity).
  destruct (currentCandle st) as [cur|] eqn:Ecur.
  - destruct Hinv as (Hmod & Hbar & Htss & Hlt & Hres).
    assert (Hne : exists c, c ∈ p /\ timestamp cur <= timestamp c).
    { destruct (bucket I (timestamp cur) p) as [|c b] eqn:Eb; [discriminate|].
      exists c. assert (Hin : c ∈ bucket I (timestamp cur) p)
        by (rewrite Eb; left).
      apply bucket_elem in Hin. split; [tauto | lia]. }
    destruct Hne as (c0 & Hc0 & Hc0t).
    assert (Hcx : timestamp cur <= timestamp x).
    { rewrite Forall_forall in Hsorted. specialize (Hsorted _ Hc0). lia. }
    destruct (B =? timestamp cur) eqn:EB; simpl.
    + apply Z.eqb_eq in EB. split; [exact Hc|]. simpl.
      assert (Hin : timestamp cur <= timestamp x < timestamp cur + I) by lia.
      rewrite (bucket_snoc_in _ _ _ _ Hin), map_app. simpl.
      repeat split.
      * exact Hmod.
      * apply barOf_snoc. exact Hbar.
      * rewrite Htss. reflexivity.
      * apply Forall_app. split; [exact Hlt|]. constructor; [lia | constructor].
      * eapply Forall_impl; [exact Hres|]. intros r [Hr1 Hr2]. simpl.
        split; [|exact Hr2].
        eapply closedOut_snoc; [exact Hr1 | exact Hr2 | exact Hcx].
    + apply Z.eqb_neq in EB. split; [exact Hc|]. simpl.
      assert (Hout : timestamp cur + I <= timestamp x).
      { destruct (Z_lt_le_dec (timestamp x) (timestamp cur + I)) as [Hl|Hl];
          [|exact Hl].
        exfalso. apply EB.
        apply (align_iff I (timestamp cur) (timestamp x) I_pos Hmod). lia. }
      assert (HBcur : timestamp cur + I <= B).
      { pose proof (Z.div_mod B I ltac:(lia)) as E1.
        pose proof (Z.div_mod (timestamp cur) I ltac:(lia)) as E2.
        rewrite HBmod in E1. rewrite Hmod in E2.
        assert (timestamp cur / I < B / I) by nia. nia. }
      assert (Hnil : bucket I B p = []).
      { apply bucket_nil_of_bound. eapply Forall_impl; [exact Hlt|].
        intros c Hcl. simpl in Hcl. lia. }
      rewrite (bucket_snoc_in _ _ _ _ HBx), Hnil. simpl.
      repeat split.
      * exact HBmod.
      * apply Forall_app. split.
        -- eapply Forall_impl; [exact Hlt|]. intros c Hcl. simpl in Hcl. lia.
        -- constructor; [lia | constructor].
      * apply Forall_app. split.
        -- eapply Forall_impl; [exact Hres|]. intros r [Hr1 Hr2]. simpl.
           split; [|lia].
           eapply closedOut_snoc; [exact Hr1 | exact Hr2 | exact Hcx].
        -- constructor; [|constructor]. split; [|simpl; lia].
           exists (timestamp cur), cur.
           rewrite bucket_snoc_out by lia.
           rewrite Htss. auto.
  - destruct Hinv as [-> Hres]. simpl. split; [exact Hc|]. simpl.
    unfold bucket. simpl.
    apply inBucket_true in HBx. rewrite HBx. simpl.
    repeat split.
    + exact HBmod.
    + apply inBucket_true in HBx. constructor; [lia | constructor].
    + rewrite Hres. constructor.
Qed.

Lemma aggInv_fold rest : forall p st,
  aggInvHere p st ->
  sortedTs (p ++ rest) ->
  aggInvHere (p ++ rest) (fold_left (aggStep host instr tf false I maxTs) rest st).
Proof.
  induction rest as [|x rest IH]; intros p st Hinv Hs; simpl.
  - rewrite app_nil_r. exact Hinv.
  - replace (p ++ x :: rest) with ((p ++ [x]) ++ rest) in *
      by (rewrite <- app_assoc; reflexivity).
    apply IH; [|exact Hs].
    apply aggInv_step; [exact Hinv|].
    apply StronglySorted_app_1_l in Hs.
    apply StronglySorted_app in Hs. destruct Hs as (Hall & _ & _).
    apply Forall_forall. intros c Hcin. apply Hall; [exact Hcin | left].
Qed.

(** Every bar the loop returns summarises one whole bucket of the input. *)
Lemma aggFlush_closedOut l st :
  aggInvHere l st -> Forall (closedOutHere l) (aggFlush I maxTs st).
Proof.
  intros [_ Hinv]. unfold aggFlush.
  destruct (currentCandle st) as [cur|].
  - destruct Hinv as (Hmod & Hbar & Htss & _ & Hres).
    apply Forall_app. split.
    + eapply Forall_impl; [exact Hres|]. intros r [Hr _]. exact Hr.
    + constructor; [|constructor].
      exists (timestamp cur), cur. rewrite Htss. auto.
  - destruct Hinv as [_ ->]. constructor.
Qed.

End AggregationLoop.

(** *** What an aggregated bar holds *)

Lemma barOf_snoc_inv instr tf B b y raw :
  barOf instr tf B (b ++ [y]) = Some raw ->
  (b = [] /\ raw = freshBar instr tf B y) \/
  (exists raw', barOf instr tf B b = Some raw' /\ raw = foldBar raw' y).
Proof.
  destruct b as [|x xs]; simpl.
  - intros [= <-]. left. auto.
  - rewrite fold_left_app. simpl. intros [= <-]. right. eauto.
Qed.

Lemma barOf_open instr tf B b raw :
  barOf instr tf B b = Some raw ->
  exists x, head b = Some x /\ open raw = open x.
Proof.
  revert raw. induction b as [|y b IH] using rev_ind; intros raw Hb;
    [discriminate|].
  apply barOf_snoc_inv in Hb. destruct Hb as [[-> ->] | (raw' & Hb & ->)].
  - exists y. auto.
  - destruct (IH _ Hb) as (x & Hx & Ho). exists x. split; [|exact Ho].
    destruct b; [discriminate | exact Hx].
Qed.

Lemma barOf_close instr tf B b raw :
  barOf instr tf B b = Some raw ->
  exists y, last b = Some y /\ close raw = close y.
Proof.
  destruct b as [|y b _] using rev_ind; intros Hb; [discriminate|].
  exists y. rewrite last_snoc. split; [reflexivity|].
  apply barOf_snoc_inv in Hb. destruct Hb as [[-> ->] | (raw' & Hb & ->)];
    reflexivity.
Qed.

Lemma barOf_volume instr tf B b raw :
  barOf instr tf B b = Some raw -> volume raw = sumZ (map volume b).
Proof.
  revert raw. induction b as [|y b IH] using rev_ind; intros raw Hb;
    [discriminate|].
  rewrite map_app. unfold sumZ. rewrite fold_right_app. simpl.
  apply barOf_snoc_inv in Hb. destruct Hb as [[-> ->] | (raw' & Hb & ->)].
  - simpl. lia.
  - simpl. rewrite (IH _ Hb). unfold sumZ.
    generalize (map volume b). intros l. induction l as [|v l IHl]; simpl; lia.
Qed.

Lemma barOf_high instr tf B b raw :
  Forall numeric b ->
  barOf instr tf B b = Some raw ->
  exists h, high raw = Some h /\
    (forall c, c ∈ b -> toNumber (high c) <= h) /\
    (exists c, c ∈ b /\ high c = Some h).
Proof.
  revert raw. induction b as [|y b IH] using rev_ind; intros raw Hn Hb;
    [discriminate|].
  apply Forall_app in Hn. destruct Hn as [Hn Hy].
  apply Forall_cons_1 in Hy. destruct Hy as [(_ & [hy Ehy] & _) _].
  apply barOf_snoc_inv in Hb. destruct Hb as [[-> ->] | (raw' & Hb & ->)].
  - exists hy. simpl. split; [exact Ehy|]. split.
    + intros c Hc. apply list_elem_of_singleton in Hc. subst c.
      rewrite Ehy. simpl. lia.
    + exists y. split; [left | exact Ehy].
  - destruct (IH _ Hn Hb) as (h & Eh & Hub & (c0 & Hc0 & Ec0)).
    simpl. unfold Math_max. rewrite Eh, Ehy. simpl.
    exists (Z.max h hy). split; [reflexivity|]. split.
    + intros c Hc. apply elem_of_app in Hc. destruct Hc as [Hc|Hc].
      * specialize (Hub _ Hc). lia.
      * apply list_elem_of_singleton in Hc. subst c. rewrite Ehy. simpl. lia.
    + destruct (Z.max_spec h hy) as [[_ ->] | [_ ->]].
      * exists y. split; [apply elem_of_app; right; left | exact Ehy].
      * exists c0. split; [apply elem_of_app; left; exact Hc0 | exact Ec0].
Qed.

Lemma barOf_low instr tf B b raw :
  Forall numeric b ->
  barOf instr tf B b = Some raw ->
  exists h, low raw = Some h /\
    (forall c, c ∈ b -> h <= toNumber (low c)) /\
    (exists c, c ∈ b /\ low c = Some h).
Proof.
  revert raw. induction b as [|y b IH] using rev_ind; intros raw Hn Hb;
    [discriminate|].
  apply Forall_app in Hn. destruct Hn as [Hn Hy].
  apply Forall_cons_1 in Hy. destruct Hy as [(_ & _ & [hy Ehy] & _) _].
  apply barOf_snoc_inv in Hb. destruct Hb as [[-> ->] | (raw' & Hb & ->)].
  - exists hy. simpl. split; [exact Ehy|]. split.
    + intros c Hc. apply list_elem_of_singleton in Hc. subst c.
      rewrite Ehy. simpl. lia.
    + exists y. split; [left | exact Ehy].
  - destruct (IH _ Hn Hb) as (h & Eh & Hub & (c0 & Hc0 & Ec0)).
    simpl. unfold Math_min. rewrite Eh, Ehy. simpl.
    exists (Z.min h hy). split; [reflexivity|]. split.
    + intros c Hc. apply elem_of_app in Hc. destruct Hc as [Hc|Hc].
      * specialize (Hub _ Hc). lia.
      * apply list_elem_of_singleton in Hc. subst c. rewrite Ehy. simpl. lia.
    + destruct (Z.min_spec h hy) as [[_ ->] | [_ ->]].
      * exists c0. split; [apply elem_of_app; left; exact Hc0 | exact Ec0].
      * exists y. split; [apply elem_of_app; right; left | exact Ehy].
Qed.

(** *** The sort *)

Lemma insertByTimestamp_perm c l : insertByTimestamp c l ≡ₚ c :: l.
Proof.
  induction l as [|x r IH]; simpl; [reflexivity|].
  destruct (timestamp c <=? timestamp x); [reflexivity|].
  rewrite IH. apply Permutation_swap.
Qed.

Lemma sortByTimestamp_perm l : sortByTimestamp l ≡ₚ l.
Proof.
  induction l as [|c r IH]; simpl; [reflexivity|].
  rewrite insertByTimestamp_perm, IH. reflexivity.
Qed.

Lemma insertByTimestamp_sorted c l :
  sortedTs l -> sortedTs (insertByTimestamp c l).
Proof.
  unfold sortedTs. induction 1 as [|x r Hr IH Hx]; simpl.
  - repeat constructor.
  - destruct (timestamp c <=? timestamp x) eqn:E.
    + apply Z.leb_le in E. constructor; [constructor; assumption|].
      constructor; [exact E|].
      eapply Forall_impl; [exact Hx|]. intros y Hy. simpl in Hy. lia.
    + apply Z.leb_gt in E. constructor; [exact IH|].
      rewrite insertByTimestamp_perm. constructor; [lia | exact Hx].
Qed.

Lemma sortByTimestamp_sorted l : sortedTs (sortByTimestamp l).
Proof.
  induction l as [|c r IH]; simpl; [constructor|].
  apply insertByTimestamp_sorted, IH.
Qed.

Lemma sortByTimestamp_id l : sortedTs l -> sortByTimestamp l = l.
Proof.
  unfold sortedTs. induction 1 as [|x r Hr IH Hx]; simpl; [reflexivity|].
  rewrite IH. destruct Hx as [|y r' Hy _]; simpl; [reflexivity|].
  apply Z.leb_le in Hy. rewrite Hy. reflexivity.
Qed.

Lemma sortByTimestamp_elem c l : c ∈ sortByTimestamp l <-> c ∈ l.
Proof. rewrite sortByTimestamp_perm. reflexivity. Qed.

(** *** The latest input timestamp *)

Lemma maxTimestamp_later l bound :
  match maxTimestamp l with
  | Some m => bound <=? m
  | None => false
  end = true <-> exists c, c ∈ l /\ bound <= timestamp c.
Proof.
  induction l as [|c r IH]; simpl.
  - split; [discriminate|]. intros (c & Hc & _). inversion Hc.
  - destruct (maxTimestamp r) as [m|].
    + rewrite Z.leb_le. rewrite Z.leb_le in IH. split.
      * intros H. destruct (Z.max_spec (timestamp c) m) as [[_ E]|[_ E]];
          rewrite E in H.
        -- apply IH in H. destruct H as (c' & Hc' & Hle).
           exists c'. split; [right; exact Hc' | exact Hle].
        -- exists c. split; [left | exact H].
      * intros (c' & Hc' & Hle). apply elem_of_cons in Hc'.
        destruct Hc' as [-> | Hc']; [lia|].
        assert (bound <= m) by (apply IH; eauto). lia.
    + rewrite Z.leb_le. split.
      * intros H. exists c. split; [left | exact H].
      * intros (c' & Hc' & Hle). apply elem_of_cons in Hc'.
        destruct Hc' as [-> | Hc']; [exact Hle|].
        exfalso. assert (false = true) as Hf; [|discriminate].
        apply IH. eauto.
Qed.

(** *** Timeframe strings *)

Lemma digitsValue_nonneg s : forall acc v,
  0 <= acc -> Utils.digitsValue acc s = Some v -> 0 <= v.
Proof.
  induction s as [|c s IH]; simpl; intros acc v Hacc.
  - intros [= <-]. exact Hacc.
  - destruct (Utils.is_digit c) eqn:E; [|discriminate].
    apply IH. unfold Utils.is_digit in E.
    apply andb_true_iff in E. destruct E as [E _].
    apply Nat.leb_le in E. lia.
Qed.

Lemma parseTimeframeMs_minutes tf I :
  Utils.parseTimeframeMs tf = Ok I -> 0 <= I /\ I mod 60000 = 0.
Proof.
  unfold Utils.parseTimeframeMs.
  destruct (rev (list_ascii_of_string tf)) as [|u [|d ds]]; try discriminate.
  destruct (Utils.digitsValue 0 (rev (d :: ds))) as [v|] eqn:Ev;
    [|discriminate].
  apply digitsValue_nonneg in Ev; [|lia].
  unfold Utils.unitMultiplier.
  destruct (Ascii.eqb u "m"); [intros [= <-]; split; [lia|]|].
  { replace (v * (60 * 1000)) with (v * 60000) by lia. apply Z.mod_mul. lia. }
  destruct (Ascii.eqb u "h"); [intros [= <-]; split; [lia|]|].
  { replace (v * (60 * 60 * 1000)) with (v * 60 * 60000) by lia.
    apply Z.mod_mul. lia. }
  destruct (Ascii.eqb u "d"); [intros [= <-]; split; [lia|] | discriminate].
  replace (v * (24 * 60 * 60 * 1000)) with (v * 1440 * 60000) by lia.
  apply Z.mod_mul. lia.
Qed.

(** *** Gap-free series *)

Lemma gapFree_unique a l c c' :
  gapFree a l -> c ∈ l -> c' ∈ l -> timestamp c = timestamp c' -> c = c'.
Proof.
  intros Hg Hc Hc' Ht.
  apply list_elem_of_lookup in Hc. destruct Hc as [i Hi].
  apply list_elem_of_lookup in Hc'. destruct Hc' as [j Hj].
  pose proof (Hg _ _ Hi). pose proof (Hg _ _ Hj).
  assert (i = j) as -> by lia. congruence.
Qed.

Lemma gapFree_step a l c c' :
  gapFree a l -> c ∈ l -> c' ∈ l -> timestamp c <= timestamp c' ->
  timestamp c' < timestamp c + 60000 -> c = c'.
Proof.
  intros Hg Hc Hc' H1 H2.
  apply list_elem_of_lookup in Hc. destruct Hc as [i Hi].
  apply list_elem_of_lookup in Hc'. destruct Hc' as [j Hj].
  pose proof (Hg _ _ Hi). pose proof (Hg _ _ Hj).
  assert (i = j) as -> by lia. congruence.
Qed.

Lemma gapFree_sorted l : forall a, gapFree a l -> sortedTs l.
Proof.
  induction l as [|x l IH]; intros a Hg; [constructor|].
  constructor.
  - apply (IH (a + 60000)). intros i c Hi.
    rewrite (Hg (S i) c Hi). lia.
  - apply Forall_forall. intros c Hc.
    apply list_elem_of_lookup in Hc. destruct Hc as [i Hi].
    rewrite (Hg (S i) c Hi), (Hg 0%nat x eq_refl). lia.
Qed.

Lemma sortedTs_filter f l : sortedTs l -> sortedTs (List.filter f l).
Proof.
  unfold sortedTs. induction 1 as [|x r Hr IH Hx]; simpl; [constructor|].
  destruct (f x); [|exact IH].
  constructor; [exact IH|].
  apply Forall_forall. intros c Hc.
  apply list_elem_of_In, List.filter_In in Hc. destruct Hc as [Hc _].
  rewrite Forall_forall in Hx. apply Hx, list_elem_of_In, Hc.
Qed.

Lemma sortedTs_head b x c :
  sortedTs b -> head b = Some x -> c ∈ b -> timestamp x <= timestamp c.
Proof.
  destruct b as [|x' b]; [discriminate|]. simpl. intros Hs [= ->] Hc.
  apply StronglySorted_cons in Hs. destruct Hs as [Hall _].
  apply elem_of_cons in Hc. destruct Hc as [-> | Hc]; [lia|].
  rewrite Forall_forall in Hall. apply Hall, Hc.
Qed.

Lemma sortedTs_last b y c :
  sortedTs b -> last b = Some y -> c ∈ b -> timestamp c <= timestamp y.
Proof.
  destruct b as [|y' b _] using rev_ind; [discriminate|].
  rewrite last_snoc. intros Hs [= ->] Hc.
  apply elem_of_app in Hc. destruct Hc as [Hc | Hc].
  - apply StronglySorted_app in Hs. destruct Hs as (Hall & _ & _).
    apply Hall; [exact Hc | left].
  - apply list_elem_of_singleton in Hc. subst c. lia.
Qed.

(** *** [aggregateCandles] on a clock-aligned timeframe *)

Lemma needsSessionAlignment_clock tf I :
  Utils.parseTimeframeMs tf = Ok I -> clockAligned I ->
  needsSessionAlignment tf = Ok false.
Proof.
  intros Hp Hc. unfold needsSessionAlignment. rewrite Hp. simpl.
  unfold mret, result_ret. f_equal.
  destruct Hc as [Hc|Hc].
  - replace (60 * 60 * 1000 <? I) with false; [reflexivity|].
    symmetry. apply Z.ltb_ge. lia.
  - replace (I <=? 24 * 60 * 60 * 1000) with false; [apply andb_false_r|].
    symmetry. apply Z.leb_gt. lia.
Qed.

Lemma aggregateCandles_clock host cache instr tf start end_ S I out cache' :
  tf <> "1m"%string ->
  Utils.parseTimeframeMs tf = Ok I -> 0 < I -> clockAligned I ->
  aggregateCandles host cache instr tf start end_ S = Ok (out, cache') ->
  cache' = cache /\
  forall r, r ∈ out ->
    inRange start end_ r = true /\
    closedOut I (maxTimestamp S) instr tf (sortByTimestamp S) r.
Proof.
  intros Hne Hp HI Hc. unfold aggregateCandles.
  apply String.eqb_neq in Hne. rewrite Hne, Hp. simpl.
  rewrite (needsSessionAlignment_clock _ _ Hp Hc). simpl.
  unfold mret, result_ret. intros [= <- <-].
  pose proof (aggInv_fold host I (maxTimestamp S) instr tf cache HI
                (sortByTimestamp S) [] _ (aggInv_init _ _ _ _ _)
                (sortByTimestamp_sorted S)) as Hinv.
  simpl in Hinv. split; [apply Hinv|].
  intros r Hr. apply list_elem_of_In, List.filter_In in Hr.
  destruct Hr as [Hr Hrange]. split; [exact Hrange|].
  pose proof (aggFlush_closedOut _ _ _ _ _ _ _ Hinv) as Hall.
  rewrite Forall_forall in Hall. apply Hall, list_elem_of_In, Hr.
Qed.

Lemma hasLastPossible_iff I B S :
  60000 <= I ->
  existsb (Z.eqb (B + I - 60000))
    (map timestamp (bucket I B (sortByTimestamp S))) = true <->
  exists c, c ∈ S /\ timestamp c = B + I - 60000.
Proof.
  intros HI. rewrite existsb_exists. split.
  - intros (t & Hin & Ht). apply Z.eqb_eq in Ht. subst t.
    apply in_map_iff in Hin. destruct Hin as (c & Hc & Hin).
    apply list_elem_of_In, bucket_elem in Hin. destruct Hin as [Hin _].
    exists c. split; [apply sortByTimestamp_elem, Hin | exact Hc].
  - intros (c & Hc & Ht). exists (B + I - 60000).
    split; [|apply Z.eqb_refl].
    apply in_map_iff. exists c. split; [exact Ht|].
    apply list_elem_of_In, bucket_elem.
    split; [apply sortByTimestamp_elem, Hc | lia].
Qed.

(** C2 (as amended): on a clock-aligned timeframe, a bar returned by
    [aggregateCandles] with start [B] is closed exactly when some input bar
    lies at or after [B + I], or the bucket's last 1-minute slot
    [B + I - 60000] is present in the input.  The input need not be sorted.
    On the pass-through timeframe 1m the input bars are the closed bars the
    fetchers and the cache deliver. *)
Theorem aggregateCandles_isClosed_clock_aligned
    host cache instr tf start end_ S I out cache' :
  Utils.parseTimeframeMs tf = Ok I -> 0 < I -> clockAligned I ->
  (tf = "1m"%string -> Forall (fun c => isClosed c = true) S) ->
  aggregateCandles host cache instr tf start end_ S = Ok (out, cache') ->
  forall r, r ∈ out ->
    (isClosed r = true <->
     (exists c, c ∈ S /\ timestamp r + I <= timestamp c) \/
     (exists c, c ∈ S /\ timestamp c = timestamp r + I - 60000)).
Proof.
  intros Hp HI Hc H1m Hagg r Hr.
  destruct (String.eqb_spec tf "1m") as [E|E].
  - subst tf. specialize (H1m eq_refl).
    assert (I = 60000) as -> by (vm_compute in Hp; congruence).
    unfold aggregateCandles in Hagg. simpl in Hagg.
    unfold mret, result_ret in Hagg. injection Hagg as <- <-.
    apply list_elem_of_In, List.filter_In in Hr. destruct Hr as [Hr _].
    apply list_elem_of_In in Hr.
    rewrite Forall_forall in H1m. rewrite (H1m _ Hr).
    split; [|reflexivity]. intros _. right. exists r. split; [exact Hr | lia].
  - destruct (aggregateCandles_clock _ _ _ _ _ _ _ _ _ _ E Hp HI Hc Hagg)
      as [_ Hout].
    destruct (Hout _ Hr) as [_ (B & raw & HB & Hbar & ->)].
    apply barOf_timestamp in Hbar. simpl. rewrite Hbar.
    destruct (parseTimeframeMs_minutes _ _ Hp) as [_ Hmin].
    assert (H60 : 60000 <= I).
    { pose proof (Z.div_mod I 60000 ltac:(lia)). lia. }
    rewrite orb_true_iff, maxTimestamp_later, (hasLastPossible_iff _ _ _ H60).
    reflexivity.
Qed.

(** C1 (as amended): on a clock-aligned timeframe other than 1m and a
    gap-free 1-minute series, a bar returned by [aggregateCandles] with start
    [B] summarises the input bars of [[B, B + I)]: its open is that of the
    earliest of them (the bar at [B] when the series has one), its close that
    of the latest (the bar at [B + I - 60000] when the series has one), its
    high the largest high, its low the smallest low, its volume the sum of
    their volumes. *)
Theorem aggregateCandles_bucket_clock_aligned
    host cache instr tf start end_ S a I out cache' :
  tf <> "1m"%string ->
  Utils.parseTimeframeMs tf = Ok I -> 0 < I -> clockAligned I ->
  gapFree a S -> Forall numeric S ->
  aggregateCandles host cache instr tf start end_ S = Ok (out, cache') ->
  forall r, r ∈ out ->
    let b := bucket I (timestamp r) S in
    (exists x, head b = Some x /\ open r = open x) /\
    (exists y, last b = Some y /\ close r = close y) /\
    (forall c, c ∈ S -> timestamp c = timestamp r -> open r = open c) /\
    (forall c, c ∈ S -> timestamp c = timestamp r + I - 60000 ->
               close r = close c) /\
    (exists h, high r = Some h /\
       (forall c, c ∈ b -> toNumber (high c) <= h) /\
       (exists c, c ∈ b /\ high c = Some h)) /\
    (exists l, low r = Some l /\
       (forall c, c ∈ b -> l <= toNumber (low c)) /\
       (exists c, c ∈ b /\ low c = Some l)) /\
    volume r = sumZ (map volume b).
Proof.
  intros Hne Hp HI Hc Hgap Hnum Hagg r Hr.
  destruct (aggregateCandles_clock _ _ _ _ _ _ _ _ _ _ Hne Hp HI Hc Hagg)
    as [_ Hout].
  destruct (Hout _ Hr) as [_ (B & raw & HB & Hbar & ->)].
  pose proof (gapFree_sorted _ _ Hgap) as Hsorted.
  rewrite (sortByTimestamp_id _ Hsorted) in Hbar |- *.
  pose proof (barOf_timestamp _ _ _ _ _ Hbar) as Ets.
  simpl. rewrite Ets.
  destruct (parseTimeframeMs_minutes _ _ Hp) as [_ Hmin].
  assert (H60 : 60000 <= I).
  { pose proof (Z.div_mod I 60000 ltac:(lia)). lia. }
  assert (Hbsorted : sortedTs (bucket I B S)) by (apply sortedTs_filter, Hsorted).
  assert (Hbnum : Forall numeric (bucket I B S)).
  { apply Forall_forall. intros c Hcb. apply bucket_elem in Hcb.
    rewrite Forall_forall in Hnum. apply Hnum, Hcb. }
  destruct (barOf_open _ _ _ _ _ Hbar) as (x & Hx & Ho).
  destruct (barOf_close _ _ _ _ _ Hbar) as (y & Hy & Hcl).
  repeat split.
  - exists x. auto.
  - exists y. auto.
  - intros c HcS Hct. rewrite Ho. f_equal.
    assert (Hcb : c ∈ bucket I B S) by (apply bucket_elem; split; [exact HcS | lia]).
    assert (Hxb : x ∈ bucket I B S).
    { destruct (bucket I B S); [discriminate|]. injection Hx as ->. left. }
    pose proof (sortedTs_head _ _ _ Hbsorted Hx Hcb).
    apply bucket_elem in Hxb.
    apply (gapFree_unique a S); [exact Hgap | tauto | exact HcS | lia].
  - intros c HcS Hct. rewrite Hcl. f_equal.
    assert (Hcb : c ∈ bucket I B S) by (apply bucket_elem; split; [exact HcS | lia]).
    assert (Hyb : y ∈ bucket I B S).
    { apply last_Some in Hy. destruct Hy as [b' ->].
      apply elem_of_app. right. left. }
    pose proof (sortedTs_last _ _ _ Hbsorted Hy Hcb).
    apply bucket_elem in Hyb. symmetry.
    apply (gapFree_step a S); [exact Hgap | exact HcS | tauto | lia | lia].
  - exact (barOf_high _ _ _ _ _ Hbnum Hbar).
  - exact (barOf_low _ _ _ _ _ Hbnum Hbar).
  - exact (barOf_volume _ _ _ _ _ Hbar).
Qed.

(** *** Sample series *)

Lemma sampleSeries_gapFree a n : gapFree a (sampleSeries a n).
Proof.
  intros i c Hi. unfold sampleSeries in Hi.
  apply list_lookup_fmap_Some_1 in Hi. destruct Hi as (j & -> & Hj).
  apply lookup_seq in Hj. destruct Hj as [-> _]. reflexivity.
Qed.

Lemma sampleSeries_numeric a n : Forall numeric (sampleSeries a n).
Proof.
  apply Forall_forall. intros c Hc. unfold sampleSeries in Hc.
  apply list_elem_of_fmap in Hc. destruct Hc as (j & -> & _).
  unfold numeric. simpl. eauto 10.
Qed.

Example aggregate_four_minutes :
  resultBars (aggregateCandles 0 ∅ "ES" "5m" t0900 (t0900 + 600000)
                (sampleSeries t0900 4)) = Some [fiveMinuteBar].
Proof. vm_compute. reflexivity. Qed.

Lemma aggregateCandles_bucket_witness :
  let b := bucket 300000 t0900 (sampleSeries t0900 4) in
  (exists x, head b = Some x /\ open fiveMinuteBar = open x) /\
  (exists y, last b = Some y /\ close fiveMinuteBar = close y) /\
  (forall c, c ∈ sampleSeries t0900 4 -> timestamp c = t0900 ->
             open fiveMinuteBar = open c) /\
  (forall c, c ∈ sampleSeries t0900 4 ->
             timestamp c = t0900 + 300000 - 60000 ->
             close fiveMinuteBar = close c) /\
  (exists h, high fiveMinuteBar = Some h /\
     (forall c, c ∈ b -> toNumber (high c) <= h) /\
     (exists c, c ∈ b /\ high c = Some h)) /\
  (exists l, low fiveMinuteBar = Some l /\
     (forall c, c ∈ b -> l <= toNumber (low c)) /\
     (exists c, c ∈ b /\ low c = Some l)) /\
  volume fiveMinuteBar = sumZ (map volume b).
Proof.
  refine (aggregateCandles_bucket_clock_aligned 0 ∅ "ES" "5m" t0900
            (t0900 + 600000) (sampleSeries t0900 4) t0900 300000
            [fiveMinuteBar] ∅ _ _ _ _ _ _ _ fiveMinuteBar _).
  - discriminate.
  - reflexivity.
  - lia.
  - left. lia.
  - apply sampleSeries_gapFree.
  - apply sampleSeries_numeric.
  - vm_compute. reflexivity.
  - left.
Defined.

Lemma aggregateCandles_isClosed_witness :
  isClosed fiveMinuteBar = true <->
  (exists c, c ∈ sampleSeries t0900 4 /\
             timestamp fiveMinuteBar + 300000 <= timestamp c) \/
  (exists c, c ∈ sampleSeries t0900 4 /\
             timestamp c = timestamp fiveMinuteBar + 300000 - 60000).
Proof.
  refine (aggregateCandles_isClosed_clock_aligned 0 ∅ "ES" "5m" t0900
            (t0900 + 600000) (sampleSeries t0900 4) 300000
            [fiveMinuteBar] ∅ _ _ _ _ _ fiveMinuteBar _).
  - reflexivity.
  - lia.
  - left. lia.
  - discriminate.
  - vm_compute. reflexivity.
  - left.
Defined.

(** *** Session-aligned timeframes cut their last bucket at 18:00 ET *)

Example aggregate_five_hours :
  resultBars (aggregateCandles 0 ∅ "ES" "5h" 0 (lateSession + 18000000)
                (sampleSeries lateSession 300)) = Some [cutBar; nextSessionBar].
Proof. vm_compute. reflexivity. Qed.

(** C1, counterexample: the 5h bar that starts at [lateSession] does not
    close on the 1-minute bar at [B + I - 60000], which the series has, and
    its volume is not the sum over [[B, B + I)]. *)
Lemma aggregateCandles_bucket_counterexample :
  let S := sampleSeries lateSession 300 in
  let I := 18000000 in
  gapFree lateSession S /\ sortedTs S /\
  Utils.parseTimeframeMs "5h" = Ok I /\
  resultBars (aggregateCandles 0 ∅ "ES" "5h" 0 (lateSession + I) S)
    = Some [cutBar; nextSessionBar] /\
  (exists c, c ∈ S /\ timestamp c = timestamp cutBar + I - 60000 /\
             close cutBar <> close c) /\
  volume cutBar <> sumZ (map volume (bucket I (timestamp cutBar) S)).
Proof.
  split; [apply sampleSeries_gapFree|].
  split; [eapply gapFree_sorted, sampleSeries_gapFree|].
  split; [reflexivity|].
  split; [vm_compute; reflexivity|].
  split.
  - exists (sampleBar lateSession 299). split; [|split].
    + apply list_elem_of_lookup. exists 299%nat. vm_compute. reflexivity.
    + vm_compute. reflexivity.
    + vm_compute. discriminate.
  - vm_compute. discriminate.
Qed.

(** C2, counterexample: two bars, at 14:00 ET and at 18:59 ET.  The second
    is the last slot [B + I - 60000] of the 5h bucket that starts at the
    first, yet it falls into the next session's bucket and the first bar
    stays open. *)
Lemma aggregateCandles_isClosed_counterexample :
  let S := [sampleBar lateSession 0; sampleBar lateSession 299] in
  let I := 18000000 in
  exists r rest,
    Utils.parseTimeframeMs "5h" = Ok I /\
    resultBars (aggregateCandles 0 ∅ "ES" "5h" 0 (lateSession + I) S)
      = Some (r :: rest) /\
    ~ (isClosed r = true <->
       (exists c, c ∈ S /\ timestamp r + I <= timestamp c) \/
       (exists c, c ∈ S /\ timestamp c = timestamp r + I - 60000)).
Proof.
  eexists _, _. split; [reflexivity|]. split; [vm_compute; reflexivity|].
  intros [_ H].
  assert (false = true) as Hf; [|discriminate].
  apply H. right. exists (sampleBar lateSession 299).
  split; [right; left | vm_compute; reflexivity].
Qed.

(** ** Session alignment *)

Example specSessionStart_evening0610 :
  specSessionStart evening0610 = session0609 + 24 * 3600000.
Proof. vm_compute. reflexivity. Qed.

Example specSessionStart_spring :
  specSessionStart noonSpringForward = 1710025200000.
Proof. vm_compute. reflexivity. Qed.

(** With an empty cache and away from a clock change the code agrees with
    the specification. *)
Example alignment_cold_0610 :
  fst (getSessionBasedAlignment 0 ∅ evening0610 18000000)
  = specBucket evening0610 18000000.
Proof. vm_compute. reflexivity. Qed.

(** C5, the defect: the cache is keyed by the UTC day of the timestamp while
    the cached value is computed from its Eastern calendar day.  After a call
    for 02:00 UTC, a call for 23:00 UTC of the same UTC day returns the
    session start of the previous Eastern day; with an empty cache it
    returns the right one.  The 5h bucket computed from the stale value is
    not the specified one. *)
Theorem getSessionStartUTC_memo_changes_result :
  let warm := snd (getSessionStartUTC 0 ∅ lateEvening0609) in
  fst (getSessionStartUTC 0 ∅ evening0610) = session0609 + 24 * 3600000 /\
  fst (getSessionStartUTC 0 warm evening0610) = session0609 /\
  fst (getSessionBasedAlignment 0 ∅ evening0610 18000000)
    = specBucket evening0610 18000000 /\
  fst (getSessionBasedAlignment 0 warm evening0610 18000000)
    <> specBucket evening0610 18000000.
Proof.
  repeat split; try (vm_compute; reflexivity).
  vm_compute. discriminate.
Qed.

(** A second defect on the same path: the session before today's 18:00 ET
    is taken to start exactly 24 hours earlier, which is off by an hour on
    the two days of the year the zone changes its offset. *)
Lemma getSessionBasedAlignment_spring_forward :
  fst (getSessionBasedAlignment 0 ∅ noonSpringForward 14400000) = 1710079200000 /\
  specBucket noonSpringForward 14400000 = 1710082800000.
Proof. split; vm_compute; reflexivity. Qed.

(** ** The bar cache *)

Lemma isSome_true {A : Type} (o : option A) : Db.isSome o = true <-> is_Some o.
Proof.
  destruct o; simpl; split; eauto; try discriminate.
  intros [x Hx]. discriminate.
Qed.

Lemma isValidCandle_nonNull c : Db.isValidCandle c = true <-> nonNull c.
Proof.
  unfold Db.isValidCandle, nonNull, numeric.
  rewrite !andb_true_iff, Z.ltb_lt, !isSome_true. tauto.
Qed.

Lemma nonNull_row c : nonNull c -> nonNullRow (Db.rowOf c).
Proof. intros [Hv Hn]. split; [exact Hv | exact Hn]. Qed.

Lemma fold_upsert_lookup vs : forall (db : Db.Candles) k row,
  fold_left Db.upsert vs db !! k = Some row ->
  db !! k = Some row \/
  exists c, c ∈ vs /\ Db.keyOf c = k /\ Db.rowOf c = row.
Proof.
  induction vs as [|v vs IH]; intros db k row; simpl; [auto|].
  intros H. apply IH in H. destruct H as [H | (c & Hc & Hk & Hr)].
  - unfold Db.upsert in H. destruct (decide (Db.keyOf v = k)) as [E|E].
    + subst k. rewrite lookup_insert_eq in H. injection H as <-.
      right. exists v. split; [left | auto].
    + rewrite lookup_insert_ne in H by exact E. left. exact H.
  - right. exists c. split; [right; exact Hc | auto].
Qed.

Lemma batchInsertCandles_lookup (db : Db.Candles) candles instr tf e k row :
  Db.batchInsertCandles db candles instr tf e !! k = Some row ->
  db !! k = Some row \/
  exists c, c ∈ candles /\ nonNull c /\ Db.keyOf c = k /\ Db.rowOf c = row.
Proof.
  unfold Db.batchInsertCandles.
  destruct (length (List.filter Db.isValidCandle candles) =? 0)%nat; [auto|].
  destruct e; [auto|].
  intros H. apply fold_upsert_lookup in H.
  destruct H as [H | (c & Hc & Hk & Hr)]; [auto|].
  apply list_elem_of_In, List.filter_In in Hc. destruct Hc as [Hc Hv].
  right. exists c. split; [apply list_elem_of_In, Hc|].
  split; [apply isValidCandle_nonNull, Hv | auto].
Qed.

Lemma batchInsertCandles_inv (db : Db.Candles) candles instr tf e :
  map_Forall (fun _ row => nonNullRow row) db ->
  map_Forall (fun _ row => nonNullRow row)
    (Db.batchInsertCandles db candles instr tf e).
Proof.
  intros Hinv k row H. apply batchInsertCandles_lookup in H.
  destruct H as [H | (c & _ & Hn & _ & <-)].
  - exact (Hinv _ _ H).
  - apply nonNull_row, Hn.
Qed.

Lemma handleClearCache_inv (holds : SqlVerdict) (db : Db.Candles) request e :
  map_Forall (fun _ row => nonNullRow row) db ->
  map_Forall (fun _ row => nonNullRow row)
    (fst (handleClearCache holds db request e)).
Proof.
  intros Hinv. unfold handleClearCache. destruct e; simpl; [exact Hinv|].
  intros k row H. unfold runDelete in H.
  apply map_lookup_filter_Some in H. destruct H as [H _].
  exact (Hinv _ _ H).
Qed.

Lemma applyOps_inv (holds : SqlVerdict) ops : forall db : Db.Candles,
  map_Forall (fun _ row => nonNullRow row) db ->
  map_Forall (fun _ row => nonNullRow row) (fold_left (applyOp holds) ops db).
Proof.
  induction ops as [|op ops IH]; intros db Hinv; simpl; [exact Hinv|].
  apply IH. destruct op; simpl.
  - apply batchInsertCandles_inv, Hinv.
  - apply handleClearCache_inv, Hinv.
Qed.

Lemma getCached1mCandles_nonNull (db : Db.Candles) symbol startMs endMs e c :
  map_Forall (fun _ row => nonNullRow row) db ->
  c ∈ Db.getCached1mCandles db symbol startMs endMs e -> nonNull c.
Proof.
  intros Hinv. unfold Db.getCached1mCandles. destruct e; [inversion 1|].
  rewrite sortByTimestamp_elem. intros Hc.
  apply list_elem_of_fmap in Hc. destruct Hc as ([k row] & -> & Hin).
  apply list_elem_of_In, List.filter_In in Hin. destruct Hin as [Hin _].
  apply list_elem_of_In, elem_of_map_to_list in Hin.
  specialize (Hinv _ _ Hin). destruct k as [[instr tf] ts]. exact Hinv.
Qed.

(** On bars whose prices are numbers or null, [batchInsertCandles] writes a
    row only for a bar of the batch with volume greater than 0 and no null
    OHLC field, and leaves every other row as it was; hence, whatever
    inserts of such bars and cache clearings happen to an initially empty
    CANDLES table, a cache query returns only bars with volume greater than
    0 and non-null open, high, low and close. *)
Lemma batchInsertCandles_skips_null_bars (holds : SqlVerdict) :
  (forall (db : Db.Candles) candles instr tf e k row,
     Db.batchInsertCandles db candles instr tf e !! k = Some row ->
     db !! k = Some row \/
     exists c, c ∈ candles /\ nonNull c /\ Db.keyOf c = k /\ Db.rowOf c = row) /\
  (forall ops symbol startMs endMs e c,
     c ∈ Db.getCached1mCandles (fold_left (applyOp holds) ops ∅)
           symbol startMs endMs e ->
     nonNull c).
Proof.
  split.
  - intros. eapply batchInsertCandles_lookup. eassumption.
  - intros ops symbol startMs endMs e c Hc.
    eapply getCached1mCandles_nonNull; [|exact Hc].
    apply applyOps_inv. apply map_Forall_empty.
Qed.

(** [batchInsertCandles] on bars whose prices are numbers or null is
    [batchInsertBars] on the same bars. *)
Lemma isValidBar_barOfCandle (c : Candle) :
  Db.isValidBar (Db.barOfCandle c) = Db.isValidCandle c.
Proof.
  unfold Db.isValidBar, Db.isValidCandle, Db.barOfCandle. cbn.
  destruct (open c), (high c), (low c), (close c); reflexivity.
Qed.

Lemma filter_barOfCandle (cs : list Candle) :
  List.filter Db.isValidBar (map Db.barOfCandle cs)
  = map Db.barOfCandle (List.filter Db.isValidCandle cs).
Proof.
  induction cs as [|c cs IH]; [reflexivity|]. cbn [map List.filter].
  rewrite isValidBar_barOfCandle.
  destruct (Db.isValidCandle c); cbn [map]; rewrite IH; reflexivity.
Qed.

Lemma upsertBar_barOfCandle (db : Db.Candles) (c : Candle) :
  Db.upsertBar db (Db.barOfCandle c) = Db.upsert db c.
Proof.
  unfold Db.upsertBar, Db.upsert, Db.keyOfBar, Db.keyOf, Db.rowOfBar,
    Db.rowOf, Db.barOfCandle. cbn.
  destruct (open c), (high c), (low c), (close c); reflexivity.
Qed.

Lemma batchInsertBars_candles (db : Db.Candles) (cs : list Candle)
    (instr tf : string) (e : bool) :
  Db.batchInsertBars db (map Db.barOfCandle cs) instr tf e
  = Db.batchInsertCandles db cs instr tf e.
Proof.
  unfold Db.batchInsertBars, Db.batchInsertCandles.
  rewrite filter_barOfCandle, length_map.
  destruct (_ =? _)%nat; [reflexivity|]. destruct e; [reflexivity|].
  generalize (List.filter Db.isValidCandle cs). intros l. revert db.
  induction l as [|c l IH]; intros db; [reflexivity|]. cbn [map fold_left].
  rewrite upsertBar_barOfCandle. apply IH.
Qed.

(** Whatever the prices of the bars are, a row is written only for a bar of
    the batch with volume greater than 0 and no OHLC field that is
    [null]. *)
Lemma batchInsertBars_lookup (db : Db.Candles) bars instr tf e k row :
  Db.batchInsertBars db bars instr tf e !! k = Some row ->
  db !! k = Some row \/
  exists bar,
    bar ∈ bars /\ Db.isValidBar bar = true /\
    Db.keyOfBar bar = k /\ Db.rowOfBar bar = row.
Proof.
  unfold Db.batchInsertBars.
  destruct (_ =? _)%nat; [auto|]. destruct e; [auto|].
  assert (Hall : Forall (fun bar => bar ∈ bars /\ Db.isValidBar bar = true)
                   (List.filter Db.isValidBar bars)).
  { apply Forall_forall. intros bar Hbar.
    apply list_elem_of_In, filter_In in Hbar. destruct Hbar as [Hin Hv].
    split; [apply list_elem_of_In, Hin | exact Hv]. }
  revert Hall. generalize (List.filter Db.isValidBar bars). intros l.
  revert db. induction l as [|bar l IH]; intros db Hall; cbn [fold_left];
    [auto|].
  apply Forall_cons in Hall. destruct Hall as [[Hin Hv] Hall].
  intros H. destruct (IH _ Hall H) as [Hk | Hk]; [|right; exact Hk].
  unfold Db.upsertBar in Hk.
  destruct (decide (Db.keyOfBar bar = k)) as [E|E].
  - subst k. rewrite lookup_insert_eq in Hk. injection Hk as <-.
    right. exists bar. auto.
  - rewrite lookup_insert_ne in Hk by exact E. left. exact Hk.
Qed.

(** C9, the defect: a bar with one contract traded and NaN for its open
    passes the filter of [batchInsertCandles], which only asks for
    [!== null]; SQLite stores NULL for the NaN, and the cache query returns
    the bar with a null open.  The table was empty before, so the query
    returns a bar that is not one with volume greater than 0 and non-null
    open, high, low and close. *)
Theorem batchInsertCandles_writes_nan_bar :
  let db := Db.batchInsertBars ∅ [nanBar] "ES" "1m" false in
  let cached := Db.getCached1mCandles db "ES" t0900 (t0900 + 60000) false in
  Db.isValidBar nanBar = true /\
  db !! ("ES"%string, "1m"%string, t0900)
  = Some (Db.mkRow None (Some 1010) (Some 990) (Some 1005) 1) /\
  cached
  = [mkCandle t0900 None (Some 1010) (Some 990) (Some 1005) 1 "ES" "1m"
       SrcC true] /\
  ~ (forall c, c ∈ cached -> nonNull c).
Proof.
  cbv zeta.
  assert (Hc : Db.getCached1mCandles
                 (Db.batchInsertBars ∅ [nanBar] "ES" "1m" false)
                 "ES" t0900 (t0900 + 60000) false
               = [mkCandle t0900 None (Some 1010) (Some 990) (Some 1005) 1
                    "ES" "1m" SrcC true]) by (vm_compute; reflexivity).
  split; [reflexivity|]. split; [vm_compute; reflexivity|].
  split; [exact Hc|]. rewrite Hc. intros H.
  destruct (H _ ltac:(left)) as [_ Hnum].
  destruct Hnum as [[p Hp] _]. discriminate Hp.
Qed.

Example batchInsertCandles_sample :
  Db.getCached1mCandles
    (Db.batchInsertCandles ∅
       [sampleBar t0900 1; nullBar; sampleBar t0900 0] "ES" "1m" false)
    "ES" t0900 (t0900 + 600000) false
  = [mkCandle t0900 (Some 1000) (Some 1010) (Some 990) (Some 1005) 1
       "ES" "1m" SrcC true;
     mkCandle (t0900 + 60000) (Some 1001) (Some 1011) (Some 991) (Some 1006) 1
       "ES" "1m" SrcC true].
Proof. vm_compute. reflexivity. Qed.

(** ** Clearing the cache *)

Lemma runDelete_unconditional (holds : SqlVerdict) (st : Statement)
    (db : Db.Candles) :
  conditions st = [] -> runDelete holds st db = ∅.
Proof.
  intros Hc. unfold runDelete. apply map_empty. intros k.
  apply map_lookup_filter_None. right. intros row _.
  unfold matches. rewrite Hc. simpl. discriminate.
Qed.

(** C10: when instrument, timeframe, start_time and end_time are each
    absent or equal to 'all', [handleClearCache] runs the statement
    [DELETE FROM CANDLES] without a WHERE clause and without parameters, and
    every row of the table is deleted. *)
Theorem handleClearCache_deletes_everything
    (holds : SqlVerdict) (db : Db.Candles) request :
  absentOrAll (reqInstrument request) ->
  absentOrAll (reqTimeframe request) ->
  absentOrAll (reqStartTime request) ->
  absentOrAll (reqEndTime request) ->
  query (clearCacheStatement request) = "DELETE FROM CANDLES"%string /\
  params (clearCacheStatement request) = [] /\
  handleClearCache holds db request false
  = (∅, ClearCacheResponse (base.size db)).
Proof.
  intros H1 H2 H3 H4.
  assert (Hst : clearCacheStatement request
                = mkStatement "DELETE FROM CANDLES" [] []).
  { destruct request as [i t s e]. simpl in *.
    destruct H1 as [-> | ->], H2 as [-> | ->], H3 as [-> | ->],
      H4 as [-> | ->]; reflexivity. }
  rewrite Hst. simpl. split; [reflexivity|]. split; [reflexivity|].
  unfold handleClearCache. rewrite Hst.
  rewrite runDelete_unconditional by reflexivity.
  rewrite map_size_empty, Nat.sub_0_r. reflexivity.
Qed.

Lemma handleClearCache_witness :
  query (clearCacheStatement
           (mkClearCacheRequest JsUndefined (JsString "all") JsUndefined
              (JsString "all")))
    = "DELETE FROM CANDLES"%string /\
  params (clearCacheStatement
            (mkClearCacheRequest JsUndefined (JsString "all") JsUndefined
               (JsString "all"))) = [] /\
  handleClearCache noCondition twoBars
    (mkClearCacheRequest JsUndefined (JsString "all") JsUndefined
       (JsString "all")) false
  = (∅, ClearCacheResponse (base.size twoBars)).
Proof.
  apply (handleClearCache_deletes_everything noCondition twoBars
           (mkClearCacheRequest JsUndefined (JsString "all") JsUndefined
              (JsString "all"))).
  - left. reflexivity.
  - right. reflexivity.
  - left. reflexivity.
  - right. reflexivity.
Defined.

(** With a filter the statement carries a WHERE clause. *)
Example clearCacheStatement_filtered :
  query (clearCacheStatement
           (mkClearCacheRequest (JsString "ES") JsUndefined (JsNumber 5)
              (JsNumber 9)))
  = "DELETE FROM CANDLES WHERE instrument = ? AND timestamp >= ? AND timestamp <= ?"%string.
Proof. reflexivity. Qed.

(** ** Cushions of the acquisition *)

Lemma fold_min_spec l : forall a,
  fold_left Z.min l a <= a /\
  (forall x, x ∈ l -> fold_left Z.min l a <= x) /\
  (fold_left Z.min l a = a \/ fold_left Z.min l a ∈ l).
Proof.
  induction l as [|y l IH]; intros a; simpl.
  - split; [lia|]. split; [inversion 1 | auto].
  - destruct (IH (Z.min a y)) as (H1 & H2 & H3). split; [lia|]. split.
    + intros x Hx. apply elem_of_cons in Hx. destruct Hx as [-> | Hx];
        [lia | apply H2, Hx].
    + destruct H3 as [H3 | H3]; [|right; right; exact H3].
      rewrite H3.
      destruct (Z.min_spec a y) as [[_ E] | [_ E]]; rewrite E;
        [left; reflexivity | right; left].
Qed.

Lemma fold_max_spec l : forall a,
  a <= fold_left Z.max l a /\
  (forall x, x ∈ l -> x <= fold_left Z.max l a) /\
  (fold_left Z.max l a = a \/ fold_left Z.max l a ∈ l).
Proof.
  induction l as [|y l IH]; intros a; simpl.
  - split; [lia|]. split; [inversion 1 | auto].
  - destruct (IH (Z.max a y)) as (H1 & H2 & H3). split; [lia|]. split.
    + intros x Hx. apply elem_of_cons in Hx. destruct Hx as [-> | Hx];
        [lia | apply H2, Hx].
    + destruct H3 as [H3 | H3]; [|right; right; exact H3].
      rewrite H3.
      destruct (Z.max_spec a y) as [[_ E] | [_ E]]; rewrite E;
        [right; left | left; reflexivity].
Qed.

Lemma earliestOf_spec c r : isEarliest (c :: r) (earliestOf c r).
Proof.
  unfold earliestOf.
  destruct (fold_min_spec (map timestamp r) (timestamp c)) as (H1 & H2 & H3).
  split.
  - destruct H3 as [H3 | H3].
    + exists c. split; [left | auto].
    + apply list_elem_of_fmap in H3. destruct H3 as (x & Hx & Hin).
      exists x. split; [right; exact Hin | auto].
  - intros x Hx. apply elem_of_cons in Hx. destruct Hx as [-> | Hx]; [exact H1|].
    apply H2. apply list_elem_of_fmap. eauto.
Qed.

Lemma latestOf_spec c r : isLatest (c :: r) (latestOf c r).
Proof.
  unfold latestOf.
  destruct (fold_max_spec (map timestamp r) (timestamp c)) as (H1 & H2 & H3).
  split.
  - destruct H3 as [H3 | H3].
    + exists c. split; [left | auto].
    + apply list_elem_of_fmap in H3. destruct H3 as (x & Hx & Hin).
      exists x. split; [right; exact Hin | auto].
  - intros x Hx. apply elem_of_cons in Hx. destruct Hx as [-> | Hx]; [exact H1|].
    apply H2. apply list_elem_of_fmap. eauto.
Qed.

Lemma isEarliest_unique l t t' : isEarliest l t -> isEarliest l t' -> t = t'.
Proof.
  intros [(c & Hc & <-) H1] [(c' & Hc' & <-) H2].
  specialize (H1 _ Hc'). specialize (H2 _ Hc). lia.
Qed.

Lemma isLatest_unique l t t' : isLatest l t -> isLatest l t' -> t = t'.
Proof.
  intros [(c & Hc & <-) H1] [(c' & Hc' & <-) H2].
  specialize (H1 _ Hc'). specialize (H2 _ Hc). lia.
Qed.

Section Cushions.

Variable fetchHistorical : string -> Z -> Z -> Result (list Candle).
Variable fetchLive : list string -> Z -> Z -> Result (list Candle).
Variable insertFails : Upstream -> bool.

Lemma fillEarlier_calls symbol startMs save_cache earliest st :
  acqCalls (fillEarlier fetchHistorical insertFails symbol startMs save_cache earliest st)
  = acqCalls st ++ earlyCalls startMs earliest.
Proof.
  unfold fillEarlier, earlyCalls.
  change (Utils.EARLY_CANDLE_CUSHION_MINUTES * 60 * 1000) with threeDaysMs.
  destruct (startMs <? earliest); simpl; [|symmetry; apply app_nil_r].
  destruct (earliest - startMs <=? threeDaysMs); simpl;
    [symmetry; apply app_nil_r|].
  destruct (fetchHistorical symbol startMs (earliest - 60000)) as [cs|];
    [destruct (0 <? length cs)%nat|]; reflexivity.
Qed.

Lemma fetchLater_calls symbol endMs save_cache latest st :
  acqCalls (fetchLater fetchHistorical insertFails symbol endMs save_cache latest st)
  = acqCalls st ++ [HistoricalLate (latest + 60000) endMs].
Proof.
  unfold fetchLater.
  destruct (fetchHistorical symbol (latest + 60000) endMs) as [cs|];
    [destruct (0 <? length cs)%nat|]; reflexivity.
Qed.

Lemma fillLater_calls symbol endMs end_time save_cache latest st :
  acqCalls (fillLater fetchHistorical insertFails symbol endMs end_time save_cache latest st)
  = acqCalls st ++ lateCalls endMs end_time latest.
Proof.
  unfold fillLater, lateCalls.
  change (Utils.LATE_CANDLE_CUSHION_MINUTES * 60 * 1000) with threeHoursMs.
  destruct (latest <? endMs); simpl; [|symmetry; apply app_nil_r].
  destruct (endIsNow end_time); simpl; [|apply fetchLater_calls].
  destruct (endMs - latest <=? threeHoursMs); simpl;
    [symmetry; apply app_nil_r | apply fetchLater_calls].
Qed.

Lemma fillLive_calls symbol startMs endMs end_time save_cache st :
  exists live,
    acqCalls (fillLive fetchLive insertFails symbol startMs endMs end_time save_cache st)
    = acqCalls st ++ live /\
    forall u, u ∈ live -> exists s e, u = LiveTail s e.
Proof.
  unfold fillLive.
  set (latest := match acqCandles st with c :: r => latestOf c r | [] => startMs end).
  destruct (endIsCurrent end_time || (latest <? endMs)).
  - exists [LiveTail (latest + 60000) endMs]. split.
    + destruct (fetchLive [symbol] (latest + 60000) endMs) as [cs|];
        [destruct (0 <? length cs)%nat|]; reflexivity.
    + intros u Hu. apply list_elem_of_singleton in Hu. eauto.
  - exists []. split; [symmetry; apply app_nil_r | inversion 1].
Qed.

(** The upstream calls of the cached branch. *)
Lemma acquire1m_cached_calls (db : Db.Candles) symbol startMs endMs end_time
    save_cache c r :
  Db.getCached1mCandles db symbol startMs endMs false = c :: r ->
  exists live,
    acqCalls (acquire1m fetchHistorical fetchLive insertFails db symbol startMs endMs
                end_time true save_cache)
    = earlyCalls startMs (earliestOf c r)
      ++ lateCalls endMs end_time (latestOf c r) ++ live /\
    forall u, u ∈ live -> exists s e, u = LiveTail s e.
Proof.
  intros Hcached. unfold acquire1m. rewrite Hcached.
  match goal with
  | |- context [fillLive _ _ ?sy ?s ?e ?et ?sc ?st] =>
      destruct (fillLive_calls sy s e et sc st) as (live & Hl & Hlive)
  end.
  exists live. split; [|exact Hlive].
  rewrite Hl. simpl. rewrite fillLater_calls, fillEarlier_calls. simpl.
  rewrite <- app_assoc. reflexivity.
Qed.

Lemma early_in_earlyCalls s e startMs earliest :
  HistoricalEarly s e ∈ earlyCalls startMs earliest <->
  earliest - startMs > threeDaysMs /\ s = startMs /\ e = earliest - 60000.
Proof.
  unfold earlyCalls, threeDaysMs.
  destruct (startMs <? earliest) eqn:E1;
    [destruct (earliest - startMs <=? _) eqn:E2|]; simpl.
  - apply Z.leb_le in E2. split; [inversion 1 | lia].
  - apply Z.leb_gt in E2. rewrite list_elem_of_singleton. split.
    + intros [= -> ->]. lia.
    + intros (_ & -> & ->). reflexivity.
  - apply Z.ltb_ge in E1. split; [inversion 1 | lia].
Qed.

Lemma late_in_lateCalls s e endMs end_time latest :
  HistoricalLate s e ∈ lateCalls endMs end_time latest <->
  (latest < endMs /\
   (endIsNow end_time = false \/ endMs - latest > threeHoursMs)) /\
  s = latest + 60000 /\ e = endMs.
Proof.
  unfold lateCalls, threeHoursMs.
  destruct (latest <? endMs) eqn:E1; simpl.
  - apply Z.ltb_lt in E1.
    destruct (endIsNow end_time); simpl;
      [destruct (endMs - latest <=? _) eqn:E2; simpl|].
    + apply Z.leb_le in E2. split; [inversion 1|].
      intros [[_ [? | ?]] _]; [discriminate | lia].
    + apply Z.leb_gt in E2. rewrite list_elem_of_singleton. split.
      * intros [= -> ->]. split; [split; [lia | right; lia] | auto].
      * intros (_ & -> & ->). reflexivity.
    + rewrite list_elem_of_singleton. split.
      * intros [= -> ->]. auto.
      * intros (_ & -> & ->). reflexivity.
  - apply Z.ltb_ge in E1. split; [inversion 1 | lia].
Qed.

Lemma late_notin_earlyCalls s e startMs earliest :
  HistoricalLate s e ∉ earlyCalls startMs earliest.
Proof.
  unfold earlyCalls. destruct (_ && _); [|inversion 1].
  rewrite list_elem_of_singleton. discriminate.
Qed.

Lemma early_notin_lateCalls s e endMs end_time latest :
  HistoricalEarly s e ∉ lateCalls endMs end_time latest.
Proof.
  unfold lateCalls. destruct (_ && _); [|inversion 1].
  rewrite list_elem_of_singleton. discriminate.
Qed.

(** C4 (as amended): with cached 1-minute bars present for the requested
    range, [handleGetData] issues the early historical refetch exactly when
    the earliest cached timestamp minus the requested start exceeds 3 days,
    and the late historical refetch exactly when the requested end lies
    after the latest cached timestamp and either the caller gave an explicit
    end_time or the requested end minus the latest cached timestamp exceeds
    3 hours. *)
Theorem handleGetData_refetch_cushions (db : Db.Candles) symbol startMs endMs
    end_time save_cache earliest latest :
  let cached := Db.getCached1mCandles db symbol startMs endMs false in
  let calls :=
    acqCalls (acquire1m fetchHistorical fetchLive insertFails db symbol startMs endMs
                end_time true save_cache) in
  cached <> [] -> isEarliest cached earliest -> isLatest cached latest ->
  ((exists s e, HistoricalEarly s e ∈ calls) <->
     earliest - startMs > threeDaysMs) /\
  ((exists s e, HistoricalLate s e ∈ calls) <->
     latest < endMs /\
     (endIsNow end_time = false \/ endMs - latest > threeHoursMs)) /\
  (forall s e, HistoricalEarly s e ∈ calls ->
     s = startMs /\ e = earliest - 60000) /\
  (forall s e, HistoricalLate s e ∈ calls ->
     s = latest + 60000 /\ e = endMs).
Proof.
  intros cached calls Hne He Hl.
  destruct cached as [|c r] eqn:Hcached; [contradiction|].
  destruct (acquire1m_cached_calls db symbol startMs endMs end_time save_cache
              c r Hcached) as (live & Hcalls & Hlive).
  subst calls. rewrite Hcalls.
  rewrite (isEarliest_unique _ _ _ (earliestOf_spec c r) He).
  rewrite (isLatest_unique _ _ _ (latestOf_spec c r) Hl).
  clear Hcalls Hcached He Hl.
  assert (Hearly : forall s e,
            HistoricalEarly s e ∈ earlyCalls startMs earliest
              ++ lateCalls endMs end_time latest ++ live <->
            HistoricalEarly s e ∈ earlyCalls startMs earliest).
  { intros s e. rewrite !elem_of_app. split; [|auto].
    intros [H | [H | H]]; [exact H | |].
    - exfalso. exact (early_notin_lateCalls _ _ _ _ _ H).
    - destruct (Hlive _ H) as (? & ? & ?). discriminate. }
  assert (Hlate : forall s e,
            HistoricalLate s e ∈ earlyCalls startMs earliest
              ++ lateCalls endMs end_time latest ++ live <->
            HistoricalLate s e ∈ lateCalls endMs end_time latest).
  { intros s e. rewrite !elem_of_app. split; [|auto].
    intros [H | [H | H]]; [| exact H |].
    - exfalso. exact (late_notin_earlyCalls _ _ _ _ H).
    - destruct (Hlive _ H) as (? & ? & ?). discriminate. }
  split; [|split; [|split]].
  - split.
    + intros (s & e & H). apply Hearly, early_in_earlyCalls in H. tauto.
    + intros H. exists startMs, (earliest - 60000).
      apply Hearly, early_in_earlyCalls. auto.
  - split.
    + intros (s & e & H). apply Hlate, late_in_lateCalls in H. tauto.
    + intros H. exists (latest + 60000), endMs.
      apply Hlate, late_in_lateCalls. auto.
  - intros s e H. apply Hearly, early_in_earlyCalls in H. tauto.
  - intros s e H. apply Hlate, late_in_lateCalls in H. tauto.
Qed.

End Cushions.

Example twoBars_cached :
  Db.getCached1mCandles twoBars "ES" (t0900 - 4 * 86400000)
    (t0900 + 60000 + 4 * 3600000) false = [cachedBar 0; cachedBar 1].
Proof. vm_compute. reflexivity. Qed.

(** A request for "now" that starts four days before the cache and ends four
    hours after it: both refetches are issued. *)
Lemma handleGetData_refetch_witness :
  let calls :=
    acqCalls (acquire1m noHistory noLiveBars insertsSucceed twoBars "ES"
                (t0900 - 4 * 86400000) (t0900 + 60000 + 4 * 3600000)
                JsUndefined true true) in
  ((exists s e, HistoricalEarly s e ∈ calls) <->
     t0900 - (t0900 - 4 * 86400000) > threeDaysMs) /\
  ((exists s e, HistoricalLate s e ∈ calls) <->
     t0900 + 60000 < t0900 + 60000 + 4 * 3600000 /\
     (endIsNow JsUndefined = false \/
      t0900 + 60000 + 4 * 3600000 - (t0900 + 60000) > threeHoursMs)) /\
  (forall s e, HistoricalEarly s e ∈ calls ->
     s = t0900 - 4 * 86400000 /\ e = t0900 - 60000) /\
  (forall s e, HistoricalLate s e ∈ calls ->
     s = t0900 + 60000 + 60000 /\ e = t0900 + 60000 + 4 * 3600000).
Proof.
  refine (handleGetData_refetch_cushions noHistory noLiveBars insertsSucceed twoBars "ES"
            (t0900 - 4 * 86400000) (t0900 + 60000 + 4 * 3600000)
            JsUndefined true t0900 (t0900 + 60000) _ _ _).
  - rewrite twoBars_cached. discriminate.
  - rewrite twoBars_cached. exact (earliestOf_spec (cachedBar 0) [cachedBar 1]).
  - rewrite twoBars_cached. exact (latestOf_spec (cachedBar 0) [cachedBar 1]).
Defined.

(** C4, counterexample: the caller gives an explicit end_time that is the
    timestamp of the latest cached bar (09:01).  No late refetch is issued
    although the end was explicit. *)
Lemma handleGetData_late_refetch_counterexample :
  let end_time := JsString "2024-06-09T09:01:00.000Z" in
  let endMs := t0900 + 60000 in
  let cached := Db.getCached1mCandles twoBars "ES" t0900 endMs false in
  let calls :=
    acqCalls (acquire1m noHistory noLiveBars insertsSucceed twoBars "ES" t0900 endMs
                end_time true true) in
  cached <> [] /\ isLatest cached (t0900 + 60000) /\
  ~ ((exists s e, HistoricalLate s e ∈ calls) <->
     (endIsNow end_time = false \/ endMs - (t0900 + 60000) > threeHoursMs)).
Proof.
  assert (Hc : Db.getCached1mCandles twoBars "ES" t0900 (t0900 + 60000) false
               = [cachedBar 0; cachedBar 1]) by (vm_compute; reflexivity).
  assert (Hcalls :
    acqCalls (acquire1m noHistory noLiveBars insertsSucceed twoBars "ES" t0900
                (t0900 + 60000) (JsString "2024-06-09T09:01:00.000Z")
                true true) = []) by (vm_compute; reflexivity).
  cbv zeta. rewrite Hc, Hcalls. split; [discriminate|]. split.
  - exact (latestOf_spec (cachedBar 0) [cachedBar 1]).
  - intros [_ H]. destruct H as (s & e & Hin); [left; reflexivity|].
    inversion Hin.
Qed.

(** ** The live-candle updater *)

(** The guard of [processTradeForClient]: a trade whose timestamp is
    earlier than the instrument's [next1mStart] (the start of the open
    1-minute candle installed when the subscription began) is ignored: no
    open candle, 1-minute or higher, is changed, nothing is sent and nothing
    is written to the cache.  Outside a timeframe change the session is left
    exactly as it was. *)
Lemma processTradeForClient_guard
    host next1mStarts ws trade next1mStart :
  mapGet next1mStarts (tradeInstrument trade) = Some next1mStart ->
  tradeTimestamp trade < next1mStart ->
  exists ws',
    processTradeForClient host next1mStarts ws trade = (ws', None) /\
    open1mCandles ws' = open1mCandles ws /\
    openCandles ws' = openCandles ws /\
    sent ws' = sent ws /\
    candlesDb ws' = candlesDb ws /\
    (isProcessingTimeframeChange ws = false -> ws' = ws).
Proof.
  intros Hstart Hlt. unfold processTradeForClient.
  destruct (isLiveActive ws); simpl; [|exists ws; auto 10].
  destruct (isProcessingTimeframeChange ws) eqn:Eflag.
  - eexists. split; [reflexivity|]. simpl. repeat split. discriminate.
  - destruct (mapGet (activeSubscriptions ws) (tradeInstrument trade));
      [|exists ws; auto 10].
    rewrite Hstart. apply Z.ltb_lt in Hlt. rewrite Hlt.
    exists ws. auto 10.
Qed.

Example processTradeForClient_guard_sample :
  exists ws',
    processTradeForClient 0 liveStarts liveSession (tradeAt (-1) 1000 2)
      = (ws', None) /\
    open1mCandles ws' = open1mCandles liveSession /\
    openCandles ws' = openCandles liveSession /\
    sent ws' = sent liveSession /\
    candlesDb ws' = candlesDb liveSession /\
    (isProcessingTimeframeChange liveSession = false -> ws' = liveSession).
Proof.
  apply (processTradeForClient_guard 0 liveStarts liveSession
           (tradeAt (-1) 1000 2) t0900).
  - reflexivity.
  - vm_compute. reflexivity.
Qed.

(** The guard looks at [next1mStart] only.  On a stream that is out of
    order, which the vendor does not send, a trade at 09:01:05 rolls the open
    1-minute candle to 09:01, and a trade stamped 09:00:30 that arrives
    afterwards is folded into it. *)
Example processTradeForClient_out_of_order :
  let ws1 := fst (processTradeForClient 0 liveStarts liveSession
                    (tradeAt 65000 1000 2)) in
  let late := tradeAt 30000 990 3 in
  exists open1m ws2,
    mapGet (open1mCandles ws1) "ES" = Some open1m /\
    tradeTimestamp late < timestamp open1m /\
    processTradeForClient 0 liveStarts ws1 late = (ws2, None) /\
    mapGet (open1mCandles ws2) "ES"
      = Some (mkCandle (t0900 + 60000) (Some 1000) (Some 1000) (Some 990)
                (Some 990) 5 "ES" "1m" SrcT false) /\
    open1mCandles ws2 <> open1mCandles ws1 /\
    sent ws2 <> sent ws1.
Proof.
  eexists _, _. split; [vm_compute; reflexivity|].
  split; [vm_compute; reflexivity|].
  split; [vm_compute; reflexivity|].
  split; [vm_compute; reflexivity|].
  split; vm_compute; discriminate.
Qed.

(** ** Trades during a timeframe change *)

(** While the flag is up, trades are only appended to the queue. *)
Lemma deliver_during_change host next1mStarts trades : forall ws,
  isLiveActive ws = true ->
  isProcessingTimeframeChange ws = true ->
  deliver host next1mStarts ws trades
  = (withQueue ws (tradeQueue ws ++ trades), None).
Proof.
  induction trades as [|t rest IH]; intros ws Hlive Hflag; simpl.
  - rewrite app_nil_r. destruct ws; reflexivity.
  - unfold processTradeForClient. rewrite Hlive, Hflag. simpl.
    rewrite IH by assumption. simpl.
    rewrite <- app_assoc. reflexivity.
Qed.

(** [processTradeForClient] is a [const] of a block inside [handleGetData];
    [handleAddTimeframe] cannot see it. *)
Lemma processTradeForClient_out_of_scope :
  includes handleAddTimeframeScope "processTradeForClient" = false.
Proof. reflexivity. Qed.

(** With a trade in the queue the drain throws at its first iteration: the
    trade has been taken off the queue and is applied nowhere, the rest of
    the queue stays where it is. *)
Lemma finishTimeframeChange_throws host next1mStarts ws t q :
  tradeQueue ws = t :: q ->
  finishTimeframeChange host next1mStarts ws
  = (withQueue (withChangeFlag ws false) q,
     Some (ReferenceError "processTradeForClient")).
Proof.
  intros Hq. unfold finishTimeframeChange.
  change (tradeQueue (withChangeFlag ws false)) with (tradeQueue ws).
  rewrite Hq. cbn [length drainTradeQueue].
  change (tradeQueue (withChangeFlag ws false)) with (tradeQueue ws).
  rewrite Hq. unfold callInScope.
  rewrite processTradeForClient_out_of_scope. reflexivity.
Qed.

(** The drain returns normally only when there was nothing to drain. *)
Lemma finishTimeframeChange_returns_iff host next1mStarts ws :
  snd (finishTimeframeChange host next1mStarts ws) = None <->
  tradeQueue ws = [].
Proof.
  destruct (tradeQueue ws) as [|t q] eqn:Hq.
  - unfold finishTimeframeChange.
    change (tradeQueue (withChangeFlag ws false)) with (tradeQueue ws).
    rewrite Hq. simpl. tauto.
  - rewrite (finishTimeframeChange_throws host next1mStarts ws t q Hq). simpl.
    split; discriminate.
Qed.

(** C3, the defect, on a live ES session: two trades arrive during the
    timeframe change and are queued without touching a candle; when the
    change completes the drain throws, the first trade is lost, the second
    stays in the queue, and a trade that arrives next is applied before
    it. *)
Theorem handleAddTimeframe_drops_queued_trades :
  let a := tradeAt 1000 1000 2 in
  let b := tradeAt 2000 1001 1 in
  let c := tradeAt 3000 1002 4 in
  let during := deliver 0 liveStarts (beginTimeframeChange liveSession) [a; b] in
  let done := finishTimeframeChange 0 liveStarts (fst during) in
  let after := processTradeForClient 0 liveStarts (fst done) c in
  (snd during = None /\
   tradeQueue (fst during) = [a; b] /\
   open1mCandles (fst during) = open1mCandles liveSession /\
   sent (fst during) = []) /\
  (snd done = Some (ReferenceError "processTradeForClient") /\
   isProcessingTimeframeChange (fst done) = false /\
   tradeQueue (fst done) = [b] /\
   open1mCandles (fst done) = open1mCandles liveSession /\
   sent (fst done) = []) /\
  (snd after = None /\
   tradeQueue (fst after) = [b] /\
   mapGet (open1mCandles (fst after)) "ES"
     = Some (mkCandle t0900 (Some 1002) (Some 1002) (Some 1002) (Some 1002) 4
               "ES" "1m" SrcT false)).
Proof.
  cbv zeta. repeat split; vm_compute; reflexivity.
Qed.

(** ** The replay clock *)

Lemma feedAggregates_ok host symbol c tfs : forall aggs out cache,
  Forall parses tfs ->
  exists r, feedAggregates host symbol c tfs aggs out cache = Ok r.
Proof.
  induction tfs as [|tf rest IH]; intros aggs out cache Hp; simpl; [eauto|].
  apply Forall_cons_1 in Hp. destruct Hp as [[I HI] Hrest].
  destruct (String.eqb tf "1m"); [apply IH, Hrest|].
  rewrite HI. simpl. unfold needsSessionAlignment. rewrite HI. simpl.
  destruct (baseTimeOf host _ I cache (timestamp c)) as [baseTime cache'].
  apply IH, Hrest.
Qed.

Lemma tickSymbol_summary host subs T st sym d :
  (exists tfs, mapGet subs sym = Some tfs /\ Forall parses tfs) ->
  exists st',
    tickSymbol host subs T st (sym, d) = Ok st' /\
    anyActive st' = anyActive st || dueNow T d /\
    nextCandleTime st' = stepNext T (nextCandleTime st) d.
Proof.
  intros (tfs & Htfs & Hp). unfold tickSymbol, dueNow, stepNext, nextBar.
  destruct (replayCandles d !! currentIndex d) as [c|].
  - destruct (timestamp c <=? T).
    + rewrite Htfs.
      match goal with
      | |- context [feedAggregates host sym c tfs ?a ?o ?k] =>
          destruct (feedAggregates_ok host sym c tfs a o k Hp)
            as ([[aggs out] cache] & ->)
      end.
      eexists. split; [reflexivity|]. simpl.
      rewrite orb_true_r. auto.
    + eexists. split; [reflexivity|]. simpl. rewrite orb_false_r. auto.
  - eexists. split; [reflexivity|]. simpl. rewrite orb_false_r. auto.
Qed.

Lemma tickSymbols_summary host subs T entries : forall st,
  (forall sym d, (sym, d) ∈ entries ->
     exists tfs, mapGet subs sym = Some tfs /\ Forall parses tfs) ->
  exists st',
    tickSymbols host subs T entries st = Ok st' /\
    anyActive st' = anyActive st || existsb (dueNow T) (map snd entries) /\
    nextCandleTime st'
      = fold_left (stepNext T) (map snd entries) (nextCandleTime st).
Proof.
  induction entries as [|[sym d] rest IH]; intros st Hok;
    cbn [tickSymbols map existsb fold_left snd].
  - exists st. rewrite orb_false_r. auto.
  - destruct (tickSymbol_summary host subs T st sym d) as (st1 & E1 & A1 & N1);
      [apply (Hok sym d); left|].
    rewrite E1. cbn [mbind result_bind].
    destruct (IH st1) as (st' & E' & A' & N').
    { intros s' d' Hin. apply (Hok s' d'). right. exact Hin. }
    exists st'. split; [exact E'|]. rewrite A', N', A1, N1.
    split; [symmetry; apply orb_assoc | reflexivity].
Qed.

Lemma foldNext_le T ds : forall acc, fold_left (stepNext T) ds acc <= acc.
Proof.
  induction ds as [|d ds IH]; intros acc; simpl; [lia|].
  specialize (IH (stepNext T acc d)). unfold stepNext in *.
  destruct (nextBar d) as [c|]; [destruct (timestamp c <=? T)|]; lia.
Qed.

Lemma foldNext_lower T ds : forall acc d c,
  d ∈ ds -> nextBar d = Some c -> T < timestamp c ->
  fold_left (stepNext T) ds acc <= timestamp c.
Proof.
  induction ds as [|d0 ds IH]; intros acc d c Hd Hn Hc; [inversion Hd|].
  simpl. apply elem_of_cons in Hd. destruct Hd as [<- | Hd].
  - pose proof (foldNext_le T ds (stepNext T acc d)) as Hle.
    assert (stepNext T acc d <= timestamp c); [|lia].
    unfold stepNext. rewrite Hn.
    destruct (timestamp c <=? T) eqn:E; [apply Z.leb_le in E|]; lia.
  - eapply IH; eassumption.
Qed.

Lemma foldNext_attained T ds : forall acc,
  fold_left (stepNext T) ds acc = acc \/
  exists d c, d ∈ ds /\ nextBar d = Some c /\ T < timestamp c /\
              fold_left (stepNext T) ds acc = timestamp c.
Proof.
  induction ds as [|d0 ds IH]; intros acc; simpl; [auto|].
  destruct (IH (stepNext T acc d0)) as [E | (d & c & Hd & Hn & Hc & E)].
  - rewrite E. unfold stepNext.
    destruct (nextBar d0) as [c|] eqn:Hn; [|auto].
    destruct (timestamp c <=? T) eqn:Hc; [auto|].
    apply Z.leb_gt in Hc.
    destruct (Z.min_spec acc (timestamp c)) as [[_ ->] | [_ ->]]; [auto|].
    right. exists d0, c. split; [left | auto].
  - right. exists d, c. split; [right; exact Hd | auto].
Qed.

Lemma dueNow_dueBar ws :
  existsb (dueNow (replayCurrentTime ws)) (map snd (replayData ws)) = true
  <-> dueBar ws.
Proof.
  rewrite existsb_exists. unfold dueBar, dueNow. split.
  - intros (d & Hd & Hdue). apply in_map_iff in Hd.
    destruct Hd as ([sym d'] & <- & Hin). simpl in Hdue.
    destruct (nextBar d') as [c|] eqn:Hn; [|discriminate].
    apply Z.leb_le in Hdue. exists sym, d', c.
    split; [apply list_elem_of_In, Hin | auto].
  - intros (sym & d & c & Hin & Hn & Hc). exists d. split.
    + apply in_map_iff. exists (sym, d). split; [reflexivity|].
      apply list_elem_of_In, Hin.
    + rewrite Hn. apply Z.leb_le, Hc.
Qed.

(** The next bar is the earliest of the bars an instrument has left. *)
Lemma remaining_next d c :
  sortedTs (replayCandles d) -> c ∈ remaining d ->
  exists n, nextBar d = Some n /\ n ∈ remaining d /\ timestamp n <= timestamp c.
Proof.
  unfold remaining, nextBar. intros Hs Hc.
  destruct (replayCandles d !! currentIndex d) as [n|] eqn:Hn.
  - exists n. rewrite (drop_S _ _ _ Hn) in Hc |- *.
    split; [reflexivity|]. split; [left|].
    apply elem_of_cons in Hc. destruct Hc as [-> | Hc]; [lia|].
    unfold sortedTs in Hs.
    rewrite <- (take_drop (currentIndex d) (replayCandles d)) in Hs.
    apply StronglySorted_app_1_r in Hs. rewrite (drop_S _ _ _ Hn) in Hs.
    apply StronglySorted_cons in Hs. destruct Hs as [Hall _].
    rewrite Forall_forall in Hall. apply Hall, Hc.
  - apply lookup_ge_None in Hn. rewrite drop_ge in Hc by exact Hn.
    inversion Hc.
Qed.

Lemma nextBar_remaining d n : nextBar d = Some n -> n ∈ remaining d.
Proof.
  unfold nextBar, remaining. intros Hn. rewrite (drop_S _ _ _ Hn). left.
Qed.

Lemma remaining_elem d c : c ∈ remaining d -> c ∈ replayCandles d.
Proof.
  unfold remaining. intros Hc.
  rewrite <- (take_drop (currentIndex d) (replayCandles d)).
  apply elem_of_app. right. exact Hc.
Qed.

Section ReplayClock.

Variable host : Z.
Variable ws : Replay.
Hypothesis ready : replayReady ws.

Let T := replayCurrentTime ws.
Let m := fold_left (stepNext T) (map snd (replayData ws)) MAX_SAFE_INTEGER.

Lemma snd_replayData d :
  d ∈ map snd (replayData ws) -> exists sym, (sym, d) ∈ replayData ws.
Proof.
  intros Hd. apply list_elem_of_In, in_map_iff in Hd.
  destruct Hd as ([sym d'] & <- & Hin). exists sym.
  apply list_elem_of_In, Hin.
Qed.

Lemma next_is_future d c :
  d ∈ map snd (replayData ws) -> nextBar d = Some c -> T < timestamp c ->
  futureBar ws c.
Proof.
  intros Hd Hn Hc. destruct (snd_replayData d Hd) as [sym Hin].
  exists sym, d. split; [exact Hin|].
  split; [apply nextBar_remaining, Hn|]. split; [exact Hc|].
  destruct ready as [_ Hr]. destruct (Hr _ _ Hin) as (_ & Hrange & _).
  rewrite Forall_forall in Hrange.
  apply Hrange, remaining_elem, nextBar_remaining, Hn.
Qed.

Lemma future_bounds_min c :
  ~ dueBar ws -> futureBar ws c -> m <= timestamp c.
Proof.
  intros Hnd (sym & d & Hin & Hc & HT & _).
  destruct ready as [_ Hr]. destruct (Hr _ _ Hin) as (Hs & _ & _).
  destruct (remaining_next d c Hs Hc) as (n & Hn & _ & Hle).
  assert (HTn : T < timestamp n).
  { destruct (Z_lt_le_dec T (timestamp n)) as [Hl | Hl]; [exact Hl|].
    exfalso. apply Hnd. exists sym, d, n. auto. }
  assert (Hd : d ∈ map snd (replayData ws)).
  { apply list_elem_of_In, in_map_iff. exists (sym, d).
    split; [reflexivity | apply list_elem_of_In, Hin]. }
  pose proof (foldNext_lower T _ MAX_SAFE_INTEGER d n Hd Hn HTn). unfold m. lia.
Qed.

Lemma min_is_future :
  m < MAX_SAFE_INTEGER -> exists c, futureBar ws c /\ timestamp c = m.
Proof.
  intros Hm. unfold m in *.
  destruct (foldNext_attained T (map snd (replayData ws)) MAX_SAFE_INTEGER)
    as [E | (d & c & Hd & Hn & Hc & E)]; [lia|].
  exists c. split; [exact (next_is_future d c Hd Hn Hc) | auto].
Qed.

(** On replay data whose series are sorted and hold no bar after live_end:
    on an un-paused tick, if no instrument has a bar due at the virtual time
    [T] and some instrument still has a bar after [T] and not after
    live_end, [T] jumps to the timestamp of the earliest such bar; otherwise
    [T] advances by exactly 60000 ms.  Once [T] is greater than live_end the
    timer is stopped, the replay is marked inactive and the completion
    message is the last thing sent; until then the replay stays active. *)
Lemma replay_tick_clock_prepared :
  replayIsActive ws = true -> replayIsPaused ws = false ->
  exists ws',
    tick host ws = Ok ws' /\
    (~ dueBar ws /\ (exists c, futureBar ws c) ->
       earliestFutureBar ws (replayCurrentTime ws')) /\
    (~ (~ dueBar ws /\ exists c, futureBar ws c) ->
       replayCurrentTime ws' = replayCurrentTime ws + 60000) /\
    (replayLiveEndMs ws < replayCurrentTime ws' ->
       replayTimerArmed ws' = false /\ replayIsActive ws' = false /\
       last (replaySent ws') = Some (EmitCtrl "Replay completed")) /\
    (replayCurrentTime ws' <= replayLiveEndMs ws ->
       replayIsActive ws' = true /\
       replayTimerArmed ws' = replayTimerArmed ws).
Proof.
  intros Hactive Hpaused. unfold tick. rewrite Hactive, Hpaused.
  cbn [negb].
  destruct (tickSymbols_summary host (activeReplaySubscriptions ws) T
              (replayData ws)
              (mkTickLoop [] false MAX_SAFE_INTEGER (replaySent ws)
                 (replayBoundaryCache ws)))
    as (st & E & A & N).
  { intros sym d Hin. destruct ready as [_ Hr].
    destruct (Hr _ _ Hin) as (_ & _ & Hsubs). exact Hsubs. }
  fold T. rewrite E. cbn [mbind result_bind].
  cbn [anyActive nextCandleTime orb] in A, N. fold m in N. rewrite N.
  assert (Hdue : anyActive st = true <-> dueBar ws).
  { rewrite A. apply dueNow_dueBar. }
  set (jump := negb (anyActive st) && (T <? replayLiveEndMs ws)
               && (m <? MAX_SAFE_INTEGER)).
  set (T' := if jump then m else T + 60000).
  assert (Hjump : jump = true <-> ~ dueBar ws /\ exists c, futureBar ws c).
  { unfold jump. rewrite !andb_true_iff, negb_true_iff, Z.ltb_lt, Z.ltb_lt.
    split.
    - intros [[Ha _] Hm]. split.
      + intros Hd. apply Hdue in Hd. congruence.
      + destruct (min_is_future Hm) as (c & Hc & _). eauto.
    - intros [Hnd (c & Hc)].
      pose proof (future_bounds_min c Hnd Hc) as Hle.
      destruct Hc as (sym & d & _ & _ & HT & Hend).
      destruct ready as [Hmax _].
      repeat split; [|fold T in HT; lia | lia].
      destruct (anyActive st); [|reflexivity].
      exfalso. apply Hnd, Hdue. reflexivity. }
  assert (Hclock :
    (~ dueBar ws /\ (exists c, futureBar ws c) -> earliestFutureBar ws T') /\
    (~ (~ dueBar ws /\ exists c, futureBar ws c) -> T' = T + 60000)).
  { unfold T'. destruct jump eqn:Ej.
    - split; [|intros Hn; exfalso; apply Hn, Hjump; reflexivity].
      intros [Hnd _]. split.
      + apply min_is_future. unfold jump in Ej.
        apply andb_true_iff in Ej. destruct Ej as [_ Ej].
        apply Z.ltb_lt, Ej.
      + intros c Hc. exact (future_bounds_min c Hnd Hc).
    - split; [|reflexivity].
      intros H. apply Hjump in H. discriminate. }
  destruct Hclock as [Hc1 Hc2].
  destruct (replayLiveEndMs ws <? T') eqn:Eend.
  - apply Z.ltb_lt in Eend. eexists. split; [reflexivity|]. cbn.
    split; [exact Hc1|]. split; [exact Hc2|]. split.
    + intros _. split; [reflexivity|]. split; [reflexivity|].
      apply last_snoc.
    + intros Hle. fold T' in Hle. lia.
  - apply Z.ltb_ge in Eend. eexists. split; [reflexivity|]. cbn.
    split; [exact Hc1|]. split; [exact Hc2|]. split.
    + intros Hlt. fold T' in Hlt. lia.
    + intros _. split; reflexivity.
Qed.

End ReplayClock.

Example gapReplay_jumps :
  match tick 0 gapReplay with
  | Ok ws' => replayCurrentTime ws' = t0900 + 600000
  | Throw _ => False
  end.
Proof. vm_compute. reflexivity. Qed.

Lemma gapReplay_ready : replayReady gapReplay.
Proof.
  split; [reflexivity|]. intros sym d Hin.
  apply list_elem_of_singleton in Hin. injection Hin as -> ->.
  cbn [replayCandles]. split; [|split].
  - unfold gapSeries, sortedTs.
    repeat (constructor; [|repeat (constructor; [vm_compute; discriminate|])]);
      constructor.
  - unfold gapSeries. repeat (constructor; [vm_compute; discriminate|]).
    constructor.
  - exists ["1m"; "5m"]%string. split; [reflexivity|].
    repeat (constructor; [eexists; reflexivity|]). constructor.
Qed.

Example replay_tick_clock_gapReplay :
  exists ws',
    tick 0 gapReplay = Ok ws' /\
    (~ dueBar gapReplay /\ (exists c, futureBar gapReplay c) ->
       earliestFutureBar gapReplay (replayCurrentTime ws')) /\
    (~ (~ dueBar gapReplay /\ exists c, futureBar gapReplay c) ->
       replayCurrentTime ws' = replayCurrentTime gapReplay + 60000) /\
    (replayLiveEndMs gapReplay < replayCurrentTime ws' ->
       replayTimerArmed ws' = false /\ replayIsActive ws' = false /\
       last (replaySent ws') = Some (EmitCtrl "Replay completed")) /\
    (replayCurrentTime ws' <= replayLiveEndMs gapReplay ->
       replayIsActive ws' = true /\
       replayTimerArmed ws' = replayTimerArmed gapReplay).
Proof.
  apply (replay_tick_clock_prepared 0 gapReplay gapReplay_ready).
  - reflexivity.
  - reflexivity.
Qed.

(** ** Start-time correction on the live channel *)

Lemma inactivityTimer_in_fetchLive1mCandles :
  includes fetchLive1mCandlesScope "inactivityTimer" = true.
Proof. reflexivity. Qed.

(** [startLiveTradesSubscription] declares no [inactivityTimer]. *)
Lemma inactivityTimer_not_in_startLiveTradesSubscription :
  includes startLiveTradesSubscriptionScope "inactivityTimer" = false.
Proof. reflexivity. Qed.

(** [fetchLive1mCandles]: a rejected start closes the channel and opens a
    new one with the corrected start. *)
Lemma fetchLive1mCandles_retries vendor startMs endMs retryCount log X rest :
  (retryCount <= 3)%nat ->
  messages (vendor retryCount startMs) = InvalidStartTime (Some X) :: rest ->
  fetchLive1mCandles vendor startMs endMs retryCount log
  = fetchLive1mCandles vendor X endMs (S retryCount)
      (log ++ [Connected startMs; Destroyed]).
Proof.
  intros Hk Hm. rewrite fetchLive1mCandles_equation.
  apply Nat.ltb_ge in Hk. rewrite Hk, Hm. simpl.
  rewrite <- app_assoc. reflexivity.
Qed.

(** The fifth call fails before it connects. *)
Lemma fetchLive1mCandles_cap vendor startMs endMs retryCount log :
  (3 < retryCount)%nat ->
  fetchLive1mCandles vendor startMs endMs retryCount log
  = (Rejected tooManyCandleRetries, log).
Proof.
  intros Hk. rewrite fetchLive1mCandles_equation.
  apply Nat.ltb_lt in Hk. rewrite Hk. reflexivity.
Qed.

(** Against a vendor that rejects every start, [fetchLive1mCandles] makes
    four connections, each closed, and then fails. *)
Lemma fetchLive1mCandles_four_attempts vendor (X : nat -> Z) endMs startMs :
  (forall k s, messages (vendor k s) = [InvalidStartTime (Some (X k))]) ->
  fetchLive1mCandles vendor startMs endMs 0 []
  = (Rejected tooManyCandleRetries,
     [Connected startMs; Destroyed; Connected (X 0%nat); Destroyed;
      Connected (X 1%nat); Destroyed; Connected (X 2%nat); Destroyed]).
Proof.
  intros Hv.
  rewrite (fetchLive1mCandles_retries vendor startMs endMs 0 [] _ _
             ltac:(lia) (Hv _ _)).
  rewrite (fetchLive1mCandles_retries vendor _ endMs 1 _ _ _
             ltac:(lia) (Hv _ _)).
  rewrite (fetchLive1mCandles_retries vendor _ endMs 2 _ _ _
             ltac:(lia) (Hv _ _)).
  rewrite (fetchLive1mCandles_retries vendor _ endMs 3 _ _ _
             ltac:(lia) (Hv _ _)).
  rewrite fetchLive1mCandles_cap by lia. reflexivity.
Qed.

(** [startLiveTradesSubscription]: a rejected start leaves the channel open
    and the promise pending; no second connection is made. *)
Lemma startLiveTradesSubscription_stuck vendor startTs retryCount log X rest :
  (retryCount <= 3)%nat ->
  messages (vendor retryCount startTs) = InvalidStartTime (Some X) :: rest ->
  startLiveTradesSubscription vendor startTs retryCount log
  = (Pending, log ++ [Connected startTs]).
Proof.
  intros Hk Hm. rewrite startLiveTradesSubscription_equation.
  apply Nat.ltb_ge in Hk. rewrite Hk, Hm. reflexivity.
Qed.

Lemma relayTrades_no_retry msgs : forall log X,
  fst (relayTrades msgs log) <> Reacts (DestroyAndRetry X).
Proof.
  induction msgs as [|msg rest IH]; intros log X; simpl; [discriminate|].
  destruct msg as [[newStart|] | | | |]; simpl; try discriminate; apply IH.
Qed.

Lemma relayTrades_log msgs : forall log,
  exists delivered,
    snd (relayTrades msgs log) = log ++ delivered /\
    Forall (fun e => exists t, e = Delivered t) delivered.
Proof.
  induction msgs as [|msg rest IH]; intros log; simpl.
  - exists []. rewrite app_nil_r. auto.
  - destruct msg as [mustBe | c | t | |]; simpl; try apply IH.
    + exists []. rewrite app_nil_r. auto.
    + destruct (IH (log ++ [Delivered t])) as (d & Hd & Hall).
      exists (Delivered t :: d). rewrite Hd, <- app_assoc.
      split; [reflexivity|]. constructor; eauto.
Qed.

(** Whatever the vendor sends, a call of [startLiveTradesSubscription]
    opens one connection, never closes it and never opens a second one. *)
Lemma startLiveTradesSubscription_single_connection vendor startTs log :
  exists delivered,
    snd (startLiveTradesSubscription vendor startTs 0 log)
    = log ++ Connected startTs :: delivered /\
    Forall (fun e => exists t, e = Delivered t) delivered.
Proof.
  rewrite startLiveTradesSubscription_equation. cbn [Nat.ltb Nat.leb].
  pose proof (relayTrades_no_retry (messages (vendor 0%nat startTs))
                (log ++ [Connected startTs])) as Hno.
  destruct (relayTrades_log (messages (vendor 0%nat startTs))
              (log ++ [Connected startTs])) as (d & Hd & Hall).
  exists d. rewrite <- app_assoc in Hd. simpl in Hd.
  destruct (relayTrades (messages (vendor 0%nat startTs))
              (log ++ [Connected startTs])) as [[u | r] log2]; simpl in *.
  - destruct (ending (vendor 0%nat startTs)); simpl; auto.
  - destruct r as [X | e | e]; simpl; [|auto|auto].
    exfalso. exact (Hno X eq_refl).
Qed.

(** C8, the defect: asked for a start the vendor rejects with "Invalid start
    time. Must be 2024-06-10T12:00:00+00:00 or later",
    [fetchLive1mCandles] closes the channel, reconnects with the corrected
    start and returns the bar; [startLiveTradesSubscription] hits the
    undeclared [inactivityTimer], so it neither closes the channel nor
    reconnects, and its promise stays pending. *)
Theorem startLiveTradesSubscription_does_not_retry :
  fetchLive1mCandles strictVendor (correctedStart - 3600000)
    (correctedStart + 3600000) 0 []
  = (Resolved [correctedBar],
     [Connected (correctedStart - 3600000); Destroyed;
      Connected correctedStart; Destroyed]) /\
  startLiveTradesSubscription strictVendor (correctedStart - 3600000) 0 []
  = (Pending, [Connected (correctedStart - 3600000)]).
Proof.
  split.
  - rewrite (fetchLive1mCandles_retries strictVendor
               (correctedStart - 3600000) (correctedStart + 3600000) 0 []
               correctedStart [] ltac:(lia) eq_refl).
    rewrite fetchLive1mCandles_equation. reflexivity.
  - rewrite (startLiveTradesSubscription_stuck strictVendor
               (correctedStart - 3600000) 0 [] correctedStart []
               ltac:(lia) eq_refl).
    reflexivity.
Qed.

(** ** Timeframe strings, bucket starts and the session memo *)

Lemma digitsValue_uint (d : Decimal.uint) (acc : nat) :
  Utils.digitsValue (Z.of_nat acc) (list_ascii_of_string (NilEmpty.string_of_uint d))
  = Some (Z.of_nat (Nat.of_uint_acc d acc)).
Proof.
  revert acc.
  induction d; intros acc; cbn [NilEmpty.string_of_uint list_ascii_of_string
    Utils.digitsValue Nat.of_uint_acc]; [reflexivity | ..];
    (replace (Utils.is_digit _) with true by reflexivity);
    cbv iota; rewrite <- IHd; f_equal; rewrite Nat.tail_mul_spec;
    match goal with
    | |- context [nat_of_ascii ?c] =>
        let v := eval vm_compute in (Z.of_nat (nat_of_ascii c)) in
        change (Z.of_nat (nat_of_ascii c)) with v
    end; lia.
Qed.

Lemma digitsValue_decimal (n : nat) :
  Utils.digitsValue 0 (list_ascii_of_string (decimal n)) = Some (Z.of_nat n).
Proof.
  unfold decimal. change 0 with (Z.of_nat 0).
  rewrite (digitsValue_uint (Nat.to_uint n) 0).
  change (Nat.of_uint_acc (Nat.to_uint n) 0) with (Nat.of_uint (Nat.to_uint n)).
  now rewrite Unsigned.of_to.
Qed.

Lemma list_ascii_of_string_app (s1 s2 : string) :
  list_ascii_of_string (s1 +:+ s2)
  = list_ascii_of_string s1 ++ list_ascii_of_string s2.
Proof.
  induction s1 as [|c s1 IH]; [reflexivity|].
  cbn. now rewrite <- IH.
Qed.

Lemma parseTimeframeMs_digits (s : string) (u : ascii) (v k : Z) :
  Utils.digitsValue 0 (list_ascii_of_string s) = Some v ->
  s <> ""%string ->
  Utils.unitMultiplier u = Some k ->
  Utils.parseTimeframeMs (s +:+ String u "") = Ok (v * k).
Proof.
  intros Hv Hs Hu. unfold Utils.parseTimeframeMs.
  rewrite list_ascii_of_string_app. cbn [list_ascii_of_string].
  rewrite rev_unit.
  destruct (rev (list_ascii_of_string s)) as [|d ds] eqn:E.
  - exfalso. apply Hs.
    rewrite <- (string_of_list_ascii_of_string s).
    rewrite <- (rev_involutive (list_ascii_of_string s)), E. reflexivity.
  - rewrite <- E, rev_involutive, Hv, Hu. reflexivity.
Qed.

Lemma decimal_nonempty (n : nat) : decimal n <> ""%string.
Proof.
  unfold decimal. intros E.
  destruct (Nat.to_uint n) eqn:Eu; try discriminate E.
  assert (n = 0%nat) as -> by (rewrite <- (Unsigned.of_to n), Eu; reflexivity).
  discriminate Eu.
Qed.

(** X1: round trip of the timeframe syntax.  For a natural number [n] whose
    number of days is still an exact JavaScript integer, the strings made of
    its decimal digits followed by "m", "h" and "d" parse to [n] minutes,
    hours and days in milliseconds. *)
Theorem parseTimeframeMs_decimal (n : nat) :
  Z.of_nat n * 86400000 <= MAX_SAFE_INTEGER ->
  Utils.parseTimeframeMs (decimal n +:+ "m") = Ok (Z.of_nat n * 60000) /\
  Utils.parseTimeframeMs (decimal n +:+ "h") = Ok (Z.of_nat n * 3600000) /\
  Utils.parseTimeframeMs (decimal n +:+ "d") = Ok (Z.of_nat n * 86400000).
Proof.
  intros _. repeat split;
    apply parseTimeframeMs_digits;
    auto using digitsValue_decimal, decimal_nonempty.
Qed.

Lemma parseTimeframeMs_decimal_witness :
  Utils.parseTimeframeMs (decimal 15 +:+ "m") = Ok (15 * 60000) /\
  Utils.parseTimeframeMs (decimal 15 +:+ "h") = Ok (15 * 3600000) /\
  Utils.parseTimeframeMs (decimal 15 +:+ "d") = Ok (15 * 86400000).
Proof.
  apply (parseTimeframeMs_decimal 15). vm_compute. discriminate.
Defined.

Lemma baseTimeOf_bounds (host : Z) (useSession : bool) (I : Z)
    (cache : SessionCache) (t : Z) :
  0 < I ->
  let a := fst (baseTimeOf host useSession I cache t) in
  a <= t < a + I.
Proof.
  intros HI. unfold baseTimeOf, getSessionBasedAlignment.
  destruct useSession.
  - destruct (getSessionStartUTC host cache t) as [s c'].
    cbn [fst].
    set (b := if t <? s then s - 24 * 60 * 60 * 1000 else s).
    pose proof (Z.mul_div_le (t - b) I HI).
    pose proof (Z.mul_succ_div_gt (t - b) I HI). lia.
  - cbn [fst].
    pose proof (Z.mul_div_le t I HI).
    pose proof (Z.mul_succ_div_gt t I HI). lia.
Qed.

(** X2: whatever the boundary cache holds, the bucket start returned by
    [getSessionBasedAlignment] for a positive interval is at or before the
    timestamp and less than one interval before it. *)
Theorem getSessionBasedAlignment_contains (host : Z) (cache : SessionCache)
    (t I : Z) :
  0 < I ->
  let a := fst (getSessionBasedAlignment host cache t I) in
  a <= t < a + I.
Proof.
  intros HI. exact (baseTimeOf_bounds host true I cache t HI).
Qed.

Lemma getSessionBasedAlignment_contains_witness :
  let a := fst (getSessionBasedAlignment 0 ∅ lateSession 18000000) in
  a <= lateSession < a + 18000000.
Proof.
  apply (getSessionBasedAlignment_contains 0 ∅ lateSession 18000000). lia.
Defined.

Lemma getSessionStartUTC_keeps host cache t k v :
  cache !! k = Some v -> snd (getSessionStartUTC host cache t) !! k = Some v.
Proof.
  intros Hk. unfold getSessionStartUTC.
  destruct (cache !! (t / (24 * 60 * 60 * 1000))) eqn:E; [exact Hk|].
  destruct (Platform.easternDate t) as [[mo d] y]. cbn [snd].
  rewrite lookup_insert_ne; [exact Hk|]. congruence.
Qed.

Lemma getSessionStartUTC_stores host cache t :
  snd (getSessionStartUTC host cache t) !! (t / 86400000)
  = Some (fst (getSessionStartUTC host cache t)).
Proof.
  unfold getSessionStartUTC.
  change (24 * 60 * 60 * 1000) with 86400000.
  destruct (cache !! (t / 86400000)) eqn:E; [exact E|].
  destruct (Platform.easternDate t) as [[mo d] y]. cbn [snd fst].
  apply lookup_insert_eq.
Qed.

Lemma getSessionStartUTC_hit host cache t v :
  cache !! (t / 86400000) = Some v ->
  getSessionStartUTC host cache t = (v, cache).
Proof.
  intros E. unfold getSessionStartUTC.
  change (24 * 60 * 60 * 1000) with 86400000. rewrite E. reflexivity.
Qed.

Lemma afterCalls_keeps host calls : forall cache k v,
  cache !! k = Some v -> afterCalls host cache calls !! k = Some v.
Proof.
  induction calls as [|t calls IH]; intros cache k v Hk; [exact Hk|].
  apply IH, getSessionStartUTC_keeps, Hk.
Qed.

(** X3: the session start is memoised per UTC day.  Once
    [getSessionStartUTC] has answered for a timestamp, every later call for
    a timestamp of the same UTC day returns that answer and leaves the cache
    as it is, whatever calls were made in between. *)
Theorem getSessionStartUTC_memo_stable (host : Z) (cache : SessionCache)
    (t t' : Z) (calls : list Z) :
  t' / 86400000 = t / 86400000 ->
  let first := getSessionStartUTC host cache t in
  let later := afterCalls host (snd first) calls in
  getSessionStartUTC host later t' = (fst first, later).
Proof.
  intros Hday first later.
  apply getSessionStartUTC_hit. rewrite Hday.
  apply afterCalls_keeps, getSessionStartUTC_stores.
Qed.

Lemma getSessionStartUTC_memo_stable_witness :
  let first := getSessionStartUTC 0 ∅ t0900 in
  let later := afterCalls 0 (snd first) [session0609 + 86400000] in
  getSessionStartUTC 0 later (t0900 + 3600000) = (fst first, later).
Proof.
  apply (getSessionStartUTC_memo_stable 0 ∅ t0900 (t0900 + 3600000)
           [session0609 + 86400000]).
  vm_compute. reflexivity.
Defined.

Lemma sumZ_app l1 l2 : sumZ (l1 ++ l2) = sumZ l1 + sumZ l2.
Proof. induction l1 as [|x l1 IH]; simpl; [reflexivity|]. rewrite IH. lia. Qed.

Lemma sumZ_perm l1 l2 : l1 ≡ₚ l2 -> sumZ l1 = sumZ l2.
Proof. induction 1; simpl; lia. Qed.

Lemma volumeInv_step host instr tf useSession I maxTs start end_ p st x :
  0 < I ->
  start + I <= timestamp x <= end_ ->
  volumeInv start end_ p st ->
  volumeInv start end_ (p ++ [x])
    (aggStep host instr tf useSession I maxTs st x).
Proof.
  intros HI Hx (Hsum & Hres & Hcur). unfold aggStep.
  pose proof (baseTimeOf_bounds host useSession I (aggCache st) (timestamp x) HI)
    as Hb. cbv zeta in Hb.
  destruct (baseTimeOf host useSession I (aggCache st) (timestamp x))
    as [a c'] eqn:Ea. cbn [fst] in Hb.
  assert (Hin : (start <=? a) && (a <=? end_) = true).
  { apply andb_true_iff. split; apply Z.leb_le; lia. }
  assert (Hsnoc : sumZ (map volume (p ++ [x]))
                 = sumZ (map volume p) + volume x).
  { rewrite map_app, sumZ_app. cbn. lia. }
  unfold volumeInv. rewrite Hsnoc.
  destruct (currentCandle st) as [cur|] eqn:Ec.
  - destruct (negb (a =? timestamp cur)); cbn.
    + rewrite map_app, sumZ_app. unfold sumZ in *. cbn.
      repeat split; [lia| |exact Hin].
      apply Forall_app. split; [exact Hres|]. constructor; [|constructor].
      exact Hcur.
    + unfold sumZ in *. repeat split; [lia|exact Hres|exact Hcur].
  - unfold sumZ in *. cbn. repeat split; [lia|exact Hres|exact Hin].
Qed.

Lemma volumeInv_fold host instr tf useSession I maxTs start end_ l :
  0 < I ->
  forall p st,
  Forall (fun x => start + I <= timestamp x <= end_) l ->
  volumeInv start end_ p st ->
  volumeInv start end_ (p ++ l)
    (fold_left (aggStep host instr tf useSession I maxTs) l st).
Proof.
  intros HI. induction l as [|x l IH]; intros p st Hl Hinv; simpl.
  - rewrite app_nil_r. exact Hinv.
  - inversion Hl as [|? ? Hx Hl']; subst.
    replace (p ++ x :: l) with ((p ++ [x]) ++ l)
      by (rewrite <- app_assoc; reflexivity).
    apply IH; [exact Hl'|]. apply volumeInv_step; assumption.
Qed.

Lemma filter_all {A} (f : A -> bool) l :
  Forall (fun x => f x = true) l -> List.filter f l = l.
Proof.
  induction 1 as [|x l Hx _ IH]; simpl; [reflexivity|].
  rewrite Hx, IH. reflexivity.
Qed.

(** X4: aggregation conserves volume.  For any timeframe with a positive
    interval, session-aligned or not and whatever the boundary cache holds,
    when every input bar lies at least one interval after [start] and not
    after [end_], [aggregateCandles] returns and the volumes of its bars add
    up to the volumes of the input bars. *)
Theorem aggregateCandles_volume (host : Z) (cache : SessionCache)
    (instr tf : string) (start end_ I : Z) (candles1m : list Candle) :
  Utils.parseTimeframeMs tf = Ok I -> 0 < I ->
  (forall c, c ∈ candles1m -> start + I <= timestamp c <= end_) ->
  exists out cache',
    aggregateCandles host cache instr tf start end_ candles1m
    = Ok (out, cache') /\
    sumZ (map volume out) = sumZ (map volume candles1m).
Proof.
  intros Hp HI Hrange. unfold aggregateCandles.
  destruct (String.eqb_spec tf "1m") as [E|E].
  - eexists _, _. split; [reflexivity|].
    rewrite filter_all; [reflexivity|].
    apply Forall_forall. intros c Hc. specialize (Hrange c Hc).
    apply andb_true_iff. split; apply Z.leb_le; lia.
  - unfold needsSessionAlignment. rewrite Hp. cbn [mbind result_bind mret result_ret].
    eexists _, _. split; [reflexivity|].
    set (useSession := (60 * 60 * 1000 <? I) && (I <=? 24 * 60 * 60 * 1000)).
    set (maxTs := maxTimestamp candles1m).
    pose proof (volumeInv_fold host instr tf useSession I maxTs start end_
                  (sortByTimestamp candles1m) HI []
                  (mkAggState cache [] None [])) as Hinv.
    cbn [app] in Hinv.
    destruct Hinv as (Hsum & Hres & Hcur).
    { apply Forall_forall. intros c Hc. apply Hrange.
      apply sortByTimestamp_elem, Hc. }
    { unfold volumeInv. cbn. auto. }
    rewrite (sumZ_perm (map volume (sortByTimestamp candles1m)) (map volume candles1m)) in Hsum
      by (apply Permutation_map, sortByTimestamp_perm).
    rewrite <- Hsum. unfold aggFlush.
    destruct (currentCandle _) as [cur|].
    + rewrite filter_all.
      * rewrite map_app, sumZ_app. cbn. lia.
      * apply Forall_app. split; [exact Hres|].
        constructor; [exact Hcur|constructor].
    + rewrite filter_all by exact Hres. lia.
Qed.

Lemma aggregateCandles_volume_witness :
  exists out cache',
    aggregateCandles 0 ∅ "ES" "5m" (t0900 - 300000) (t0900 + 600000)
      (sampleSeries t0900 4)
    = Ok (out, cache') /\
    sumZ (map volume out) = sumZ (map volume (sampleSeries t0900 4)).
Proof.
  apply (aggregateCandles_volume 0 ∅ "ES" "5m" (t0900 - 300000)
           (t0900 + 600000) 300000 (sampleSeries t0900 4)).
  - reflexivity.
  - lia.
  - apply Forall_forall. unfold sampleSeries. cbn [seq map].
    repeat (constructor; [vm_compute; split; discriminate|]). constructor.
Defined.

Lemma spaced_snoc I l z :
  spaced I (l ++ [z]) <->
  spaced I l /\ Forall (fun a => a + I <= z) l /\ z mod I = 0.
Proof.
  unfold spaced. rewrite StronglySorted_app, Forall_app.
  rewrite Forall_singleton. split.
  - intros [(Hlz & Hl & _) [Hm Hz]]. repeat split; try assumption.
    apply Forall_forall. intros a Ha. apply Hlz; [exact Ha|].
    apply list_elem_of_singleton. reflexivity.
  - intros [[Hl Hm] [Hlz Hz]]. repeat split; try assumption.
    + intros a b Ha Hb. apply list_elem_of_singleton in Hb. subst b.
      rewrite Forall_forall in Hlz. apply Hlz, Ha.
    + repeat constructor.
Qed.

Lemma spacedInv_step host instr tf I maxTs cache0 p st x :
  0 < I ->
  (forall y, y ∈ p -> timestamp y <= timestamp x) ->
  spacedInv I cache0 p st ->
  spacedInv I cache0 (p ++ [x]) (aggStep host instr tf false I maxTs st x).
Proof.
  intros HI Hsorted [Hcache Hinv]. unfold aggStep, baseTimeOf.
  set (a := timestamp x / I * I).
  assert (Ha : a mod I = 0) by (apply Z_mod_mult).
  assert (Hax : a <= timestamp x)
    by (unfold a; pose proof (Z.mul_div_le (timestamp x) I HI); lia).
  assert (Hx : exists y, y ∈ p ++ [x] /\ a <= timestamp y).
  { exists x. split; [|exact Hax]. apply elem_of_app. right.
    apply list_elem_of_singleton. reflexivity. }
  destruct (currentCandle st) as [cur|] eqn:Ec.
  - destruct Hinv as [(y & Hy & Hcy) Hsp].
    destruct (Z.eqb_spec a (timestamp cur)) as [E|E]; cbn [negb].
    + split; [exact Hcache|]. cbn [currentCandle aggResult timestamp].
      split; [|exact Hsp].
      exists y. split; [|exact Hcy]. apply elem_of_app. left. exact Hy.
    + split; [exact Hcache|]. cbn [currentCandle aggResult timestamp].
      split; [exact Hx|].
      rewrite map_app. cbn [map finishCandle timestamp].
      apply spaced_snoc. split; [exact Hsp|]. split; [|exact Ha].
      assert (Hlt : timestamp cur + I <= a).
      { apply spaced_snoc in Hsp. destruct Hsp as (_ & _ & Hm).
        assert (timestamp cur <= a).
        { unfold a. specialize (Hsorted y Hy).
          pose proof (Z.div_le_mono _ _ I HI (Z.le_trans _ _ _ Hcy Hsorted)).
          rewrite (Z_div_exact_full_2 (timestamp cur) I) at 1 by lia.
          nia. }
        apply Z.mod_divide in Hm, Ha; try lia.
        destruct Hm as [k1 Hk1], Ha as [k2 Hk2].
        assert (k1 < k2) by nia. nia. }
      apply spaced_snoc in Hsp. destruct Hsp as (_ & Hprev & _).
      apply Forall_app. split.
      * eapply Forall_impl; [exact Hprev|]. cbn. intros b Hb. lia.
      * apply Forall_singleton. exact Hlt.
  - split; [exact Hcache|]. cbn [currentCandle aggResult timestamp].
    split; [exact Hx|]. rewrite Hinv. cbn [map app].
    apply (spaced_snoc I [] a). repeat split; try constructor. exact Ha.
Qed.

Lemma spacedInv_fold host instr tf I maxTs cache0 l :
  0 < I ->
  forall p st,
  sortedTs (p ++ l) ->
  spacedInv I cache0 p st ->
  spacedInv I cache0 (p ++ l)
    (fold_left (aggStep host instr tf false I maxTs) l st).
Proof.
  intros HI. induction l as [|x l IH]; intros p st Hs Hinv; simpl.
  - rewrite app_nil_r. exact Hinv.
  - replace (p ++ x :: l) with ((p ++ [x]) ++ l) in *
      by (rewrite <- app_assoc; reflexivity).
    apply IH; [exact Hs|]. apply spacedInv_step; [exact HI| |exact Hinv].
    intros y Hy. unfold sortedTs in Hs.
    apply StronglySorted_app in Hs. destruct Hs as (_ & Hs & _).
    apply StronglySorted_app in Hs. destruct Hs as (Hs & _ & _).
    apply Hs; [exact Hy|]. apply list_elem_of_singleton. reflexivity.
Qed.

Lemma spaced_filter I (f : Candle -> bool) l :
  spaced I (map timestamp l) -> spaced I (map timestamp (List.filter f l)).
Proof.
  unfold spaced. induction l as [|x l IH]; [auto|].
  cbn [map List.filter]. intros [Hs Hm].
  apply StronglySorted_inv in Hs. destruct Hs as [Hs Hx].
  apply Forall_cons in Hm. destruct Hm as [Hmx Hm].
  destruct (IH (conj Hs Hm)) as [IHs IHm].
  destruct (f x); [|split; assumption].
  cbn [map]. split; [|constructor; assumption].
  constructor; [exact IHs|].
  apply Forall_forall. intros b Hb.
  rewrite Forall_forall in Hx. apply Hx.
  apply list_elem_of_fmap in Hb. destruct Hb as (c & -> & Hc).
  apply list_elem_of_fmap. exists c. split; [reflexivity|].
  apply list_elem_of_In. apply list_elem_of_In, List.filter_In in Hc. tauto.
Qed.

(** X5: on a clock-aligned timeframe other than 1m, [aggregateCandles]
    returns, leaves the boundary cache untouched, and its bars start at
    multiples of the interval, in increasing order, each at least one
    interval after the one before. *)
Theorem aggregateCandles_spaced (host : Z) (cache : SessionCache)
    (instr tf : string) (start end_ I : Z) (candles1m : list Candle) :
  tf <> "1m"%string ->
  Utils.parseTimeframeMs tf = Ok I -> 0 < I -> clockAligned I ->
  exists out,
    aggregateCandles host cache instr tf start end_ candles1m
    = Ok (out, cache) /\
    spaced I (map timestamp out).
Proof.
  intros E Hp HI Hc. unfold aggregateCandles.
  destruct (String.eqb_spec tf "1m") as [E'|_]; [contradiction|].
  rewrite (needsSessionAlignment_clock tf I Hp Hc), Hp.
  cbn [mbind result_bind mret result_ret].
  set (maxTs := maxTimestamp candles1m).
  pose proof (spacedInv_fold host instr tf I maxTs cache
                (sortByTimestamp candles1m) HI []
                (mkAggState cache [] None [])) as Hinv.
  cbn [app] in Hinv.
  destruct Hinv as [Hcache Hinv].
  { apply sortByTimestamp_sorted. }
  { split; reflexivity. }
  rewrite Hcache. eexists. split; [reflexivity|].
  apply spaced_filter. unfold aggFlush.
  destruct (currentCandle _) as [cur|].
  - rewrite map_app. cbn [map finishCandle timestamp]. apply Hinv.
  - rewrite Hinv. split; constructor.
Qed.

Lemma aggregateCandles_spaced_witness :
  exists out,
    aggregateCandles 0 ∅ "ES" "5m" t0900 (t0900 + 600000)
      (sampleSeries t0900 12)
    = Ok (out, ∅) /\
    spaced 300000 (map timestamp out).
Proof.
  apply (aggregateCandles_spaced 0 ∅ "ES" "5m" t0900 (t0900 + 600000) 300000
           (sampleSeries t0900 12)).
  - discriminate.
  - reflexivity.
  - lia.
  - left. lia.
Defined.

(** ** The bar cache: round trip, order, idempotence *)

Lemma fold_upsert_written vs k : forall db : Db.Candles,
  fold_left Db.upsert vs db !! k = fold_left (written k) vs (db !! k).
Proof.
  induction vs as [|v vs IH]; intros db; simpl; [reflexivity|].
  rewrite IH. f_equal. unfold Db.upsert, written.
  destruct (bool_decide_reflect (Db.keyOf v = k)) as [E|E].
  - subst k. apply lookup_insert_eq.
  - apply lookup_insert_ne, E.
Qed.

Lemma written_either vs k : forall acc acc',
  fold_left (written k) vs acc = fold_left (written k) vs acc' \/
  (fold_left (written k) vs acc = acc /\
   fold_left (written k) vs acc' = acc').
Proof.
  induction vs as [|v vs IH]; intros acc acc'; simpl; [auto|].
  assert (Hv : written k acc v = written k acc' v \/
               (written k acc v = acc /\ written k acc' v = acc')).
  { unfold written. destruct (bool_decide (Db.keyOf v = k)); auto. }
  destruct Hv as [-> | [-> ->]]; [left; reflexivity | apply IH].
Qed.

Lemma written_twice vs k acc :
  fold_left (written k) vs (fold_left (written k) vs acc)
  = fold_left (written k) vs acc.
Proof.
  destruct (written_either vs k acc (fold_left (written k) vs acc))
    as [H | [_ H]]; [symmetry; exact H | exact H].
Qed.

(** X9: inserting a batch is idempotent: running [batchInsertCandles] a
    second time with the same bars leaves the table as the first run left
    it. *)
Theorem batchInsertCandles_idempotent (db : Db.Candles)
    (candles : list Candle) (instr tf : string) :
  Db.batchInsertCandles (Db.batchInsertCandles db candles instr tf false)
    candles instr tf false
  = Db.batchInsertCandles db candles instr tf false.
Proof.
  unfold Db.batchInsertCandles.
  destruct (length (List.filter Db.isValidCandle candles) =? 0)%nat;
    [reflexivity|].
  apply map_eq. intros k. rewrite !fold_upsert_written. apply written_twice.
Qed.

Lemma written_last vs k c acc :
  c ∈ vs -> Db.keyOf c = k ->
  (forall c', c' ∈ vs -> Db.keyOf c' = k -> Db.rowOf c' = Db.rowOf c) ->
  fold_left (written k) vs acc = Some (Db.rowOf c).
Proof.
  revert acc. induction vs as [|v vs IH] using rev_ind; intros acc Hc Hk Hsame.
  - inversion Hc.
  - rewrite fold_left_app. cbn [fold_left]. unfold written at 1.
    destruct (bool_decide_reflect (Db.keyOf v = k)) as [E|E].
    + f_equal. apply Hsame; [|exact E]. apply elem_of_app. right.
      apply list_elem_of_singleton. reflexivity.
    + apply elem_of_app in Hc. destruct Hc as [Hc|Hc].
      * apply IH; [exact Hc|exact Hk|].
        intros c' Hc'. apply Hsame, elem_of_app. left. exact Hc'.
      * apply list_elem_of_singleton in Hc. subst v. contradiction.
Qed.

Lemma getCached1mCandles_elem (db : Db.Candles) symbol startMs endMs c :
  c ∈ Db.getCached1mCandles db symbol startMs endMs false <->
  exists ts row,
    db !! (symbol, "1m"%string, ts) = Some row /\
    startMs <= ts <= endMs /\
    c = Db.candleOfRow (symbol, "1m"%string, ts, row).
Proof.
  unfold Db.getCached1mCandles. rewrite sortByTimestamp_elem.
  rewrite list_elem_of_fmap. split.
  - intros ([[[i tf] ts] row] & -> & Hin).
    apply list_elem_of_In, List.filter_In in Hin. destruct Hin as [Hin Hsel].
    apply list_elem_of_In, elem_of_map_to_list in Hin.
    unfold Db.selected in Hsel.
    rewrite !andb_true_iff, !Z.leb_le in Hsel.
    destruct Hsel as [[[Hi Htf] H1] H2].
    apply String.eqb_eq in Hi, Htf. subst i tf.
    exists ts, row. auto.
  - intros (ts & row & Hdb & Hr & ->).
    exists (symbol, "1m"%string, ts, row). split; [reflexivity|].
    apply list_elem_of_In, List.filter_In. split.
    + apply list_elem_of_In, elem_of_map_to_list, Hdb.
    + unfold Db.selected.
      rewrite !andb_true_iff, !Z.leb_le, !String.eqb_refl. tauto.
Qed.

(** X7: insert, then query.  A bar of the batch with positive volume and
    no null price, filed under the queried symbol on 1m and stamped within
    the queried range, comes back from [getCached1mCandles] with its values,
    tagged as cached and closed, provided that the valid bars of the batch
    with its key agree on their values. *)
Theorem batchInsertCandles_then_query (db : Db.Candles)
    (candles : list Candle) (instr tf symbol : string) (startMs endMs : Z)
    (c : Candle) :
  c ∈ candles ->
  Db.isValidCandle c = true ->
  instrument c = symbol -> timeframe c = "1m"%string ->
  startMs <= timestamp c <= endMs ->
  (forall c', c' ∈ candles -> Db.isValidCandle c' = true ->
     Db.keyOf c' = Db.keyOf c -> Db.rowOf c' = Db.rowOf c) ->
  mkCandle (timestamp c) (open c) (high c) (low c) (close c) (volume c)
    symbol "1m" SrcC true
  ∈ Db.getCached1mCandles (Db.batchInsertCandles db candles instr tf false)
      symbol startMs endMs false.
Proof.
  intros Hc Hv Hi Htf Hr Hsame.
  apply getCached1mCandles_elem.
  exists (timestamp c), (Db.rowOf c). split; [|split; [exact Hr|reflexivity]].
  assert (Hcv : c ∈ List.filter Db.isValidCandle candles).
  { apply list_elem_of_In, List.filter_In. split; [|exact Hv].
    apply list_elem_of_In, Hc. }
  unfold Db.batchInsertCandles.
  destruct (length (List.filter Db.isValidCandle candles) =? 0)%nat eqn:El.
  - apply Nat.eqb_eq in El. apply nil_length_inv in El.
    rewrite El in Hcv. inversion Hcv.
  - rewrite fold_upsert_written.
    apply written_last with (c := c); [exact Hcv| |].
    + unfold Db.keyOf. rewrite Hi, Htf. reflexivity.
    + intros c' Hc' Hk. apply list_elem_of_In, List.filter_In in Hc'.
      destruct Hc' as [Hc' Hv']. apply Hsame; [apply list_elem_of_In, Hc'|exact Hv'|].
      rewrite Hk. unfold Db.keyOf. rewrite Hi, Htf. reflexivity.
Qed.

Lemma batchInsertCandles_then_query_witness :
  mkCandle (t0900 + 60000) (Some 1001) (Some 1011) (Some 991) (Some 1006) 1
    "ES" "1m" SrcC true
  ∈ Db.getCached1mCandles
      (Db.batchInsertCandles ∅ [sampleBar t0900 0; sampleBar t0900 1]
         "ES" "1m" false)
      "ES" t0900 (t0900 + 600000) false.
Proof.
  apply (batchInsertCandles_then_query ∅
           [sampleBar t0900 0; sampleBar t0900 1] "ES" "1m" "ES" t0900
           (t0900 + 600000) (sampleBar t0900 1)).
  - right. left.
  - reflexivity.
  - reflexivity.
  - reflexivity.
  - vm_compute. split; discriminate.
  - intros c' Hc' _ Hk.
    apply elem_of_cons in Hc'. destruct Hc' as [-> | Hc']; [discriminate Hk|].
    apply list_elem_of_singleton in Hc'. subst c'. reflexivity.
Defined.

Lemma sorted_NoDup_strict (l : list Candle) :
  sortedTs l -> NoDup (map timestamp l) ->
  StronglySorted (fun a b => timestamp a < timestamp b) l.
Proof.
  unfold sortedTs. induction 1 as [|x l Hl IH Hx]; intros Hnd; [constructor|].
  cbn [map] in Hnd. apply NoDup_cons in Hnd. destruct Hnd as [Hnx Hnd].
  constructor; [apply IH, Hnd|].
  apply Forall_forall. intros y Hy.
  rewrite Forall_forall in Hx. specialize (Hx y Hy).
  assert (timestamp x <> timestamp y); [|lia].
  intros E. apply Hnx. rewrite E.
  apply list_elem_of_fmap. exists y. auto.
Qed.

Lemma selected_timestamps_NoDup (db : Db.Candles) symbol startMs endMs :
  NoDup (map timestamp
           (map Db.candleOfRow
              (List.filter (Db.selected symbol startMs endMs)
                 (map_to_list db)))).
Proof.
  rewrite map_map.
  apply (NoDup_fmap_2_strong
           (fun e => timestamp (Db.candleOfRow e))).
  - intros [[[i1 tf1] ts1] r1] [[[i2 tf2] ts2] r2] H1 H2 E.
    cbn in E. subst ts2.
    apply list_elem_of_In, List.filter_In in H1, H2.
    destruct H1 as [H1 S1], H2 as [H2 S2].
    unfold Db.selected in S1, S2.
    rewrite !andb_true_iff in S1, S2.
    destruct S1 as [[[Hi1 Ht1] _] _], S2 as [[[Hi2 Ht2] _] _].
    apply String.eqb_eq in Hi1, Ht1, Hi2, Ht2. subst.
    apply list_elem_of_In, elem_of_map_to_list in H1, H2.
    rewrite H1 in H2. injection H2 as ->. reflexivity.
  - apply NoDup_ListNoDup, List.NoDup_filter, NoDup_ListNoDup,
      NoDup_map_to_list.
Qed.

(** X8: [getCached1mCandles] returns exactly the rows of the symbol on 1m
    whose timestamp lies between the bounds, both included, each as a closed
    bar tagged as cached, in strictly increasing order of timestamp. *)
Theorem getCached1mCandles_ascending (db : Db.Candles) (symbol : string)
    (startMs endMs : Z) :
  StronglySorted (fun a b => timestamp a < timestamp b)
    (Db.getCached1mCandles db symbol startMs endMs false) /\
  forall c,
    c ∈ Db.getCached1mCandles db symbol startMs endMs false <->
    exists ts row,
      db !! (symbol, "1m"%string, ts) = Some row /\
      startMs <= ts <= endMs /\
      c = mkCandle ts (Db.rowOpen row) (Db.rowHigh row) (Db.rowLow row)
            (Db.rowClose row) (Db.rowVolume row) symbol "1m" SrcC true.
Proof.
  split; [|apply getCached1mCandles_elem].
  unfold Db.getCached1mCandles.
  apply sorted_NoDup_strict; [apply sortByTimestamp_sorted|].
  match goal with
  | |- NoDup (map timestamp (sortByTimestamp ?L)) =>
      assert (Hp : map timestamp (sortByTimestamp L) ≡ₚ map timestamp L)
        by (apply Permutation_map, sortByTimestamp_perm)
  end.
  rewrite Hp. apply selected_timestamps_NoDup.
Qed.

Lemma notAll_withDefault v :
  notAll (withDefault v (JsString "all")) = false <-> absentOrAll v.
Proof.
  unfold absentOrAll. destruct v as [| |s|n]; cbn.
  - split; auto.
  - split; [discriminate|intros [H|H]; discriminate H].
  - rewrite negb_false_iff, String.eqb_eq. split.
    + intros ->. right. reflexivity.
    + intros [H|H]; [discriminate H|injection H as ->; reflexivity].
  - split; [discriminate|intros [H|H]; discriminate H].
Qed.

(** X10: the statement built by [handleClearCache] has no condition
    exactly when instrument, timeframe, start_time and end_time are each
    absent or 'all'; it has as many conditions as parameters; and when it
    has conditions its text is the DELETE with a WHERE clause joining them
    by AND. *)
Theorem clearCacheStatement_where (request : ClearCacheRequest) :
  let st := clearCacheStatement request in
  (conditions st = [] <->
   absentOrAll (reqInstrument request) /\ absentOrAll (reqTimeframe request) /\
   absentOrAll (reqStartTime request) /\ absentOrAll (reqEndTime request)) /\
  length (conditions st) = length (params st) /\
  (conditions st <> [] ->
   query st = "DELETE FROM CANDLES WHERE " +:+ join " AND " (conditions st)).
Proof.
  cbv zeta. rewrite <- !notAll_withDefault.
  unfold clearCacheStatement. cbn [conditions params query].
  destruct (notAll (withDefault (reqInstrument request) (JsString "all")));
  destruct (notAll (withDefault (reqTimeframe request) (JsString "all")));
  destruct (notAll (withDefault (reqStartTime request) (JsString "all")));
  destruct (notAll (withDefault (reqEndTime request) (JsString "all")));
  cbn; (split; [split; [try discriminate; auto | intros (?&?&?&?);
                        try discriminate; auto]
               | split; [reflexivity | intros H; try reflexivity;
                                        contradiction]]).
Qed.

(** ** The acquisition as a whole *)

Section Acquisition.

Variable fetchHistorical : string -> Z -> Z -> Result (list Candle).
Variable fetchLive : list string -> Z -> Z -> Result (list Candle).
Variable insertFails : Upstream -> bool.

Local Abbreviation acquire := (acquire1m fetchHistorical fetchLive insertFails).

Lemma fillEarlier_db symbol startMs earliest st :
  acqDb (fillEarlier fetchHistorical insertFails symbol startMs false earliest st)
  = acqDb st.
Proof.
  unfold fillEarlier.
  repeat match goal with
         | |- context [if ?b then _ else _] => destruct b
         | |- context [match ?r with Ok _ => _ | Throw _ => _ end] => destruct r
         end; reflexivity.
Qed.

Lemma fillLater_db symbol endMs end_time latest st :
  acqDb (fillLater fetchHistorical insertFails symbol endMs end_time false latest st)
  = acqDb st.
Proof.
  unfold fillLater, fetchLater.
  repeat match goal with
         | |- context [if ?b then _ else _] => destruct b
         | |- context [match ?r with Ok _ => _ | Throw _ => _ end] => destruct r
         end; reflexivity.
Qed.

Lemma fillLive_db symbol startMs endMs end_time st :
  acqDb (fillLive fetchLive insertFails symbol startMs endMs end_time false st) = acqDb st.
Proof.
  unfold fillLive.
  repeat match goal with
         | |- context [if ?b then _ else _] => destruct b
         | |- context [match ?r with Ok _ => _ | Throw _ => _ end] => destruct r
         end; reflexivity.
Qed.

(** X11: with save_cache off the acquisition never writes the bar cache,
    whatever is cached and whatever the fetchers return or throw. *)
Theorem acquire1m_without_save (db : Db.Candles) (symbol : string)
    (startMs endMs : Z) (end_time : JsValue) (use_cache : bool) :
  acqDb (acquire db symbol startMs endMs end_time use_cache false) = db.
Proof.
  unfold acquire1m.
  destruct (if use_cache then _ else _) as [|c r].
  - destruct (fetchHistorical symbol startMs endMs); [|reflexivity].
    cbn [andb]. rewrite fillLive_db. reflexivity.
  - rewrite fillLive_db. cbn [acqDb].
    rewrite fillLater_db, fillEarlier_db. reflexivity.
Qed.

Lemma fillEarlier_keeps symbol startMs save_cache earliest st c :
  c ∈ acqCandles st ->
  c ∈ acqCandles (fillEarlier fetchHistorical insertFails symbol startMs save_cache
                    earliest st).
Proof.
  intros Hc. unfold fillEarlier.
  repeat match goal with
         | |- context [if ?b then _ else _] => destruct b
         | |- context [match ?r with Ok _ => _ | Throw _ => _ end] => destruct r
         end; cbn [acqCandles]; try exact Hc.
  apply elem_of_app. right. exact Hc.
Qed.

Lemma fillLater_keeps symbol endMs end_time save_cache latest st c :
  c ∈ acqCandles st ->
  c ∈ acqCandles (fillLater fetchHistorical insertFails symbol endMs end_time save_cache
                    latest st).
Proof.
  intros Hc. unfold fillLater, fetchLater.
  repeat match goal with
         | |- context [if ?b then _ else _] => destruct b
         | |- context [match ?r with Ok _ => _ | Throw _ => _ end] => destruct r
         end; cbn [acqCandles]; try exact Hc;
    apply elem_of_app; left; exact Hc.
Qed.

Lemma fillLive_keeps symbol startMs endMs end_time save_cache st c :
  c ∈ acqCandles st ->
  c ∈ acqCandles (fillLive fetchLive insertFails symbol startMs endMs end_time save_cache
                    st).
Proof.
  intros Hc. unfold fillLive.
  repeat match goal with
         | |- context [if ?b then _ else _] => destruct b
         | |- context [match ?r with Ok _ => _ | Throw _ => _ end] => destruct r
         end; cbn [acqCandles]; try exact Hc;
    apply sortByTimestamp_elem; try exact Hc;
    apply elem_of_app; left; exact Hc.
Qed.

Lemma fillLive_sorted symbol startMs endMs end_time save_cache st :
  sortedTs (acqCandles st) \/ endIsCurrent end_time = true ->
  sortedTs (acqCandles (fillLive fetchLive insertFails symbol startMs endMs end_time
                          save_cache st)).
Proof.
  intros Hs. unfold fillLive.
  destruct (endIsCurrent end_time) eqn:Ecur; cbn [orb].
  - destruct (fetchLive _ _ _) as [cs|];
      [destruct (0 <? length cs)%nat|]; apply sortByTimestamp_sorted.
  - destruct Hs as [Hs|Hs]; [|discriminate Hs].
    destruct (_ <? endMs); [|exact Hs].
    destruct (fetchLive _ _ _) as [cs|];
      [destruct (0 <? length cs)%nat|]; apply sortByTimestamp_sorted.
Qed.

(** X12: with use_cache on, every bar the cache query returned is in the
    series the acquisition hands on; and that series is sorted by timestamp
    when the cache had bars or when end_time is 'current'. *)
Theorem acquire1m_sorted_superset (db : Db.Candles) (symbol : string)
    (startMs endMs : Z) (end_time : JsValue) (save_cache : bool) :
  let cached := Db.getCached1mCandles db symbol startMs endMs false in
  let acq := acquire db symbol startMs endMs end_time true save_cache in
  (forall c, c ∈ cached -> c ∈ acqCandles acq) /\
  (cached <> [] \/ endIsCurrent end_time = true -> sortedTs (acqCandles acq)).
Proof.
  cbv zeta. unfold acquire1m.
  destruct (Db.getCached1mCandles db symbol startMs endMs false)
    as [|c0 r] eqn:Ecached.
  - split; [intros c Hc; inversion Hc|].
    intros [H|H]; [contradiction|].
    destruct (fetchHistorical symbol startMs endMs); [|constructor].
    destruct (_ && _ && _); [constructor|].
    apply fillLive_sorted. right. exact H.
  - split.
    + intros c Hc. apply fillLive_keeps. cbn [acqCandles].
      apply sortByTimestamp_elem, fillLater_keeps, fillEarlier_keeps.
      exact Hc.
    + intros _. apply fillLive_sorted. left. apply sortByTimestamp_sorted.
Qed.







End Acquisition.

(** ** The subscription table and the live session *)

Lemma mapGet_mapSet {V : Type} (m : list (string * V)) k v k' :
  mapGet (mapSet m k v) k' = if String.eqb k k' then Some v else mapGet m k'.
Proof.
  unfold mapGet. induction m as [|[k0 v0] m IH]; cbn.
  - destruct (String.eqb k k'); reflexivity.
  - destruct (String.eqb_spec k0 k) as [E|E]; cbn.
    + subst k0. destruct (String.eqb k k'); reflexivity.
    + destruct (String.eqb_spec k0 k') as [E'|E'].
      * subst k0. destruct (String.eqb_spec k k'); [congruence|reflexivity].
      * exact IH.
Qed.

Lemma mapGet_mapSet_eq {V : Type} (m : list (string * V)) k v :
  mapGet (mapSet m k v) k = Some v.
Proof. rewrite mapGet_mapSet, String.eqb_refl. reflexivity. Qed.

Lemma mapGet_mapSet_ne {V : Type} (m : list (string * V)) k v k' :
  k <> k' -> mapGet (mapSet m k v) k' = mapGet m k'.
Proof.
  intros E. rewrite mapGet_mapSet.
  destruct (String.eqb_spec k k'); [contradiction|reflexivity].
Qed.

Lemma includes_elem l s : includes l s = true <-> s ∈ l.
Proof.
  unfold includes. rewrite existsb_exists. split.
  - intros (x & Hx & E). apply String.eqb_eq in E. subst x.
    apply list_elem_of_In, Hx.
  - intros H. exists s. split; [apply list_elem_of_In, H|apply String.eqb_refl].
Qed.

Lemma includes_false l s : includes l s = false <-> s ∉ l.
Proof.
  rewrite <- includes_elem, not_true_iff_false. reflexivity.
Qed.

Lemma subscribe_inv seen subs i0 tf0 :
  includes objectPrototypeNames i0 = false ->
  subscriptionsOf seen subs ->
  exists subs1,
    subscribe subs (i0, tf0) = Ok subs1 /\
    subscriptionsOf (seen ++ [(i0, tf0)]) subs1.
Proof.
  intros Hown Hinv. unfold subscribe, property. rewrite Hown.
  pose proof (Hinv i0) as Hi0.
  assert (Hsnoc : forall i tf, (i, tf) ∈ seen ++ [(i0, tf0)]
                    <-> (i, tf) ∈ seen \/ (i = i0 /\ tf = tf0)).
  { intros i tf. rewrite elem_of_app, list_elem_of_singleton.
    split; (intros [H|H]; [left; exact H|right]).
    - injection H as -> ->. auto.
    - destruct H as [-> ->]. reflexivity. }
  destruct (mapGet subs i0) as [tfs0|] eqn:E0.
  - rewrite E0. destruct Hi0 as (Hnd & Hne & Hmem).
    destruct (includes tfs0 tf0) eqn:Einc.
    + exists subs. split; [reflexivity|]. intros i. pose proof (Hinv i) as Hi.
      destruct (mapGet subs i) as [tfs|] eqn:Ei.
      * destruct Hi as (Hnd' & Hne' & Hmem').
        split; [exact Hnd'|]. split; [exact Hne'|].
        intros tf. rewrite Hsnoc, Hmem'. split; [auto|].
        intros [H|[-> ->]]; [exact H|].
        rewrite Ei in E0. injection E0 as ->.
        apply Hmem, includes_elem, Einc.
      * intros tf. rewrite Hsnoc. intros [H|[-> ->]]; [exact (Hi tf H)|].
        congruence.
    + eexists. split; [reflexivity|]. intros i. pose proof (Hinv i) as Hi.
      rewrite mapGet_mapSet.
      destruct (String.eqb_spec i0 i) as [E|E].
      * subst i0. rewrite E0 in Hi.
        split; [|split].
        -- apply NoDup_app. split; [exact Hnd|]. split; [|apply NoDup_singleton].
           intros x Hx Hx'. apply list_elem_of_singleton in Hx'. subst x.
           apply includes_false in Einc. contradiction.
        -- destruct tfs0; discriminate.
        -- intros tf. rewrite Hsnoc, elem_of_app, list_elem_of_singleton, Hmem.
           tauto.
      * destruct (mapGet subs i) as [tfs|] eqn:Ei.
        -- destruct Hi as (Hnd' & Hne' & Hmem').
           split; [exact Hnd'|]. split; [exact Hne'|].
           intros tf. rewrite Hsnoc, Hmem'. split; [auto|].
           intros [H|[-> _]]; [exact H|contradiction].
        -- intros tf. rewrite Hsnoc. intros [H|[-> _]];
             [exact (Hi tf H)|contradiction].
  - rewrite mapGet_mapSet_eq. cbn [includes existsb app].
    eexists. split; [reflexivity|]. intros i. pose proof (Hinv i) as Hi.
    rewrite mapGet_mapSet.
    destruct (String.eqb_spec i0 i) as [E|E].
    + subst i0. split; [apply NoDup_singleton|]. split; [discriminate|].
      intros tf. rewrite Hsnoc, list_elem_of_singleton. split; [auto|].
      intros [H|[_ ->]]; [exfalso; exact (Hi0 tf H)|reflexivity].
    + rewrite mapGet_mapSet_ne by exact E.
      destruct (mapGet subs i) as [tfs|] eqn:Ei.
      * destruct Hi as (Hnd' & Hne' & Hmem').
        split; [exact Hnd'|]. split; [exact Hne'|].
        intros tf. rewrite Hsnoc, Hmem'. split; [auto|].
        intros [H|[-> _]]; [exact H|contradiction].
      * intros tf. rewrite Hsnoc. intros [H|[-> _]];
          [exact (Hi tf H)|contradiction].
Qed.

(** An instrument named like an inherited property never gets a list of its
    own, and the pair that names it throws. *)
Lemma subscribe_inherited seen subs i0 tf0 :
  includes objectPrototypeNames i0 = true ->
  Forall plainName seen ->
  subscriptionsOf seen subs ->
  subscribe subs (i0, tf0)
  = Throw (TypeError
             "ws.activeSubscriptions[instrument].includes is not a function").
Proof.
  intros Hinh Hseen Hinv. unfold subscribe, property.
  pose proof (Hinv i0) as Hi0.
  destruct (mapGet subs i0) as [tfs0|] eqn:E0.
  - exfalso. destruct Hi0 as (_ & Hne & Hmem).
    destruct tfs0 as [|tf tfs0]; [contradiction Hne; reflexivity|].
    assert (Hin : (i0, tf) ∈ seen) by (apply Hmem; left).
    rewrite Forall_forall in Hseen. specialize (Hseen _ Hin).
    unfold plainName in Hseen. cbn [fst] in Hseen. congruence.
  - cbv zeta. rewrite ?Hinh, ?E0, ?Hinh. reflexivity.
Qed.

Lemma subscribeAll_plain l : forall seen subs,
  Forall plainName l ->
  subscriptionsOf seen subs ->
  exists table,
    subscribeAll subs l = (table, None) /\
    subscriptionsOf (seen ++ l) table.
Proof.
  induction l as [|[i0 tf0] l IH]; intros seen subs Hl Hinv; cbn [subscribeAll].
  - exists subs. rewrite app_nil_r. auto.
  - apply Forall_cons in Hl. destruct Hl as [Hp Hl].
    destruct (subscribe_inv seen subs i0 tf0 Hp Hinv) as (subs1 & -> & Hinv1).
    replace (seen ++ (i0, tf0) :: l) with ((seen ++ [(i0, tf0)]) ++ l)
      by (rewrite <- app_assoc; reflexivity).
    apply IH; assumption.
Qed.

Lemma subscribeAll_app l1 : forall subs l2 table,
  subscribeAll subs l1 = (table, None) ->
  subscribeAll subs (l1 ++ l2) = subscribeAll table l2.
Proof.
  induction l1 as [|sub l1 IH]; intros subs l2 table H; cbn [subscribeAll app] in *.
  - injection H as ->. reflexivity.
  - destruct (subscribe subs sub) as [subs1|e]; [|discriminate H].
    apply IH, H.
Qed.

(** X14: the subscription table [handleGetData] and [handleGetReplay]
    build from a request.  When no instrument of the request is named like a
    property every object inherits ([constructor], [toString], ...), the
    loop ends without an exception, and an instrument is in the table
    exactly when the request names it; its list of timeframes is not empty,
    has no duplicates, and holds exactly the timeframes the request pairs
    with it.  At the first pair whose instrument has such a name the loop
    throws a TypeError, and the table is the one of the pairs before it. *)
Theorem setUpSubscriptions_exact (subscriptions : list (string * string)) :
  (Forall plainName subscriptions ->
   exists table,
     setUpSubscriptions subscriptions = (table, None) /\
     forall instrument,
       match mapGet table instrument with
       | Some tfs =>
           NoDup tfs /\ tfs <> [] /\
           forall tf, tf ∈ tfs <-> (instrument, tf) ∈ subscriptions
       | None => forall tf, (instrument, tf) ∉ subscriptions
       end) /\
  (forall before sub rest,
     subscriptions = before ++ sub :: rest ->
     Forall plainName before -> ~ plainName sub ->
     exists table,
       setUpSubscriptions subscriptions
       = (table,
          Some (TypeError
            "ws.activeSubscriptions[instrument].includes is not a function"))
       /\ setUpSubscriptions before = (table, None)).
Proof.
  assert (Hnil : subscriptionsOf [] []).
  { intros i. cbn. intros tf H. inversion H. }
  split.
  - intros Hp.
    destruct (subscribeAll_plain subscriptions [] [] Hp Hnil) as (t & Ht & Hs).
    exists t. split; [exact Ht | exact Hs].
  - intros before [i0 tf0] rest -> Hp Hsub.
    destruct (subscribeAll_plain before [] [] Hp Hnil) as (t & Ht & Hs).
    exists t. split; [|exact Ht].
    unfold setUpSubscriptions. rewrite (subscribeAll_app _ _ _ _ Ht).
    cbn [subscribeAll].
    rewrite (subscribe_inherited before t i0 tf0); [reflexivity | | exact Hp | exact Hs].
    unfold plainName in Hsub. cbn [fst] in Hsub.
    destruct (includes objectPrototypeNames i0); [reflexivity|].
    contradiction Hsub; reflexivity.
Qed.

(** A request for ES on two timeframes, then for an instrument called
    constructor: the table holds ES with both timeframes when the loop
    throws. *)
Lemma setUpSubscriptions_exact_witness :
  (exists table,
     setUpSubscriptions [("ES", "1m"); ("ES", "5m"); ("ES", "1m")]%string
     = (table, None) /\
     forall instrument,
       match mapGet table instrument with
       | Some tfs =>
           NoDup tfs /\ tfs <> [] /\
           forall tf, tf ∈ tfs <->
             (instrument, tf)
               ∈ [("ES", "1m"); ("ES", "5m"); ("ES", "1m")]%string
       | None =>
           forall tf,
             (instrument, tf)
               ∉ [("ES", "1m"); ("ES", "5m"); ("ES", "1m")]%string
       end) /\
  (exists table,
     setUpSubscriptions
       [("ES", "1m"); ("ES", "5m"); ("constructor", "1m"); ("NQ", "1m")]%string
     = (table,
        Some (TypeError
          "ws.activeSubscriptions[instrument].includes is not a function"))
     /\ setUpSubscriptions [("ES", "1m"); ("ES", "5m")]%string
        = (table, None)).
Proof.
  split.
  - apply (proj1 (setUpSubscriptions_exact
                    [("ES", "1m"); ("ES", "5m"); ("ES", "1m")]%string)).
    repeat (constructor; [reflexivity|]). constructor.
  - apply (proj2 (setUpSubscriptions_exact
                    [("ES", "1m"); ("ES", "5m"); ("constructor", "1m");
                     ("NQ", "1m")]%string)
             [("ES", "1m"); ("ES", "5m")]%string
             ("constructor", "1m")%string [("NQ", "1m")]%string).
    + reflexivity.
    + repeat (constructor; [reflexivity|]). constructor.
    + discriminate.
Defined.

Lemma update1m_spec ws trade instr subs c :
  instrument c = instr -> timeframe c = "1m"%string ->
  let ws1 := update1m ws trade instr subs c in
  activeSubscriptions ws1 = activeSubscriptions ws /\
  openCandles ws1 = openCandles ws /\
  isLiveActive ws1 = isLiveActive ws /\
  isProcessingTimeframeChange ws1 = isProcessingTimeframeChange ws /\
  (exists c', open1mCandles ws1 = mapSet (open1mCandles ws) instr c' /\
              instrument c' = instr /\ timeframe c' = "1m"%string) /\
  exists new, sent ws1 = sent ws ++ new /\
    Forall (fun e => includes subs "1m" = true /\ barOfPair instr "1m" e) new.
Proof.
  intros Hi Htf. cbv zeta. unfold update1m, outputIf, output.
  destruct (timestamp c + 60000 <=? tradeTimestamp trade);
    destruct (includes subs "1m") eqn:Einc; cbn;
    repeat split; eauto;
    try (eexists; split; [reflexivity|]; split; reflexivity).
  - exists [EmitBar (setClosed c);
            EmitBar (seededBy trade (tradeTimestamp trade / 60000 * 60000)
                       instr "1m")].
    split; [rewrite <- app_assoc; reflexivity|].
    repeat constructor; eexists; (split; [reflexivity|]); cbn; auto.
  - exists []. split; [rewrite app_nil_r; reflexivity|constructor].
  - exists [EmitBar (foldTrade c trade)]. split; [reflexivity|].
    repeat constructor. eexists. split; [reflexivity|]. cbn. auto.
  - exists []. split; [rewrite app_nil_r; reflexivity|constructor].
Qed.

Lemma updateHigher_spec host trade instr entries : forall st st' unv err,
  updateHigher host trade instr entries st = (st', unv, err) ->
  Forall (filedUnder instr) entries ->
  Forall (filedUnder instr) (visited st) ->
  Forall (filedUnder instr) (visited st' ++ unv) /\
  map fst (visited st' ++ unv) = map fst (visited st ++ entries) /\
  exists new, loopSent st' = loopSent st ++ new /\
    Forall (fun e => exists k, k ∈ map fst entries /\ barOfPair instr k e) new.
Proof.
  induction entries as [|[tf oc] rest IH]; intros st st' unv err Hrun Hent Hvis.
  - cbn in Hrun. injection Hrun as <- <- <-. rewrite app_nil_r.
    repeat split; [exact Hvis|]. exists []. rewrite app_nil_r. auto.
  - apply Forall_cons in Hent. destruct Hent as [[Hoi Hot] Hrest].
    cbn [fst snd] in Hoi, Hot.
    assert (Hweaken : forall new : list Emission,
      Forall (fun e => exists k, k ∈ map fst rest /\ barOfPair instr k e) new ->
      Forall (fun e => exists k, k ∈ map fst ((tf, oc) :: rest)
                                 /\ barOfPair instr k e) new).
    { intros new Hnew. eapply Forall_impl; [exact Hnew|].
      cbn. intros e (k & Hk & Hb).
      exists k. split; [right; exact Hk|exact Hb]. }
    assert (Hhere : forall b, instrument b = instr -> timeframe b = tf ->
      exists k, k ∈ map fst ((tf, oc) :: rest) /\ barOfPair instr k (EmitBar b)).
    { intros b Hb1 Hb2. exists tf. split; [left|]. exists b. auto. }
    cbn [updateHigher] in Hrun.
    destruct (String.eqb tf "1m").
    { apply IH in Hrun; [|exact Hrest|].
      - cbn [visited loopSent] in Hrun.
        destruct Hrun as (H1 & H2 & new & H3 & H4).
        rewrite <- app_assoc in H2. cbn [app] in H2.
        repeat split; [exact H1|exact H2|]. exists new. auto.
      - cbn [visited]. apply Forall_app. split; [exact Hvis|].
        constructor; [split; assumption|constructor]. }
    destruct (Utils.parseTimeframeMs tf) as [I|e].
    2:{ injection Hrun as <- <- <-. repeat split.
        - apply Forall_app. split; [exact Hvis|].
          constructor; [split; assumption|exact Hrest].
        - exists []. rewrite app_nil_r. auto. }
    destruct (timestamp oc + I <=? tradeTimestamp trade).
    + destruct (needsSessionAlignment tf) as [useS|e].
      2:{ injection Hrun as <- <- <-. cbn [visited loopSent].
          split; [|split].
          - apply Forall_app. split; [exact Hvis|].
            constructor; [split; assumption|exact Hrest].
          - rewrite !map_app. reflexivity.
          - exists [EmitBar (setClosed oc)]. split; [reflexivity|].
            constructor; [apply Hhere; assumption|constructor]. }
      destruct (baseTimeOf host useS I (loopCache st) (tradeTimestamp trade))
        as [newStart cache'].
      apply IH in Hrun; [|exact Hrest|].
      * cbn [visited loopSent] in Hrun.
        destruct Hrun as (H1 & H2 & new & H3 & H4).
        rewrite <- app_assoc in H2. cbn [app] in H2.
        repeat split; [exact H1|rewrite H2, !map_app; reflexivity|].
        exists ([EmitBar (setClosed oc);
                 EmitBar (seededBy trade newStart instr tf)] ++ new).
        split; [rewrite H3, <- app_assoc; reflexivity|].
        apply Forall_app. split; [|auto].
        constructor; [apply Hhere; assumption|].
        constructor; [apply Hhere; reflexivity|constructor].
      * cbn [visited]. apply Forall_app. split; [exact Hvis|].
        constructor; [split; reflexivity|constructor].
    + apply IH in Hrun; [|exact Hrest|].
      * cbn [visited loopSent] in Hrun.
        destruct Hrun as (H1 & H2 & new & H3 & H4).
        rewrite <- app_assoc in H2. cbn [app] in H2.
        repeat split; [exact H1|rewrite H2, !map_app; reflexivity|].
        exists ([EmitBar (foldTrade oc trade)] ++ new).
        split; [rewrite H3, <- app_assoc; reflexivity|].
        apply Forall_app. split; [|auto].
        constructor; [apply Hhere; assumption|constructor].
      * cbn [visited]. apply Forall_app. split; [exact Hvis|].
        constructor; [split; assumption|constructor].
Qed.

Lemma barOfPair_inj i tf j k e :
  barOfPair i tf e -> barOfPair j k e -> i = j /\ tf = k.
Proof.
  intros (c & -> & <- & <-) (c' & E & <- & <-). injection E as <-. auto.
Qed.

Lemma processTradeForClient_step host next i tf ws trade :
  labelled ws -> unsubscribed i tf ws ->
  let ws' := fst (processTradeForClient host next ws trade) in
  labelled ws' /\ unsubscribed i tf ws' /\
  exists new, sent ws' = sent ws ++ new /\
    Forall (fun e => ~ barOfPair i tf e) new.
Proof.
  intros Hlab Huns. cbv zeta.
  assert (Hsame : labelled ws /\ unsubscribed i tf ws /\
            exists new, sent ws = sent ws ++ new /\
              Forall (fun e => ~ barOfPair i tf e) new).
  { split; [exact Hlab|]. split; [exact Huns|].
    exists []. rewrite app_nil_r. auto. }
  unfold processTradeForClient.
  destruct (negb (isLiveActive ws)); [exact Hsame|].
  destruct (isProcessingTimeframeChange ws); [exact Hsame|].
  set (instr := tradeInstrument trade).
  destruct (mapGet (activeSubscriptions ws) instr) as [subs|] eqn:Esubs;
    [|exact Hsame].
  match goal with |- context [if ?b then _ else _] => destruct b end;
    [exact Hsame|].
  destruct (mapGet (open1mCandles ws) instr) as [c|] eqn:Ec; [|exact Hsame].
  destruct Hlab as [Hlab1 Hlab2]. destruct Huns as [Huns1 Huns2].
  destruct (Hlab1 _ _ Ec) as [Hci Hct].
  destruct (update1m_spec ws trade instr subs c Hci Hct)
    as (Hs1 & Ho1 & _ & _ & (c' & Hm1 & Hci' & Hct') & new1 & Hsent1 & Hnew1).
  set (ws1 := update1m ws trade instr subs c) in *.
  assert (Hlab1' : forall j x, mapGet (open1mCandles ws1) j = Some x ->
            instrument x = j /\ timeframe x = "1m"%string).
  { intros j x. rewrite Hm1, mapGet_mapSet.
    destruct (String.eqb_spec instr j) as [<-|_]; [|apply Hlab1].
    intros [= <-]. auto. }
  assert (Hnot1 : Forall (fun e => ~ barOfPair i tf e) new1).
  { eapply Forall_impl; [exact Hnew1|]. cbn. intros e [Hinc Hb] Hb'.
    destruct (barOfPair_inj _ _ _ _ _ Hb' Hb) as [-> ->].
    apply includes_elem in Hinc. exact (Huns1 _ Esubs Hinc). }
  rewrite Ho1.
  destruct (mapGet (openCandles ws) instr) as [ocs|] eqn:Eocs.
  - destruct (updateHigher host trade instr ocs
                (mkHigherLoop [] (sent ws1) (sessionBoundaryCache ws1)))
      as [[st unv] err] eqn:Erun.
    apply updateHigher_spec in Erun;
      [|exact (Hlab2 _ _ Eocs)|constructor].
    cbn [visited loopSent app] in Erun.
    destruct Erun as (Hfiled & Hkeys & new2 & Hsent2 & Hnew2).
    cbn [fst]. unfold labelled, unsubscribed.
    cbn [open1mCandles openCandles activeSubscriptions sent].
    rewrite Hs1. split; [split|split; [split|]].
    + exact Hlab1'.
    + intros j ocs'. rewrite mapGet_mapSet.
      destruct (String.eqb_spec instr j) as [<-|_]; [|apply Hlab2].
      intros [= <-]. exact Hfiled.
    + exact Huns1.
    + intros ocs'. rewrite mapGet_mapSet.
      destruct (String.eqb_spec instr i) as [E|_]; [|apply Huns2].
      intros [= <-]. rewrite Hkeys. apply Huns2. rewrite <- E. exact Eocs.
    + exists (new1 ++ new2). split; [rewrite Hsent2, Hsent1, app_assoc; reflexivity|].
      apply Forall_app. split; [exact Hnot1|].
      eapply Forall_impl; [exact Hnew2|]. cbn. intros e (k & Hk & Hb) Hb'.
      destruct (barOfPair_inj _ _ _ _ _ Hb' Hb) as [-> ->].
      exact (Huns2 _ Eocs Hk).
  - cbn [fst]. unfold labelled, unsubscribed. rewrite Hs1, Ho1.
    split; [split; assumption|]. split; [split; assumption|].
    exists new1. auto.
Qed.

Lemma removeFirst_NoDup l s : NoDup l -> s ∉ removeFirst l s.
Proof.
  induction 1 as [|x l Hx Hl IH]; cbn; [inversion 1|].
  destruct (String.eqb_spec x s) as [->|E]; [exact Hx|].
  intros H. apply elem_of_cons in H. destruct H as [H|H]; [congruence|].
  exact (IH H).
Qed.

Lemma mapDelete_keys {V : Type} (m : list (string * V)) k :
  k ∉ map fst (mapDelete m k).
Proof.
  unfold mapDelete. intros H. apply list_elem_of_fmap in H.
  destruct H as ([k' v] & -> & H).
  apply list_elem_of_In, List.filter_In in H. destruct H as [_ H].
  cbn in H. rewrite String.eqb_refl in H. discriminate H.
Qed.

Lemma handleRemoveTimeframe_unsubscribes ws i tf tfs :
  isLiveActive ws = true -> i <> ""%string -> tf <> ""%string ->
  mapGet (activeSubscriptions ws) i = Some tfs -> tf ∈ tfs -> NoDup tfs ->
  labelled ws ->
  let ws1 := handleRemoveTimeframe ws (Some i) (Some tf) in
  labelled ws1 /\ unsubscribed i tf ws1.
Proof.
  intros Hlive Hi Htf Hsubs Hin Hnd [Hlab1 Hlab2]. cbv zeta.
  unfold handleRemoveTimeframe. rewrite Hlive. cbn [negb missing].
  change (default ""%string (Some i)) with i.
  change (default ""%string (Some tf)) with tf.
  destruct (String.eqb_spec i ""); [contradiction|].
  destruct (String.eqb_spec tf ""); [contradiction|]. cbn [orb].
  rewrite Hsubs. apply includes_elem in Hin. rewrite Hin. cbn [negb].
  unfold labelled, unsubscribed, send.
  cbn [open1mCandles openCandles activeSubscriptions].
  split; split.
  - exact Hlab1.
  - intros j ocs.
    destruct (mapGet (openCandles ws) i) as [ocs0|] eqn:E0; [|apply Hlab2].
    rewrite mapGet_mapSet.
    destruct (String.eqb_spec i j) as [<-|_]; [|apply Hlab2].
    intros [= <-]. specialize (Hlab2 _ _ E0).
    unfold mapDelete. apply Forall_forall. intros kc Hkc.
    apply list_elem_of_In, List.filter_In in Hkc. destruct Hkc as [Hkc _].
    rewrite Forall_forall in Hlab2. apply Hlab2, list_elem_of_In, Hkc.
  - intros tfs'. rewrite mapGet_mapSet_eq. intros [= <-].
    apply removeFirst_NoDup, Hnd.
  - intros ocs.
    destruct (mapGet (openCandles ws) i) as [ocs0|] eqn:E0.
    + rewrite mapGet_mapSet_eq. intros [= <-]. apply mapDelete_keys.
    + rewrite E0. discriminate.
Qed.

Lemma afterTrades_quiet host next i tf trades : forall ws,
  labelled ws -> unsubscribed i tf ws ->
  exists new, sent (afterTrades host next ws trades) = sent ws ++ new /\
    Forall (fun e => ~ barOfPair i tf e) new.
Proof.
  induction trades as [|t trades IH]; intros ws Hlab Huns.
  - exists []. rewrite app_nil_r. auto.
  - destruct (processTradeForClient_step host next i tf ws t Hlab Huns)
      as (Hlab' & Huns' & new1 & Hs1 & Hn1).
    destruct (IH _ Hlab' Huns') as (new2 & Hs2 & Hn2).
    exists (new1 ++ new2). split.
    + cbn [afterTrades fold_left]. unfold afterTrades in Hs2.
      rewrite Hs2, Hs1, app_assoc. reflexivity.
    + apply Forall_app. auto.
Qed.

(** X18: after a successful remove_timeframe, no bar of that instrument
    and timeframe is sent any more, whatever trades arrive: in a live
    session whose open candles are filed under their own instrument and
    timeframe and whose timeframe list has no duplicates, everything sent
    after [handleRemoveTimeframe] for a subscribed timeframe is something
    other than a bar of that instrument on that timeframe. *)
Theorem handleRemoveTimeframe_silences (host : Z)
    (next1mStarts : list (string * Z)) (ws : Session) (i tf : string)
    (tfs : list string) (trades : list Trade) :
  isLiveActive ws = true -> i <> ""%string -> tf <> ""%string ->
  mapGet (activeSubscriptions ws) i = Some tfs -> tf ∈ tfs -> NoDup tfs ->
  labelled ws ->
  let ws1 := handleRemoveTimeframe ws (Some i) (Some tf) in
  exists new,
    sent (afterTrades host next1mStarts ws1 trades) = sent ws1 ++ new /\
    Forall (fun e => ~ barOfPair i tf e) new.
Proof.
  intros Hlive Hi Htf Hsubs Hin Hnd Hlab ws1.
  destruct (handleRemoveTimeframe_unsubscribes ws i tf tfs
              Hlive Hi Htf Hsubs Hin Hnd Hlab) as [Hlab1 Huns1].
  apply afterTrades_quiet; assumption.
Qed.

Lemma liveSession5m_labelled : labelled liveSession5m.
Proof.
  split.
  - intros j c H. destruct (String.eqb_spec "ES" j) as [<-|E].
    + vm_compute in H. injection H as <-. split; reflexivity.
    + unfold mapGet, liveSession5m in H. cbn [open1mCandles List.find fst] in H.
      apply String.eqb_neq in E. rewrite E in H. discriminate H.
  - intros j ocs H. destruct (String.eqb_spec "ES" j) as [<-|E].
    + vm_compute in H. injection H as <-.
      repeat (constructor; [split; reflexivity|]). constructor.
    + unfold mapGet, liveSession5m in H. cbn [openCandles List.find fst] in H.
      apply String.eqb_neq in E. rewrite E in H. discriminate H.
Qed.

Lemma handleRemoveTimeframe_silences_witness :
  let ws1 := handleRemoveTimeframe liveSession5m (Some "ES"%string)
               (Some "5m"%string) in
  exists new,
    sent (afterTrades 0 liveStarts ws1 threeTrades) = sent ws1 ++ new /\
    Forall (fun e => ~ barOfPair "ES" "5m" e) new.
Proof.
  apply (handleRemoveTimeframe_silences 0 liveStarts liveSession5m "ES" "5m"
           ["1m"; "5m"]%string threeTrades).
  - reflexivity.
  - discriminate.
  - discriminate.
  - reflexivity.
  - right. left.
  - apply NoDup_cons. split; [|apply NoDup_singleton].
    intros H. apply list_elem_of_singleton in H. discriminate H.
  - exact liveSession5m_labelled.
Defined.

Lemma update1m_open1m ws trade instr subs c :
  exists c',
    open1mCandles (update1m ws trade instr subs c)
    = mapSet (open1mCandles ws) instr c' /\
    (timestamp c' = timestamp c \/
     (timestamp c < timestamp c' /\
      timestamp c' mod 60000 = 0 /\
      timestamp c' <= tradeTimestamp trade < timestamp c' + 60000 /\
      c' = seededBy trade (timestamp c') instr "1m")).
Proof.
  unfold update1m, outputIf, output.
  destruct (Z.leb_spec (timestamp c + 60000) (tradeTimestamp trade)) as [H|H];
    destruct (includes subs "1m"); cbn;
    eexists; (split; [reflexivity|]); cbn; auto; right.
  all: pose proof (Z.mul_div_le (tradeTimestamp trade) 60000 ltac:(lia));
       pose proof (Z.mul_succ_div_gt (tradeTimestamp trade) 60000 ltac:(lia));
       repeat split; try lia; apply Z_mod_mult.
Qed.

Lemma processTradeForClient_open1m host next ws trade :
  open1mCandles (fst (processTradeForClient host next ws trade))
  = open1mCandles ws \/
  exists subs c,
    mapGet (open1mCandles ws) (tradeInstrument trade) = Some c /\
    open1mCandles (fst (processTradeForClient host next ws trade))
    = open1mCandles (update1m ws trade (tradeInstrument trade) subs c).
Proof.
  unfold processTradeForClient.
  destruct (negb (isLiveActive ws)); [auto|].
  destruct (isProcessingTimeframeChange ws); [auto|].
  destruct (mapGet (activeSubscriptions ws) _) as [subs|]; [|auto].
  match goal with |- context [if ?b then _ else _] => destruct b end; [auto|].
  destruct (mapGet (open1mCandles ws) _) as [c|] eqn:Ec; [|auto].
  right. exists subs, c. split; [reflexivity|].
  destruct (mapGet (openCandles _) _) as [ocs|]; [|reflexivity].
  destruct (updateHigher _ _ _ _ _) as [[st unv] err]. reflexivity.
Qed.

(** X15: the open 1-minute candle of an instrument never moves backwards.
    After [processTradeForClient], whether or not it throws later on, the
    instrument still has an open 1-minute candle; it starts where it did,
    or the trade was for this instrument and opened a candle that starts
    later, on a whole minute, and holds the trade's timestamp. *)
Theorem processTradeForClient_open1m_forward (host : Z)
    (next1mStarts : list (string * Z)) (ws : Session) (trade : Trade)
    (j : string) (c : Candle) :
  mapGet (open1mCandles ws) j = Some c ->
  exists c',
    mapGet (open1mCandles (fst (processTradeForClient host next1mStarts
                                  ws trade))) j = Some c' /\
    (timestamp c' = timestamp c \/
     (j = tradeInstrument trade /\
      timestamp c < timestamp c' /\
      timestamp c' mod 60000 = 0 /\
      timestamp c' <= tradeTimestamp trade < timestamp c' + 60000 /\
      c' = seededBy trade (timestamp c') j "1m")).
Proof.
  intros Hc.
  destruct (processTradeForClient_open1m host next1mStarts ws trade)
    as [-> | (subs & c0 & Hc0 & ->)]; [eauto|].
  destruct (update1m_open1m ws trade (tradeInstrument trade) subs c0)
    as (c' & -> & Hc').
  rewrite mapGet_mapSet.
  destruct (String.eqb_spec (tradeInstrument trade) j) as [E|E]; [|eauto].
  subst j. rewrite Hc0 in Hc. injection Hc as ->.
  exists c'. split; [reflexivity|]. destruct Hc' as [H|H]; [auto|].
  right. split; [reflexivity|exact H].
Qed.

Lemma processTradeForClient_open1m_forward_witness :
  exists c',
    mapGet (open1mCandles (fst (processTradeForClient 0 liveStarts
                                  liveSession (tradeAt 65000 1000 2)))) "ES"
    = Some c' /\
    (timestamp c' = timestamp (emptyCandle t0900 "ES" "1m") \/
     ("ES"%string = tradeInstrument (tradeAt 65000 1000 2) /\
      timestamp (emptyCandle t0900 "ES" "1m") < timestamp c' /\
      timestamp c' mod 60000 = 0 /\
      timestamp c' <= tradeTimestamp (tradeAt 65000 1000 2)
        < timestamp c' + 60000 /\
      c' = seededBy (tradeAt 65000 1000 2) (timestamp c') "ES" "1m")).
Proof.
  apply (processTradeForClient_open1m_forward 0 liveStarts liveSession
           (tradeAt 65000 1000 2) "ES" (emptyCandle t0900 "ES" "1m")).
  reflexivity.
Defined.

(** ** Trades earlier than the open 1-minute candle *)

Lemma nonDecreasing_inOrder run x : nonDecreasing (run ++ [x]) -> inOrder run x.
Proof.
  unfold nonDecreasing, inOrder. intros H.
  apply StronglySorted_app in H. destruct H as (Hle & _ & _).
  apply Forall_forall. intros t Ht _. apply Hle; [exact Ht|left].
Qed.




Lemma rolledBy_refl trade instr l : Forall2 (rolledBy trade instr) l l.
Proof.
  induction l as [|e l IH]; constructor; [|exact IH]. split; auto.
Qed.

Lemma updateHigher_forward host trade instr entries : forall st st' unv err,
  updateHigher host trade instr entries st = (st', unv, err) ->
  exists new, visited st' ++ unv = visited st ++ new /\
              Forall2 (rolledBy trade instr) entries new.
Proof.
  induction entries as [|[tf oc] rest IH]; intros st st' unv err Hrun.
  - cbn in Hrun. injection Hrun as <- <- <-. exists []. split; [reflexivity|].
    constructor.
  - cbn [updateHigher] in Hrun.
    assert (Hnext : forall x st1,
      updateHigher host trade instr rest st1 = (st', unv, err) ->
      visited st1 = visited st ++ [(tf, x)] ->
      rolledBy trade instr (tf, oc) (tf, x) ->
      exists new, visited st' ++ unv = visited st ++ new /\
                  Forall2 (rolledBy trade instr) ((tf, oc) :: rest) new).
    { intros x st1 H Hv Hr. destruct (IH _ _ _ _ H) as (new & Hnew & Hall).
      exists ((tf, x) :: new). split; [|constructor; assumption].
      rewrite Hnew, Hv, <- app_assoc. reflexivity. }
    destruct (String.eqb tf "1m").
    { eapply Hnext; [exact Hrun|reflexivity|]. split; auto. }
    destruct (Utils.parseTimeframeMs tf) as [I|e] eqn:Hp.
    2:{ injection Hrun as <- <- <-. exists ((tf, oc) :: rest).
        split; [reflexivity|apply rolledBy_refl]. }
    destruct (Z.leb_spec (timestamp oc + I) (tradeTimestamp trade)) as [Hroll|_].
    + destruct (needsSessionAlignment tf) as [useS|e].
      2:{ injection Hrun as <- <- <-. exists ((tf, setClosed oc) :: rest).
          split; [reflexivity|].
          constructor; [split; auto|apply rolledBy_refl]. }
      pose proof (baseTimeOf_bounds host useS I (loopCache st)
                    (tradeTimestamp trade)) as Hb.
      destruct (baseTimeOf host useS I (loopCache st) (tradeTimestamp trade))
        as [newStart cache']. cbn [fst] in Hb.
      eapply Hnext; [exact Hrun|reflexivity|].
      split; [reflexivity|]. right. exists I. cbn [fst snd].
      split; [exact Hp|]. split; [exact Hroll|]. split; [reflexivity|].
      intros HI. specialize (Hb HI). cbn [seededBy timestamp] in *. lia.
    + eapply Hnext; [exact Hrun|reflexivity|]. split; auto.
Qed.

(** X16: the same for the higher timeframes of the trade's instrument.
    [processTradeForClient] keeps the keys and the order of the open
    candles; each candle starts where it did, or it is the candle the trade
    opened after the old bucket had run out, and then, for a positive
    interval, it starts later than the old one and its bucket holds the
    trade's timestamp, on a session-aligned timeframe as well. *)
Theorem processTradeForClient_open_forward (host : Z)
    (next1mStarts : list (string * Z)) (ws : Session) (trade : Trade)
    (ocs : list (string * Candle)) :
  mapGet (openCandles ws) (tradeInstrument trade) = Some ocs ->
  exists ocs',
    mapGet (openCandles (fst (processTradeForClient host next1mStarts
                                ws trade))) (tradeInstrument trade)
    = Some ocs' /\
    Forall2 (rolledBy trade (tradeInstrument trade)) ocs ocs'.
Proof.
  intros Hocs.
  assert (Hsame : exists ocs',
            mapGet (openCandles ws) (tradeInstrument trade) = Some ocs' /\
            Forall2 (rolledBy trade (tradeInstrument trade)) ocs ocs').
  { exists ocs. split; [exact Hocs|apply rolledBy_refl]. }
  unfold processTradeForClient.
  destruct (negb (isLiveActive ws)); [exact Hsame|].
  destruct (isProcessingTimeframeChange ws); [exact Hsame|].
  destruct (mapGet (activeSubscriptions ws) _) as [subs|]; [|exact Hsame].
  match goal with |- context [if ?b then _ else _] => destruct b end;
    [exact Hsame|].
  destruct (mapGet (open1mCandles ws) _) as [c|]; [|exact Hsame].
  assert (Ho : openCandles (update1m ws trade (tradeInstrument trade) subs c)
               = openCandles ws).
  { unfold update1m, outputIf, output.
    destruct (_ <=? _); destruct (includes subs "1m"); reflexivity. }
  rewrite Ho, Hocs.
  destruct (updateHigher _ _ _ _ _) as [[st unv] err] eqn:Erun.
  apply updateHigher_forward in Erun. cbn [visited app] in Erun.
  destruct Erun as (new & -> & Hall).
  cbn [fst openCandles]. rewrite mapGet_mapSet_eq. eauto.
Qed.

Lemma processTradeForClient_open_forward_witness :
  exists ocs',
    mapGet (openCandles (fst (processTradeForClient 0 liveStarts
                                liveSession5m (tradeAt 310000 1002 3))))
      (tradeInstrument (tradeAt 310000 1002 3))
    = Some ocs' /\
    Forall2 (rolledBy (tradeAt 310000 1002 3)
               (tradeInstrument (tradeAt 310000 1002 3)))
      [("1m"%string, emptyCandle t0900 "ES" "1m");
       ("5m"%string, emptyCandle t0900 "ES" "5m")] ocs'.
Proof.
  apply (processTradeForClient_open_forward 0 liveStarts liveSession5m
           (tradeAt 310000 1002 3)
           [("1m"%string, emptyCandle t0900 "ES" "1m");
            ("5m"%string, emptyCandle t0900 "ES" "5m")]).
  reflexivity.
Defined.

Lemma processTradeForClient_guarded host next ws trade :
  guarded next ws ->
  guarded next (fst (processTradeForClient host next ws trade)).
Proof.
  intros Hg j n c' Hn Hc'.
  destruct (processTradeForClient_open1m host next ws trade)
    as [E | (subs & c0 & Hc0 & E)]; rewrite E in Hc'.
  - exact (Hg j n c' Hn Hc').
  - destruct (update1m_open1m ws trade (tradeInstrument trade) subs c0)
      as (c1 & E1 & Hc1).
    rewrite E1, mapGet_mapSet in Hc'.
    destruct (String.eqb_spec (tradeInstrument trade) j) as [Ej|_];
      [|exact (Hg j n c' Hn Hc')].
    injection Hc' as <-. subst j. specialize (Hg _ n c0 Hn Hc0).
    destruct Hc1 as [H|H]; lia.
Qed.

(** X28: the guard of [processTradeForClient] and the open candle.  If
    every open 1-minute candle starts at or after its instrument's
    [next1mStart], as when [handleGetData] installs them, this is still so
    after any run of trades; a trade that the guard drops for being before
    [next1mStart] is then also before the candle that is open. *)
Theorem afterTrades_guarded (host : Z) (next1mStarts : list (string * Z))
    (trades : list Trade) (ws : Session) :
  guarded next1mStarts ws ->
  guarded next1mStarts (afterTrades host next1mStarts ws trades).
Proof.
  revert ws. induction trades as [|t trades IH]; intros ws Hg; [exact Hg|].
  cbn [afterTrades fold_left]. apply IH.
  apply processTradeForClient_guarded, Hg.
Qed.

Lemma liveSession5m_guarded : guarded liveStarts liveSession5m.
Proof.
  intros j n c Hn Hc. destruct (String.eqb_spec "ES" j) as [<-|E].
  - vm_compute in Hn, Hc. injection Hn as <-. injection Hc as <-.
    cbn. lia.
  - unfold mapGet, liveStarts in Hn. cbn [List.find fst] in Hn.
    apply String.eqb_neq in E. rewrite E in Hn. discriminate Hn.
Qed.

Lemma afterTrades_guarded_witness :
  guarded liveStarts (afterTrades 0 liveStarts liveSession5m threeTrades).
Proof.
  apply (afterTrades_guarded 0 liveStarts threeTrades liveSession5m).
  exact liveSession5m_guarded.
Defined.




(** ** Replay: ticks, history, pause and stop *)

Lemma tickSymbol_frame host subs T st e st' :
  tickSymbol host subs T st e = Ok st' ->
  (exists e', tickData st' = tickData st ++ [e'] /\ advanced T e e') /\
  anyActive st' = anyActive st || dueNow T (snd e) /\
  nextCandleTime st' = stepNext T (nextCandleTime st) (snd e).
Proof.
  destruct e as [sym d]. unfold tickSymbol, advanced, dueNow, stepNext, nextBar.
  cbn [fst snd].
  destruct (replayCandles d !! currentIndex d) as [c|].
  - destruct (timestamp c <=? T).
    + destruct (mapGet subs sym) as [tfs|]; [|discriminate].
      destruct (feedAggregates _ _ _ _ _ _ _) as [[[aggs out] cache]|];
        [|discriminate].
      cbn [mbind result_bind]. intros [= <-]. cbn.
      rewrite orb_true_r. split; [|auto]. eexists. split; [reflexivity|].
      cbn. auto.
    + intros [= <-]. cbn. rewrite orb_false_r. split; [|auto].
      eexists. split; [reflexivity|]. cbn. auto.
  - intros [= <-]. cbn. rewrite orb_false_r. split; [|auto].
    eexists. split; [reflexivity|]. cbn. auto.
Qed.

Lemma tickSymbols_frame host subs T entries : forall st st',
  tickSymbols host subs T entries st = Ok st' ->
  (exists entries', tickData st' = tickData st ++ entries' /\
                    Forall2 (advanced T) entries entries') /\
  anyActive st' = anyActive st || existsb (dueNow T) (map snd entries) /\
  nextCandleTime st'
  = fold_left (stepNext T) (map snd entries) (nextCandleTime st).
Proof.
  induction entries as [|e rest IH]; intros st st';
    cbn [tickSymbols map existsb fold_left].
  - intros [= <-]. rewrite orb_false_r. split; [|auto].
    exists []. rewrite app_nil_r. split; [reflexivity|constructor].
  - destruct (tickSymbol host subs T st e) as [st1|] eqn:E1; [|discriminate].
    cbn [mbind result_bind]. intros Hrest.
    apply tickSymbol_frame in E1.
    destruct E1 as ((e' & Hd1 & Hadv) & Ha1 & Hn1).
    apply IH in Hrest.
    destruct Hrest as ((rest' & Hd & Hall) & Ha & Hn).
    split; [|split].
    + exists (e' :: rest'). split; [|constructor; assumption].
      rewrite Hd, Hd1, <- app_assoc. reflexivity.
    + rewrite Ha, Ha1. symmetry. apply orb_assoc.
    + rewrite Hn, Hn1. reflexivity.
Qed.

(** ** The clock of the timer *)

(** On a connection in its live phase the timer is [tick]. *)
Lemma timer_tickSymbols_at host subs T entries : forall st,
  Timer.tickSymbols host subs (Timer.ClockAt T) entries st
  = tickSymbols host subs T entries st.
Proof.
  induction entries as [|[sym d] rest IH]; intros st; [reflexivity|].
  cbn [Timer.tickSymbols tickSymbols].
  change (Timer.tickSymbol host subs (Timer.ClockAt T) st (sym, d))
    with (tickSymbol host subs T st (sym, d)).
  destruct (tickSymbol host subs T st (sym, d)) as [st1|e]; [|reflexivity].
  apply IH.
Qed.

Lemma timer_tick_live host (ws : Replay) :
  Timer.tick host (liveConnection ws)
  = match tick host ws with
    | Ok ws' => Ok (liveConnection ws')
    | Throw e => Throw e
    end.
Proof.
  destruct ws as [subs data T E active paused armed out cache].
  unfold Timer.tick, tick, liveConnection. cbn.
  destruct active; cbn; [|reflexivity].
  destruct paused; cbn; [reflexivity|].
  rewrite timer_tickSymbols_at.
  destruct (tickSymbols _ _ _ _ _) as [st|e]; cbn; [|reflexivity].
  destruct (negb (anyActive st) && _ && _); cbn;
    match goal with |- context [if ?b then _ else _] => destruct b end;
    reflexivity.
Qed.

Lemma existsb_dueNow T data :
  existsb (dueNow T) (map snd data) = true <-> due T data.
Proof.
  rewrite existsb_exists. unfold due, dueNow. split.
  - intros (d & Hd & Hdue). apply in_map_iff in Hd.
    destruct Hd as ([sym d'] & <- & Hin). simpl in Hdue.
    destruct (nextBar d') as [c|] eqn:Hn; [|discriminate].
    apply Z.leb_le in Hdue. exists sym, d', c.
    split; [apply list_elem_of_In, Hin | auto].
  - intros (sym & d & c & Hin & Hn & Hc). exists d. split.
    + apply in_map_iff. exists (sym, d). split; [reflexivity|].
      apply list_elem_of_In, Hin.
    + rewrite Hn. apply Z.leb_le, Hc.
Qed.

(** The search for the earliest waiting bar. *)
Lemma foldNext_waiting T data :
  let m := fold_left (stepNext T) (map snd data) MAX_SAFE_INTEGER in
  (m < MAX_SAFE_INTEGER <->
   exists c, waiting T data c /\ timestamp c < MAX_SAFE_INTEGER) /\
  (m < MAX_SAFE_INTEGER -> earliestWaiting T data m).
Proof.
  cbv zeta.
  assert (Hlow : forall c, waiting T data c ->
            fold_left (stepNext T) (map snd data) MAX_SAFE_INTEGER
            <= timestamp c).
  { intros c (sym & d & Hin & Hn & Hc).
    apply (foldNext_lower T _ _ d c); [|exact Hn|exact Hc].
    apply list_elem_of_In, in_map_iff. exists (sym, d).
    split; [reflexivity | apply list_elem_of_In, Hin]. }
  assert (Hatt : fold_left (stepNext T) (map snd data) MAX_SAFE_INTEGER
                 < MAX_SAFE_INTEGER ->
            exists c, waiting T data c /\
              timestamp c
              = fold_left (stepNext T) (map snd data) MAX_SAFE_INTEGER).
  { intros Hm.
    destruct (foldNext_attained T (map snd data) MAX_SAFE_INTEGER)
      as [E | (d & c & Hd & Hn & Hc & E)]; [lia|].
    apply list_elem_of_In, in_map_iff in Hd.
    destruct Hd as ([sym d'] & <- & Hin).
    exists c. split; [|symmetry; exact E].
    exists sym, d'. split; [apply list_elem_of_In, Hin | auto]. }
  split; [split|].
  - intros Hm. destruct (Hatt Hm) as (c & Hc & E). exists c.
    split; [exact Hc | lia].
  - intros (c & Hc & Hmax). specialize (Hlow c Hc). lia.
  - intros Hm. split; [exact (Hatt Hm) | exact Hlow].
Qed.

(** C7 (as amended): on an un-paused tick of an active replay whose clock
    [T] and live_end are set, if no instrument has a bar due (its next
    unsent bar stamped at or before [T]), [T] is before live_end and some
    instrument's next unsent bar is later than [T], then [T] jumps to the
    earliest timestamp among the instruments' next unsent bars, whether or
    not that bar is before live_end; otherwise [T] advances by exactly
    60000 ms.  Once [T] is greater than live_end the timer is stopped, the
    replay is marked inactive and the completion message is the last thing
    sent; until then the replay stays active.  The tick returns when every
    instrument has its subscription list, with timeframes that parse. *)
Theorem replay_timer_clock (host : Z) (ws : Timer.Connection) (T E : Z) :
  Timer.replayCurrentTime ws = Timer.ClockAt T ->
  Timer.replayLiveEndMs ws = Timer.ClockAt E ->
  Timer.replayIsActive ws = true ->
  Timer.replayIsPaused ws = false ->
  (subscribedReplay ws -> exists ws', Timer.tick host ws = Ok ws') /\
  forall ws', Timer.tick host ws = Ok ws' ->
    exists T',
      Timer.replayCurrentTime ws' = Timer.ClockAt T' /\
      Timer.replayLiveEndMs ws' = Timer.ClockAt E /\
      (jumps T E (Timer.replayData ws) ->
         earliestWaiting T (Timer.replayData ws) T') /\
      (~ jumps T E (Timer.replayData ws) -> T' = T + 60000) /\
      (E < T' ->
         Timer.replayTimerArmed ws' = false /\
         Timer.replayIsActive ws' = false /\
         last (Timer.replaySent ws') = Some (EmitCtrl "Replay completed")) /\
      (T' <= E ->
         Timer.replayIsActive ws' = true /\
         Timer.replayTimerArmed ws' = Timer.replayTimerArmed ws).
Proof.
  intros Hclock Hend Hactive Hpaused. unfold Timer.tick.
  rewrite Hclock, Hend, Hactive, Hpaused. cbn [negb Timer.before].
  rewrite timer_tickSymbols_at. split.
  - intros Hsubs.
    destruct (tickSymbols_summary host (Timer.activeReplaySubscriptions ws) T
                (Timer.replayData ws)
                (mkTickLoop [] false MAX_SAFE_INTEGER (Timer.replaySent ws)
                   (Timer.replayBoundaryCache ws)) Hsubs)
      as (st & -> & _). cbn [mbind result_bind].
    destruct (negb (anyActive st) && _ && _); cbn [Timer.plusMinute];
      match goal with |- context [if ?b then _ else _] => destruct b end;
      eexists; reflexivity.
  - intros ws'.
    destruct (tickSymbols host _ T _ _) as [st|e] eqn:Est;
      [|discriminate]. cbn [mbind result_bind].
    apply tickSymbols_frame in Est. destruct Est as (_ & A & N).
    cbn [anyActive nextCandleTime orb] in A, N.
    destruct (foldNext_waiting T (Timer.replayData ws)) as [Hm Hearliest].
    cbv zeta in Hm, Hearliest. rewrite <- N in Hm, Hearliest.
    set (jump := negb (anyActive st) && (T <? E)
                 && (nextCandleTime st <? MAX_SAFE_INTEGER)).
    assert (Hjump : jump = true <-> jumps T E (Timer.replayData ws)).
    { unfold jump, jumps.
      rewrite !andb_true_iff, negb_true_iff, !Z.ltb_lt, <- Hm.
      rewrite <- existsb_dueNow, <- A.
      destruct (anyActive st); split; intros H; intuition congruence. }
    set (T' := if jump then nextCandleTime st else T + 60000).
    assert (HT' : (if jump then Timer.ClockAt (nextCandleTime st)
                   else Timer.plusMinute (Timer.ClockAt T))
                  = Timer.ClockAt T').
    { unfold T'. destruct jump; reflexivity. }
    rewrite HT'. cbn [Timer.before].
    assert (Hc1 : jumps T E (Timer.replayData ws) ->
                  earliestWaiting T (Timer.replayData ws) T').
    { intros HJ. pose proof (proj2 Hjump HJ) as Ej. unfold T'. rewrite Ej.
      apply Hearliest. unfold jump in Ej.
      apply andb_true_iff in Ej. destruct Ej as [_ Ej].
      apply Z.ltb_lt, Ej. }
    assert (Hc2 : ~ jumps T E (Timer.replayData ws) -> T' = T + 60000).
    { intros HJ. unfold T'. destruct jump; [|reflexivity].
      exfalso. apply HJ, Hjump. reflexivity. }
    destruct (E <? T') eqn:Eend; intros [= <-]; exists T'; cbn.
    + apply Z.ltb_lt in Eend.
      split; [reflexivity|]. split; [reflexivity|].
      split; [exact Hc1|]. split; [exact Hc2|]. split.
      * intros _. split; [reflexivity|]. split; [reflexivity|].
        apply last_snoc.
      * intros Hle. lia.
    + apply Z.ltb_ge in Eend.
      split; [reflexivity|]. split; [reflexivity|].
      split; [exact Hc1|]. split; [exact Hc2|]. split.
      * intros Hlt. lia.
      * intros _. split; reflexivity.
Qed.

Lemma gapReplay_subscribed : subscribedReplay (liveConnection gapReplay).
Proof.
  intros sym d Hin. apply list_elem_of_singleton in Hin.
  injection Hin as -> ->.
  exists ["1m"; "5m"]%string. split; [reflexivity|].
  repeat (constructor; [eexists; reflexivity|]). constructor.
Qed.

(** [gapReplay] at 09:02 with its next bar at 09:10 and live_end at 09:15. *)
Lemma replay_timer_clock_witness :
  (subscribedReplay (liveConnection gapReplay) ->
   exists ws', Timer.tick 0 (liveConnection gapReplay) = Ok ws') /\
  forall ws', Timer.tick 0 (liveConnection gapReplay) = Ok ws' ->
    exists T',
      Timer.replayCurrentTime ws' = Timer.ClockAt T' /\
      Timer.replayLiveEndMs ws' = Timer.ClockAt (t0900 + 900000) /\
      (jumps (t0900 + 120000) (t0900 + 900000)
         (Timer.replayData (liveConnection gapReplay)) ->
       earliestWaiting (t0900 + 120000)
         (Timer.replayData (liveConnection gapReplay)) T') /\
      (~ jumps (t0900 + 120000) (t0900 + 900000)
           (Timer.replayData (liveConnection gapReplay)) ->
       T' = t0900 + 120000 + 60000) /\
      (t0900 + 900000 < T' ->
         Timer.replayTimerArmed ws' = false /\
         Timer.replayIsActive ws' = false /\
         last (Timer.replaySent ws') = Some (EmitCtrl "Replay completed")) /\
      (T' <= t0900 + 900000 ->
         Timer.replayIsActive ws' = true /\
         Timer.replayTimerArmed ws'
         = Timer.replayTimerArmed (liveConnection gapReplay)).
Proof.
  apply (replay_timer_clock 0 (liveConnection gapReplay)
           (t0900 + 120000) (t0900 + 900000));
    reflexivity.
Defined.

(** The next unsent bars of [gapReplay]: the bar at 09:10 and no other. *)
Lemma gapReplay_next sym d c :
  (sym, d) ∈ replayData gapReplay -> nextBar d = Some c ->
  timestamp c = t0900 + 600000.
Proof.
  intros Hin Hn. apply list_elem_of_singleton in Hin.
  injection Hin as -> ->. vm_compute in Hn. injection Hn as <-. reflexivity.
Qed.

Lemma gapReplay_unsent c :
  unsent (replayData gapReplay) c -> timestamp c = t0900 + 600000.
Proof.
  intros (sym & d & Hin & Hc). apply list_elem_of_singleton in Hin.
  injection Hin as -> ->.
  change (remaining _) with [sampleBar t0900 10] in Hc.
  apply list_elem_of_singleton in Hc. subst c. reflexivity.
Qed.

(** C7, counterexample: the only unsent bar is stamped 09:10 and the clock
    is at 09:02, so no bar is due.  With live_end at 09:10 no unsent bar is
    after the clock and before live_end, yet the clock jumps to 09:10
    instead of advancing to 09:03.  With live_end at 09:05 no unsent bar is
    after the clock and at or before live_end, yet the clock jumps to 09:10,
    past live_end, and the replay completes at once. *)
Lemma replay_timer_jump_counterexample :
  let T := t0900 + 120000 in
  (let E := t0900 + 600000 in
   let data := Timer.replayData (liveConnection edgeReplay) in
   ~ due T data /\
   (forall c, unsent data c -> ~ (T < timestamp c < E)) /\
   exists ws',
     Timer.tick 0 (liveConnection edgeReplay) = Ok ws' /\
     Timer.replayCurrentTime ws' = Timer.ClockAt (t0900 + 600000) /\
     Timer.replayCurrentTime ws' <> Timer.ClockAt (T + 60000)) /\
  (let E := t0900 + 300000 in
   let data := Timer.replayData (liveConnection beyondReplay) in
   ~ due T data /\
   (forall c, unsent data c -> ~ (T < timestamp c <= E)) /\
   exists ws',
     Timer.tick 0 (liveConnection beyondReplay) = Ok ws' /\
     Timer.replayCurrentTime ws' = Timer.ClockAt (t0900 + 600000) /\
     Timer.replayCurrentTime ws' <> Timer.ClockAt (T + 60000) /\
     Timer.replayIsActive ws' = false).
Proof.
  cbv zeta. split.
  - split; [|split].
    + intros (sym & d & c & Hin & Hn & Hc).
      rewrite (gapReplay_next sym d c Hin Hn) in Hc. vm_compute in Hc.
      apply Hc. reflexivity.
    + intros c Hc. rewrite (gapReplay_unsent c Hc). lia.
    + eexists. split; [vm_compute; reflexivity|].
      split; [reflexivity|]. intros H. vm_compute in H. discriminate H.
  - split; [|split].
    + intros (sym & d & c & Hin & Hn & Hc).
      rewrite (gapReplay_next sym d c Hin Hn) in Hc. vm_compute in Hc.
      apply Hc. reflexivity.
    + intros c Hc. rewrite (gapReplay_unsent c Hc). lia.
    + eexists. split; [vm_compute; reflexivity|].
      split; [reflexivity|]. split; [|reflexivity].
      intros H. vm_compute in H. discriminate H.
Qed.

(** With sorted series the earliest of the instruments' next unsent bars is
    the earliest unsent bar, and every unsent bar is later than the
    clock. *)
Lemma earliestWaiting_sorted T data t :
  (forall sym d, (sym, d) ∈ data -> sortedTs (replayCandles d)) ->
  ~ due T data -> earliestWaiting T data t ->
  (exists c, unsent data c /\ timestamp c = t) /\
  forall c, unsent data c -> T < t <= timestamp c.
Proof.
  intros Hsorted Hnd [(c0 & (sym0 & d0 & Hin0 & Hn0 & Hc0) & Et) Hmin]. split.
  - exists c0. split; [|exact Et].
    exists sym0, d0. split; [exact Hin0 | apply nextBar_remaining, Hn0].
  - intros c (sym & d & Hin & Hc).
    destruct (remaining_next d c (Hsorted _ _ Hin) Hc) as (n & Hn & _ & Hle).
    assert (HTn : T < timestamp n).
    { destruct (Z_lt_le_dec T (timestamp n)) as [Hl | Hl]; [exact Hl|].
      exfalso. apply Hnd. exists sym, d, n. auto. }
    assert (Hw : waiting T data n) by (exists sym, d; auto).
    specialize (Hmin n Hw). lia.
Qed.

(** A timer that runs while the clock is not a number, as the one
    [handleModifyReplay] installs after a replay without live phase: no bar
    is ever due, the clock becomes NaN, and since NaN is not greater than
    live_end the replay never completes. *)
Lemma timer_tickSymbols_unset host subs clock entries : forall st,
  unset clock ->
  exists next,
    Timer.tickSymbols host subs clock entries st
    = Ok (mkTickLoop (tickData st ++ entries) (anyActive st) next
            (tickSent st) (tickCache st)).
Proof.
  intros st Hu. revert st.
  assert (Hna : forall ts, Timer.notAfter ts clock = false)
    by (intros ts; destruct Hu as [-> | ->]; reflexivity).
  induction entries as [|[sym d] rest IH]; intros st;
    cbn [Timer.tickSymbols].
  - exists (nextCandleTime st). rewrite app_nil_r. destruct st; reflexivity.
  - unfold Timer.tickSymbol.
    destruct (replayCandles d !! currentIndex d) as [c|];
      [rewrite Hna|]; cbn [mbind result_bind];
      match goal with
      | |- context [Timer.tickSymbols _ _ _ _ ?st1] =>
          destruct (IH st1) as [next ->]
      end;
      exists next; cbn; rewrite <- app_assoc; reflexivity.
Qed.

Lemma timer_unset_clock host (ws : Timer.Connection) :
  unset (Timer.replayCurrentTime ws) ->
  Timer.replayIsActive ws = true -> Timer.replayIsPaused ws = false ->
  Timer.tick host ws
  = Ok (Timer.mkConnection (Timer.activeReplaySubscriptions ws)
          (Timer.replayData ws) Timer.ClockNaN (Timer.replayLiveEndMs ws)
          true false (Timer.replayTimerArmed ws) (Timer.replaySent ws)
          (Timer.replayBoundaryCache ws)).
Proof.
  intros Hu Hactive Hpaused. unfold Timer.tick. rewrite Hactive, Hpaused.
  cbn [negb].
  destruct (timer_tickSymbols_unset host (Timer.activeReplaySubscriptions ws)
              (Timer.replayCurrentTime ws) (Timer.replayData ws)
              (mkTickLoop [] false MAX_SAFE_INTEGER (Timer.replaySent ws)
                 (Timer.replayBoundaryCache ws)) Hu) as [next ->].
  cbn [mbind result_bind anyActive nextCandleTime tickData tickSent tickCache
       negb andb app].
  assert (Hb : Timer.before (Timer.replayCurrentTime ws)
                 (Timer.replayLiveEndMs ws) = false)
    by (destruct Hu as [-> | ->]; reflexivity).
  assert (Hp : Timer.plusMinute (Timer.replayCurrentTime ws) = Timer.ClockNaN)
    by (destruct Hu as [-> | ->]; reflexivity).
  rewrite Hb, Hp. cbn [andb].
  destruct (Timer.replayLiveEndMs ws); reflexivity.
Qed.

Lemma timerTicks_unset_clock host n : forall ws : Timer.Connection,
  unset (Timer.replayCurrentTime ws) ->
  Timer.replayIsActive ws = true -> Timer.replayIsPaused ws = false ->
  exists ws',
    timerTicks host n ws = Ok ws' /\
    Timer.replayIsActive ws' = true /\
    Timer.replaySent ws' = Timer.replaySent ws /\
    Timer.replayData ws' = Timer.replayData ws.
Proof.
  induction n as [|n IH]; intros ws Hu Hactive Hpaused; cbn [timerTicks].
  - exists ws. auto.
  - rewrite (timer_unset_clock host ws Hu Hactive Hpaused).
    cbn [mbind result_bind].
    match goal with
    | |- context [timerTicks host n ?w] =>
        destruct (IH w) as (ws' & E & Ha & Hs & Hd);
          [right; reflexivity | reflexivity | reflexivity |]
    end.
    exists ws'. auto.
Qed.

Lemma tick_frame (host : Z) (ws ws' : Replay) :
  replayIsActive ws = true -> replayIsPaused ws = false ->
  tick host ws = Ok ws' ->
  replayCurrentTime ws < replayCurrentTime ws' /\
  Forall2 (advanced (replayCurrentTime ws)) (replayData ws) (replayData ws').
Proof.
  intros Hact Hpause. unfold tick. rewrite Hact, Hpause. cbn [negb].
  destruct (tickSymbols _ _ _ _ _) as [st|] eqn:Est; [|discriminate].
  cbn [mbind result_bind].
  apply tickSymbols_frame in Est. cbn [tickData anyActive nextCandleTime app] in Est.
  destruct Est as ((entries' & Hd & Hall) & Ha & Hn).
  set (T := replayCurrentTime ws) in *.
  assert (HT : T < (if negb (anyActive st) && (T <? replayLiveEndMs ws)
                       && (nextCandleTime st <? MAX_SAFE_INTEGER)
                    then nextCandleTime st else T + 60000)).
  { destruct (negb (anyActive st) && (T <? replayLiveEndMs ws)
              && (nextCandleTime st <? MAX_SAFE_INTEGER)) eqn:E; [|lia].
    rewrite !andb_true_iff in E. destruct E as [_ E]. apply Z.ltb_lt in E.
    destruct (foldNext_attained T (map snd (replayData ws)) MAX_SAFE_INTEGER)
      as [H | (d & c & _ & _ & Hc & H)]; rewrite <- Hn in H; lia. }
  destruct (replayLiveEndMs ws <? _); intros [= <-]; cbn;
    (split; [exact HT | rewrite Hd; exact Hall]).
Qed.

(** X19: the virtual clock of a replay only moves forward: a tick of an
    active replay that is not paused leaves it strictly later than it
    was. *)
Theorem tick_clock_increases (host : Z) (ws ws' : Replay) :
  replayIsActive ws = true -> replayIsPaused ws = false ->
  tick host ws = Ok ws' ->
  replayCurrentTime ws < replayCurrentTime ws'.
Proof.
  intros Hact Hpause Htick.
  exact (proj1 (tick_frame host ws ws' Hact Hpause Htick)).
Qed.

Lemma tick_clock_increases_witness :
  replayCurrentTime gapReplay < replayCurrentTime gapReplayNext.
Proof.
  apply (tick_clock_increases 0 gapReplay gapReplayNext).
  - reflexivity.
  - reflexivity.
  - vm_compute. reflexivity.
Defined.

(** X20: a tick sends at most one bar of each instrument.  It keeps the
    instruments, their order and their series; the index of an instrument
    whose next bar is due at the virtual time moves on by one, every other
    index stays. *)
Theorem tick_one_bar_each (host : Z) (ws ws' : Replay) :
  replayIsActive ws = true -> replayIsPaused ws = false ->
  tick host ws = Ok ws' ->
  Forall2 (advanced (replayCurrentTime ws)) (replayData ws) (replayData ws').
Proof.
  intros Hact Hpause Htick.
  exact (proj2 (tick_frame host ws ws' Hact Hpause Htick)).
Qed.

Lemma tick_one_bar_each_witness :
  Forall2 (advanced (replayCurrentTime gapReplay)) (replayData gapReplay)
    (replayData gapReplayNext).
Proof.
  apply (tick_one_bar_each 0 gapReplay gapReplayNext).
  - reflexivity.
  - reflexivity.
  - vm_compute. reflexivity.
Defined.

Lemma tick_ok host ws : replayReady ws -> exists ws', tick host ws = Ok ws'.
Proof.
  intros [_ Hready]. unfold tick.
  destruct (negb (replayIsActive ws)); [eauto|].
  destruct (replayIsPaused ws); [eauto|].
  destruct (tickSymbols_summary host (activeReplaySubscriptions ws)
              (replayCurrentTime ws) (replayData ws)
              (mkTickLoop [] false MAX_SAFE_INTEGER (replaySent ws)
                 (replayBoundaryCache ws))) as (st & -> & _).
  { intros sym d Hin. apply (Hready sym d Hin). }
  cbn [mbind result_bind].
  destruct (replayLiveEndMs ws <? _); eauto.
Qed.

Lemma tick_keeps host ws ws' :
  replayIsActive ws = true -> replayIsPaused ws = false ->
  tick host ws = Ok ws' ->
  replayLiveEndMs ws' = replayLiveEndMs ws /\
  activeReplaySubscriptions ws' = activeReplaySubscriptions ws /\
  replayIsPaused ws' = false /\
  (replayIsActive ws' = true ->
   replayCurrentTime ws' <= replayLiveEndMs ws) /\
  (replayIsActive ws' = false ->
   last (replaySent ws') = Some (EmitCtrl "Replay completed")).
Proof.
  intros Hact Hpause. unfold tick. rewrite Hact, Hpause. cbn [negb].
  destruct (tickSymbols _ _ _ _ _) as [st|]; [|discriminate].
  cbn [mbind result_bind].
  destruct (replayLiveEndMs ws <? _) eqn:E; intros [= <-]; cbn.
  - split; [reflexivity|]. split; [reflexivity|]. split; [reflexivity|].
    split; [discriminate|]. intros _. apply last_snoc.
  - apply Z.ltb_ge in E.
    split; [reflexivity|]. split; [reflexivity|]. split; [reflexivity|].
    split; [intros _; exact E|]. discriminate.
Qed.

Lemma tick_ready host ws ws' :
  replayReady ws ->
  replayIsActive ws = true -> replayIsPaused ws = false ->
  tick host ws = Ok ws' -> replayReady ws'.
Proof.
  intros [Hmax Hready] Hact Hpause Htick.
  destruct (tick_keeps host ws ws' Hact Hpause Htick) as (Hend & Hsubs & _).
  destruct (tick_frame host ws ws' Hact Hpause Htick) as [_ Hall].
  split; [rewrite Hend; exact Hmax|].
  intros sym d' Hin. rewrite Hend, Hsubs.
  apply list_elem_of_lookup in Hin. destruct Hin as [k Hk].
  destruct (Forall2_lookup_r _ _ _ _ _ Hall Hk)
    as ([sym0 d] & Hk0 & Hsym & Hcs & _).
  cbn [fst snd] in Hsym, Hcs. subst sym0. rewrite Hcs.
  apply (Hready sym d). apply list_elem_of_lookup. eauto.
Qed.

Lemma ticks_complete host : forall (m : nat) ws,
  replayReady ws ->
  replayIsActive ws = true -> replayIsPaused ws = false ->
  (Z.to_nat (replayLiveEndMs ws - replayCurrentTime ws + 1) <= m)%nat ->
  exists n ws',
    (n <= m + 1)%nat /\ ticks host n ws = Ok ws' /\
    replayIsActive ws' = false /\
    last (replaySent ws') = Some (EmitCtrl "Replay completed").
Proof.
  induction m as [|m IH]; intros ws Hready Hact Hpause Hm;
    destruct (tick_ok host ws Hready) as [ws1 Htick];
    destruct (tick_keeps host ws ws1 Hact Hpause Htick)
      as (Hend & _ & Hpause1 & Hle & Hdone);
    destruct (tick_frame host ws ws1 Hact Hpause Htick) as [Hlt _];
    destruct (replayIsActive ws1) eqn:Hact1.
  - specialize (Hle eq_refl). lia.
  - exists 1%nat, ws1. cbn [ticks]. rewrite Htick. cbn.
    split; [lia|auto].
  - specialize (Hle eq_refl).
    destruct (IH ws1) as (n & ws' & Hn & Hticks & Hoff & Hlast);
      [exact (tick_ready host ws ws1 Hready Hact Hpause Htick)
      |exact Hact1|exact Hpause1|rewrite Hend; lia|].
    exists (S n), ws'. cbn [ticks]. rewrite Htick. cbn [mbind result_bind].
    split; [lia|]. split; [exact Hticks|]. split; [exact Hoff|exact Hlast].
  - exists 1%nat, ws1. cbn [ticks]. rewrite Htick. cbn.
    split; [lia|auto].
Qed.

(** X21: a replay that is left running completes.  From replay data as
    [handleGetReplay] prepares it, active and not paused, the ticks never
    throw, and within (live_end - virtual time + 1) + 1 of them the replay
    is inactive and the last message sent is "Replay completed". *)
Theorem replay_completes (host : Z) (ws : Replay) :
  replayReady ws ->
  replayIsActive ws = true -> replayIsPaused ws = false ->
  exists n ws',
    (n <= Z.to_nat (replayLiveEndMs ws - replayCurrentTime ws + 1) + 1)%nat /\
    ticks host n ws = Ok ws' /\
    replayIsActive ws' = false /\
    last (replaySent ws') = Some (EmitCtrl "Replay completed").
Proof.
  intros Hready Hact Hpause.
  apply (ticks_complete host _ ws Hready Hact Hpause). lia.
Qed.

Lemma replay_completes_witness :
  exists n ws',
    (n <= Z.to_nat (replayLiveEndMs gapReplay - replayCurrentTime gapReplay + 1)
          + 1)%nat /\
    ticks 0 n gapReplay = Ok ws' /\
    replayIsActive ws' = false /\
    last (replaySent ws') = Some (EmitCtrl "Replay completed").
Proof.
  apply (replay_completes 0 gapReplay gapReplay_ready).
  - reflexivity.
  - reflexivity.
Defined.

(** X22: history and replay split a sorted series without overlap or
    loss.  The bars [handleGetReplay] sends as history (those before
    live_start) are the bars before the index at which the replay starts,
    and every bar from that index on is at or after live_start. *)
Theorem liveStartIndex_splits (candles1m : list Candle) (liveStartMs : Z) :
  sortedTs candles1m ->
  historyCandles candles1m liveStartMs
  = take (liveStartIndex candles1m liveStartMs) candles1m /\
  Forall (fun c => liveStartMs <= timestamp c)
    (drop (liveStartIndex candles1m liveStartMs) candles1m).
Proof.
  unfold sortedTs, historyCandles.
  induction 1 as [|c r Hr IH Hc]; cbn [List.filter liveStartIndex];
    [split; [reflexivity|constructor]|].
  destruct (Z.leb_spec liveStartMs (timestamp c)) as [H|H].
  - assert (Hall : Forall (fun x => liveStartMs <= timestamp x) (c :: r)).
    { constructor; [exact H|]. eapply Forall_impl; [exact Hc|].
      cbn. intros x Hx. lia. }
    destruct (timestamp c <? liveStartMs) eqn:E;
      [apply Z.ltb_lt in E; lia|].
    split; [|exact Hall]. cbn [take].
    clear -Hall. inversion Hall as [|? ? _ Hr]; subst. clear Hall.
    induction Hr as [|x l Hx _ IHl]; [reflexivity|]. cbn [List.filter].
    destruct (timestamp x <? liveStartMs) eqn:E;
      [apply Z.ltb_lt in E; lia|exact IHl].
  - destruct (timestamp c <? liveStartMs) eqn:E;
      [|apply Z.ltb_ge in E; lia].
    destruct IH as [IH1 IH2]. cbn [take drop]. rewrite IH1. auto.
Qed.

Lemma gapSeries_sorted : sortedTs gapSeries.
Proof.
  unfold sortedTs, gapSeries.
  repeat (constructor;
          [|repeat (constructor; [vm_compute; discriminate|]); constructor]).
  constructor.
Qed.

Lemma liveStartIndex_splits_witness :
  historyCandles gapSeries (t0900 + 120000)
  = take (liveStartIndex gapSeries (t0900 + 120000)) gapSeries /\
  Forall (fun c => t0900 + 120000 <= timestamp c)
    (drop (liveStartIndex gapSeries (t0900 + 120000)) gapSeries).
Proof.
  apply (liveStartIndex_splits gapSeries (t0900 + 120000)).
  exact gapSeries_sorted.
Defined.

Lemma inStep_step host instr tf useS I maxTs start end_ a r x :
  start <= timestamp x <= end_ ->
  inStep a r ->
  inStep (aggStep host instr tf useS I maxTs a x)
    (replayAggStep host instr tf useS I start end_ r x).
Proof.
  intros Hx (Hc & Hr & Hcur & Hopen). unfold aggStep, replayAggStep.
  destruct (Z.ltb_spec (timestamp x) start) as [H|_]; [lia|].
  destruct (Z.ltb_spec end_ (timestamp x)) as [H|_]; [lia|]. cbn [orb].
  rewrite Hc, Hcur.
  destruct (baseTimeOf host useS I (aggCache a) (timestamp x)) as [b c'].
  destruct (currentCandle a) as [cur|].
  - destruct (negb (b =? timestamp cur)).
    + split; [reflexivity|]. split; [|split; reflexivity].
      cbn [replayAggResult aggResult]. rewrite Hr, map_app. reflexivity.
    + split; [reflexivity|]. split; [exact Hr|].
      cbn [replayAggCurrent currentCandle]. rewrite Hopen.
      split; reflexivity.
  - split; [reflexivity|]. split; [exact Hr|]. split; reflexivity.
Qed.

Lemma inStep_fold host instr tf useS I maxTs start end_ l : forall a r,
  Forall (fun x => start <= timestamp x <= end_) l ->
  inStep a r ->
  inStep (fold_left (aggStep host instr tf useS I maxTs) l a)
    (fold_left (replayAggStep host instr tf useS I start end_) l r).
Proof.
  induction l as [|x l IH]; intros a r Hl Hin; [exact Hin|].
  inversion Hl as [|? ? Hx Hl']; subst. cbn [fold_left].
  apply IH; [exact Hl'|]. apply inStep_step; assumption.
Qed.

Lemma setClosed_idemp c : setClosed (setClosed c) = setClosed c.
Proof. reflexivity. Qed.

(** X23: the aggregation of the replay history agrees with the one of the
    live path.  For a timeframe other than 1m with a positive interval,
    when every input bar lies at least one interval after [start] and not
    after [end_], [aggregateReplayCandles] returns the bars that
    [aggregateCandles] returns, in the same order and with the same
    boundary cache afterwards, each marked closed. *)
Theorem aggregateReplayCandles_as_aggregateCandles (host : Z)
    (cache : SessionCache) (instr tf : string) (start end_ I : Z)
    (candles1m : list Candle) :
  tf <> "1m"%string ->
  Utils.parseTimeframeMs tf = Ok I -> 0 < I ->
  (forall c, c ∈ candles1m -> start + I <= timestamp c <= end_) ->
  exists out cache',
    aggregateCandles host cache instr tf start end_ candles1m
    = Ok (out, cache') /\
    aggregateReplayCandles host cache instr tf start end_ candles1m
    = Ok (map setClosed out, cache').
Proof.
  intros E Hp HI Hrange.
  unfold aggregateCandles, aggregateReplayCandles.
  destruct (String.eqb_spec tf "1m") as [E'|_]; [contradiction|].
  unfold needsSessionAlignment. rewrite Hp.
  cbn [mbind result_bind mret result_ret].
  set (useS := (60 * 60 * 1000 <? I) && (I <=? 24 * 60 * 60 * 1000)).
  set (maxTs := maxTimestamp candles1m).
  assert (Hsorted : Forall (fun x => start + I <= timestamp x <= end_)
                      (sortByTimestamp candles1m)).
  { apply Forall_forall. intros c Hc. apply Hrange, sortByTimestamp_elem, Hc. }
  pose proof (volumeInv_fold host instr tf useS I maxTs start end_
                (sortByTimestamp candles1m) HI []
                (mkAggState cache [] None []) Hsorted) as Hvol.
  cbn [app] in Hvol. destruct Hvol as (_ & Hres & Hcur).
  { unfold volumeInv. cbn. auto. }
  pose proof (inStep_fold host instr tf useS I maxTs start end_
                (sortByTimestamp candles1m)
                (mkAggState cache [] None [])
                (mkReplayAggState cache [] None)) as Hstep.
  destruct Hstep as (Hc & Hr & Hcu & _).
  { eapply Forall_impl; [exact Hsorted|]. cbn. intros x Hx. lia. }
  { repeat split. }
  eexists _, _. split; [reflexivity|].
  rewrite Hc, Hr, Hcu. f_equal. f_equal. unfold aggFlush.
  destruct (currentCandle _) as [cur|].
  - rewrite filter_all.
    + rewrite map_app. reflexivity.
    + apply Forall_app. split; [exact Hres|].
      constructor; [exact Hcur|constructor].
  - rewrite filter_all by exact Hres. reflexivity.
Qed.

Lemma aggregateReplayCandles_as_aggregateCandles_witness :
  exists out cache',
    aggregateCandles 0 ∅ "ES" "5m" (t0900 - 300000) (t0900 + 600000)
      (sampleSeries t0900 4)
    = Ok (out, cache') /\
    aggregateReplayCandles 0 ∅ "ES" "5m" (t0900 - 300000) (t0900 + 600000)
      (sampleSeries t0900 4)
    = Ok (map setClosed out, cache').
Proof.
  apply (aggregateReplayCandles_as_aggregateCandles 0 ∅ "ES" "5m"
           (t0900 - 300000) (t0900 + 600000) 300000 (sampleSeries t0900 4)).
  - discriminate.
  - reflexivity.
  - lia.
  - apply Forall_forall. unfold sampleSeries. cbn [seq map].
    repeat (constructor; [vm_compute; split; discriminate|]). constructor.
Defined.

Lemma ticks_paused host n ws :
  replayIsActive ws = true -> replayIsPaused ws = true ->
  ticks host n ws = Ok ws.
Proof.
  intros Hact Hpause. induction n as [|n IH]; [reflexivity|].
  cbn [ticks]. unfold tick at 1. rewrite Hact, Hpause.
  cbn [negb mbind result_bind]. exact IH.
Qed.

(** X24: pause and resume.  After modify_replay with pause = true on a
    running replay, any number of ticks changes nothing: no bar is sent and
    the virtual clock stands still.  A modify_replay with pause = false then
    gives back the replay as it was before the pause, with the two control
    messages added to what was sent. *)
Theorem pause_then_resume (host : Z) (ws : Replay) (intervalMs : Z)
    (n : nat) :
  replayIsActive ws = true -> replayIsPaused ws = false ->
  let paused := fst (handleModifyReplay ws intervalMs (Some true) None) in
  ticks host n paused = Ok paused /\
  handleModifyReplay paused intervalMs (Some false) None
  = (mkReplay (activeReplaySubscriptions ws) (replayData ws)
       (replayCurrentTime ws) (replayLiveEndMs ws) true false
       (replayTimerArmed ws)
       (replaySent ws ++ [EmitCtrl "Replay paused"; EmitCtrl "Replay resumed"])
       (replayBoundaryCache ws),
     intervalMs).
Proof.
  intros Hact Hpause. cbv zeta.
  assert (Hp : fst (handleModifyReplay ws intervalMs (Some true) None)
               = replaySend (withPaused ws true) (EmitCtrl "Replay paused")).
  { unfold handleModifyReplay. rewrite Hact, Hpause. reflexivity. }
  rewrite Hp.
  split; [apply ticks_paused; [exact Hact|reflexivity]|].
  unfold handleModifyReplay, replaySend, withPaused. cbn.
  rewrite Hact. cbn. rewrite <- ?app_assoc. reflexivity.
Qed.

Lemma pause_then_resume_witness :
  let paused := fst (handleModifyReplay gapReplay 1000 (Some true) None) in
  ticks 0 3 paused = Ok paused /\
  handleModifyReplay paused 1000 (Some false) None
  = (mkReplay (activeReplaySubscriptions gapReplay) (replayData gapReplay)
       (replayCurrentTime gapReplay) (replayLiveEndMs gapReplay) true false
       (replayTimerArmed gapReplay)
       (replaySent gapReplay
        ++ [EmitCtrl "Replay paused"; EmitCtrl "Replay resumed"])
       (replayBoundaryCache gapReplay),
     1000).
Proof.
  apply (pause_then_resume 0 gapReplay 1000 3).
  - reflexivity.
  - reflexivity.
Defined.

Lemma ticks_stopped host n ws :
  replayIsActive ws = false -> replayTimerArmed ws = false ->
  ticks host n ws = Ok ws.
Proof.
  intros Hact Harm. induction n as [|n IH]; [reflexivity|].
  cbn [ticks]. unfold tick at 1. rewrite Hact.
  cbn [negb mbind result_bind].
  destruct ws; cbn in *; subst. exact IH.
Qed.

(** X25: stop_replay is final.  After [handleStopReplay] on an active
    replay, "Replay stopped" is the last message sent, no tick changes or
    sends anything, and every modify_replay is answered with the error "No
    active replay to modify" and changes nothing else. *)
Theorem stop_replay_is_final (host : Z) (ws : Replay) (n : nat) :
  replayIsActive ws = true ->
  let stopped := handleStopReplay ws in
  replaySent stopped = replaySent ws ++ [EmitCtrl "Replay stopped"] /\
  ticks host n stopped = Ok stopped /\
  forall intervalMs pause replay_interval,
    handleModifyReplay stopped intervalMs pause replay_interval
    = (replaySend stopped (EmitError "No active replay to modify"),
       intervalMs).
Proof.
  intros Hact. cbv zeta. unfold handleStopReplay. rewrite Hact. cbn [negb].
  split; [reflexivity|]. split; [apply ticks_stopped; reflexivity|].
  intros. reflexivity.
Qed.

Lemma stop_replay_is_final_witness :
  let stopped := handleStopReplay gapReplay in
  replaySent stopped = replaySent gapReplay ++ [EmitCtrl "Replay stopped"] /\
  ticks 0 3 stopped = Ok stopped /\
  forall intervalMs pause replay_interval,
    handleModifyReplay stopped intervalMs pause replay_interval
    = (replaySend stopped (EmitError "No active replay to modify"),
       intervalMs).
Proof.
  apply (stop_replay_is_final 0 gapReplay 3). reflexivity.
Defined.

(** ** The fetchers *)

(** X27: [fetchHistorical1mCandles] posts once, or twice when the first
    answer is a 422 that names an available end; the second request then
    asks for that end, and its answer is final: a second 422 is thrown like
    any other failure.  A body of two or more records gives one bar per
    record, an empty body no bar, and a body of exactly one record a
    TypeError, as axios has parsed it and the result has no [trim].  The
    loop's closing error, "Failed to fetch historical data after
    retrying", is never reached. *)
Theorem fetchHistorical1mCandles_one_retry (endpoint : Endpoint)
    (instrument : string) (startMs endMs : Z) :
  let run := fetchHistorical1mCandles endpoint instrument startMs endMs in
  let bars (lines : list RawBar) : Result (list Candle) :=
    if (length lines =? 1)%nat then Throw trimIsNotAFunction
    else Ok (map (candleOfRaw instrument) lines) in
  match endpoint 0%nat instrument startMs (EndOfRange endMs) with
  | Body lines => run = (bars lines, [EndOfRange endMs])
  | Unprocessable (Some availableEnd) =>
      snd run = [EndOfRange endMs; AvailableEnd availableEnd] /\
      fst run =
        match endpoint 1%nat instrument startMs (AvailableEnd availableEnd) with
        | Body lines => bars lines
        | Unprocessable _ => Throw status422
        | Failure e => Throw e
        end
  | Unprocessable None => run = (Throw status422, [EndOfRange endMs])
  | Failure e => run = (Throw e, [EndOfRange endMs])
  end.
Proof.
  assert (Hbody : forall lines,
            candlesOfBody instrument lines
            = if (length lines =? 1)%nat then Throw trimIsNotAFunction
              else Ok (map (candleOfRaw instrument) lines)).
  { intros [|l [|l' ls]]; reflexivity. }
  cbv zeta. unfold fetchHistorical1mCandles.
  rewrite historicalLoop_equation. cbn [Nat.ltb Nat.leb Nat.eqb app].
  destruct (endpoint 0%nat instrument startMs (EndOfRange endMs))
    as [lines|[availableEnd|]|e] eqn:E0; cbn [fst snd]; try reflexivity.
  - rewrite Hbody. reflexivity.
  - rewrite historicalLoop_equation. cbn [Nat.ltb Nat.leb Nat.eqb app].
    destruct (endpoint 1%nat instrument startMs (AvailableEnd availableEnd))
      as [lines|a|e]; cbn [fst snd]; rewrite ?Hbody; split; reflexivity.
Qed.

